(** * NeoCraft terrain generation: block registry, biome table, column
      generators.

    A shallow embedding of the TypeScript sources
    [BlockRegistry], [BiomeMap], [TerrainGenerator], [TreeGenerator],
    [MineshaftGenerator] and [StructureGenerator], of the texture index
    of [TextureAtlas] and of the precipitation choice of
    [WeatherSystem]; the properties of the specification that concern
    them; and further properties of the code. *)

From Stdlib Require Import ZArith QArith Lia Bool List Lqa.
From stdpp Require Import gmap strings list fin_maps.

Local Open Scope Z_scope.

(** ** Block tags *)

(** [enum BlockType]: a numeric TypeScript enum, [AIR = 0] and the others
    numbered in order; [COUNT] is the sentinel that closes the enum. *)
Inductive BlockType : Set :=
  | AIR | STONE | DIRT | GRASS | SAND | WATER
  | WOOD_OAK | LEAVES_OAK | WOOD_BIRCH | LEAVES_BIRCH
  | WOOD_SPRUCE | LEAVES_SPRUCE
  | COAL_ORE | IRON_ORE | GOLD_ORE | DIAMOND_ORE
  | BEDROCK | GRAVEL | COBBLESTONE | PLANKS_OAK
  | CRAFTING_TABLE | FURNACE | GLASS | TORCH
  | TALL_GRASS | FLOWER_RED | FLOWER_YELLOW | CACTUS
  | SNOW | ICE | SAND_STONE | WOOD_JUNGLE | LEAVES_JUNGLE
  | COUNT.

(** The number the enum gives each member. *)
Definition blockTag (t : BlockType) : nat :=
  match t with
  | AIR => 0 | STONE => 1 | DIRT => 2 | GRASS => 3 | SAND => 4 | WATER => 5
  | WOOD_OAK => 6 | LEAVES_OAK => 7 | WOOD_BIRCH => 8 | LEAVES_BIRCH => 9
  | WOOD_SPRUCE => 10 | LEAVES_SPRUCE => 11
  | COAL_ORE => 12 | IRON_ORE => 13 | GOLD_ORE => 14 | DIAMOND_ORE => 15
  | BEDROCK => 16 | GRAVEL => 17 | COBBLESTONE => 18 | PLANKS_OAK => 19
  | CRAFTING_TABLE => 20 | FURNACE => 21 | GLASS => 22 | TORCH => 23
  | TALL_GRASS => 24 | FLOWER_RED => 25 | FLOWER_YELLOW => 26 | CACTUS => 27
  | SNOW => 28 | ICE => 29 | SAND_STONE => 30 | WOOD_JUNGLE => 31
  | LEAVES_JUNGLE => 32 | COUNT => 33
  end%nat.

Definition blockOfTag (n : nat) : BlockType :=
  match n with
  | 0 => AIR | 1 => STONE | 2 => DIRT | 3 => GRASS | 4 => SAND | 5 => WATER
  | 6 => WOOD_OAK | 7 => LEAVES_OAK | 8 => WOOD_BIRCH | 9 => LEAVES_BIRCH
  | 10 => WOOD_SPRUCE | 11 => LEAVES_SPRUCE
  | 12 => COAL_ORE | 13 => IRON_ORE | 14 => GOLD_ORE | 15 => DIAMOND_ORE
  | 16 => BEDROCK | 17 => GRAVEL | 18 => COBBLESTONE | 19 => PLANKS_OAK
  | 20 => CRAFTING_TABLE | 21 => FURNACE | 22 => GLASS | 23 => TORCH
  | 24 => TALL_GRASS | 25 => FLOWER_RED | 26 => FLOWER_YELLOW | 27 => CACTUS
  | 28 => SNOW | 29 => ICE | 30 => SAND_STONE | 31 => WOOD_JUNGLE
  | 32 => LEAVES_JUNGLE | _ => COUNT
  end%nat.

#[global] Instance BlockType_eq_dec : EqDecision BlockType.
Proof. solve_decision. Defined.

#[global] Instance BlockType_countable : Countable BlockType.
Proof. by apply (inj_countable' blockTag blockOfTag); intros []. Defined.

(** [a === b] on block tags. *)
Definition block_eqb (a b : BlockType) : bool := bool_decide (a = b).

(** ** Block registry ([BlockRegistryImpl]) *)

Module Registry.

Inductive ToolType := tool_none | pickaxe | shovel | axe | shears.

(** [BlockTextureFaces]: every face name is optional. *)
Record BlockTextureFaces := {
  face_all : option string;
  face_top : option string;
  face_bottom : option string;
  face_side : option string;
}.

Definition faces_all (s : string) : BlockTextureFaces :=
  {| face_all := Some s; face_top := None; face_bottom := None; face_side := None |}.

Definition faces_tbs (t b s : string) : BlockTextureFaces :=
  {| face_all := None; face_top := Some t; face_bottom := Some b; face_side := Some s |}.

Record Block := {
  id : BlockType;
  name : string;
  transparent : bool;
  solid : bool;
  hardness : Q;
  toolType : ToolType;
  textureFaces : BlockTextureFaces;
  lightEmission : Z;
}.

(** The exception [get] throws. *)
Inductive Error := UnknownBlockType (t : BlockType).

(** A call either returns or throws. *)
Inductive Result (A : Type) :=
  | Ok (a : A)
  | Throw (e : Error).
Arguments Ok {A} a.
Arguments Throw {A} e.

Definition bind {A B} (r : Result A) (k : A -> Result B) : Result B :=
  match r with
  | Ok a => k a
  | Throw e => Throw e
  end.

#[global] Instance Result_bind : MBind Result := fun A B k r => bind r k.
#[global] Instance Result_ret : MRet Result := @Ok.

Definition returns {A} (r : Result A) : Prop := exists a, r = Ok a.
Definition throws {A} (r : Result A) : Prop := exists e, r = Throw e.

(** The field [blocks : Map<BlockType, Block>]. *)
Abbreviation State := (gmap BlockType Block).

Definition register (r : State) (id : BlockType) (name : string)
    (transparent solid : bool) (hardness : Q) (toolType : ToolType)
    (textureFaces : BlockTextureFaces) (lightEmission : Z) : State :=
  <[ id := {| id := id; name := name; transparent := transparent;
              solid := solid; hardness := hardness; toolType := toolType;
              textureFaces := textureFaces;
              lightEmission := lightEmission |} ]> r.

Definition get (r : State) (type : BlockType) : Result Block :=
  match r !! type with
  | Some block => Ok block
  | None => Throw (UnknownBlockType type)
  end.

Definition has (r : State) (type : BlockType) : bool :=
  bool_decide (is_Some (r !! type)).

Inductive Face := top | bottom | side.

(** A string is truthy when it is not empty. *)
Definition truthy (s : option string) : option string :=
  match s with
  | Some EmptyString => None
  | other => other
  end.

Definition getTexture (r : State) (type : BlockType) (face : Face) : Result string :=
  block ← get r type;
  let faces := textureFaces block in
  match truthy (face_all faces) with
  | Some a => Ok a
  | None =>
      let named := match face with
                   | top => face_top faces
                   | bottom => face_bottom faces
                   | side => face_side faces
                   end in
      match named with
      | Some s => Ok s
      | None => match face_side faces with
                | Some s => Ok s
                | None => Ok "missing"%string
                end
      end
  end.

Definition isTransparent (r : State) (type : BlockType) : Result bool :=
  if block_eqb type AIR then Ok true
  else if has r type then (block ← get r type; Ok (transparent block))
  else Ok false.

Definition isSolid (r : State) (type : BlockType) : Result bool :=
  if block_eqb type AIR then Ok false
  else if has r type then (block ← get r type; Ok (solid block))
  else Ok true.

(** [export const BlockRegistry]: the registry after the module's
    [register] calls, in their order. *)
Definition BlockRegistry : State :=
  let r : State := ∅ in
  let r := register r AIR "Air" true false 0 tool_none (faces_all "air") 0 in
  let r := register r STONE "Stone" false true 1.5 pickaxe (faces_all "stone") 0 in
  let r := register r COBBLESTONE "Cobblestone" false true 2.0 pickaxe (faces_all "cobblestone") 0 in
  let r := register r BEDROCK "Bedrock" false true (-1) tool_none (faces_all "bedrock") 0 in
  let r := register r DIRT "Dirt" false true 0.5 shovel (faces_all "dirt") 0 in
  let r := register r GRASS "Grass Block" false true 0.6 shovel
             (faces_tbs "grass_top" "dirt" "grass_side") 0 in
  let r := register r SAND "Sand" false true 0.5 shovel (faces_all "sand") 0 in
  let r := register r SAND_STONE "Sandstone" false true 0.8 pickaxe
             (faces_tbs "sandstone_top" "sandstone_bottom" "sandstone_side") 0 in
  let r := register r GRAVEL "Gravel" false true 0.6 shovel (faces_all "gravel") 0 in
  let r := register r SNOW "Snow" false true 0.2 shovel (faces_all "snow") 0 in
  let r := register r WATER "Water" true false 0 tool_none (faces_all "water") 0 in
  let r := register r ICE "Ice" true true 0.5 pickaxe (faces_all "ice") 0 in
  let r := register r WOOD_OAK "Oak Wood" false true 2.0 axe
             (faces_tbs "oak_log_top" "oak_log_top" "oak_log_side") 0 in
  let r := register r LEAVES_OAK "Oak Leaves" true true 0.2 shears (faces_all "oak_leaves") 0 in
  let r := register r PLANKS_OAK "Oak Planks" false true 2.0 axe (faces_all "oak_planks") 0 in
  let r := register r WOOD_BIRCH "Birch Wood" false true 2.0 axe
             (faces_tbs "birch_log_top" "birch_log_top" "birch_log_side") 0 in
  let r := register r LEAVES_BIRCH "Birch Leaves" true true 0.2 shears (faces_all "birch_leaves") 0 in
  let r := register r WOOD_SPRUCE "Spruce Wood" false true 2.0 axe
             (faces_tbs "spruce_log_top" "spruce_log_top" "spruce_log_side") 0 in
  let r := register r LEAVES_SPRUCE "Spruce Leaves" true true 0.2 shears (faces_all "spruce_leaves") 0 in
  let r := register r COAL_ORE "Coal Ore" false true 3.0 pickaxe (faces_all "coal_ore") 0 in
  let r := register r IRON_ORE "Iron Ore" false true 3.0 pickaxe (faces_all "iron_ore") 0 in
  let r := register r GOLD_ORE "Gold Ore" false true 3.0 pickaxe (faces_all "gold_ore") 0 in
  let r := register r DIAMOND_ORE "Diamond Ore" false true 3.0 pickaxe (faces_all "diamond_ore") 0 in
  let r := register r CRAFTING_TABLE "Crafting Table" false true 2.5 axe
             (faces_tbs "crafting_table_top" "oak_planks" "crafting_table_side") 0 in
  let r := register r FURNACE "Furnace" false true 3.5 pickaxe
             (faces_tbs "furnace_top" "furnace_top" "furnace_side") 0 in
  let r := register r GLASS "Glass" true true 0.3 tool_none (faces_all "glass") 0 in
  let r := register r TORCH "Torch" true false 0 tool_none (faces_all "torch") 14 in
  let r := register r TALL_GRASS "Tall Grass" true false 0 shears (faces_all "tall_grass") 0 in
  let r := register r FLOWER_RED "Red Flower" true false 0 tool_none (faces_all "flower_red") 0 in
  let r := register r FLOWER_YELLOW "Yellow Flower" true false 0 tool_none (faces_all "flower_yellow") 0 in
  let r := register r CACTUS "Cactus" true true 0.4 tool_none
             (faces_tbs "cactus_top" "cactus_bottom" "cactus_side") 0 in
  let r := register r WOOD_JUNGLE "Jungle Wood" false true 2.0 axe
             (faces_tbs "jungle_log_top" "jungle_log_top" "jungle_log_side") 0 in
  let r := register r LEAVES_JUNGLE "Jungle Leaves" true true 0.2 shears (faces_all "jungle_leaves") 0 in
  r.

End Registry.

(** ** Numbers and the seeded generator ([mulberry32]) *)

Module Rng.

(** [x | 0]: the signed 32-bit integer of [x]. *)
Definition toInt32 (x : Z) : Z := (x + 2 ^ 31) mod 2 ^ 32 - 2 ^ 31.

(** [x >>> 0]: the unsigned 32-bit integer of [x]. *)
Definition toUint32 (x : Z) : Z := x mod 2 ^ 32.

(** [Math.imul(a, b)]. *)
Definition imul (a b : Z) : Z := toInt32 (a * b).

(** [a ^ b] and [a | b]: both operands are first taken to 32 bits. *)
Definition xor32 (a b : Z) : Z := Z.lxor (toInt32 a) (toInt32 b).
Definition or32 (a b : Z) : Z := Z.lor (toInt32 a) (toInt32 b).

(** [a >>> n]. *)
Definition ushr (a n : Z) : Z := Z.shiftr (toUint32 a) n.

(** The closure [mulberry32(seed)] returns owns one variable, [seed]; a
    generator is the value of that variable. *)
Definition t := Z.

Definition mulberry32 (seed : Z) : t := seed.

(** One call [rng()].  The call returns [u / 4294967296] for a 32-bit
    unsigned [u]; the model returns [u] and the new state. *)
Definition next (seed : t) : Z * t :=
  let seed := toInt32 seed in
  let seed := toInt32 (seed + 0x6d2b79f5) in
  let t := imul (xor32 seed (ushr seed 15)) (or32 1 seed) in
  let t := xor32 (t + imul (xor32 t (ushr t 7)) (or32 61 t)) t in
  (toUint32 (xor32 t (ushr t 14)), seed).

(** [Math.floor(rng() * n)] for the value [u / 2^32] of a call and a small
    positive integer [n]: the product is exact in double precision. *)
Definition floorMul (u n : Z) : Z := (u * n) / 2 ^ 32.

(** [rng() < p], [rng() > p] and [rng() >= p] for the value [u / 2^32] of a
    call and the decimal literal [p = num / den]. *)
Definition lt (u num den : Z) : bool := u * den <? num * 2 ^ 32.
Definition gt (u num den : Z) : bool := num * 2 ^ 32 <? u * den.
Definition ge (u num den : Z) : bool := num * 2 ^ 32 <=? u * den.

End Rng.

Arguments Rng.toInt32 : simpl never.
Arguments Rng.toUint32 : simpl never.
Arguments Rng.next : simpl never.
Arguments Rng.floorMul : simpl never.
Arguments Rng.lt : simpl never.
Arguments Rng.gt : simpl never.
Arguments Rng.ge : simpl never.

(** ** Loops *)

Module Loop.

(** [for (let i = lo; i < hi; i++) body] over a state [S]; a [continue]
    is a body that returns its state unchanged for that index. *)
Definition for_range {S : Type} (lo hi : Z) (body : Z -> S -> S) (s : S) : S :=
  fold_left (fun s i => body i s) (seqZ lo (hi - lo)) s.

(** A loop whose body may [break]: [None] leaves the loop with the state
    the iteration started from. *)
Fixpoint for_break_list {S : Type} (l : list Z) (body : Z -> S -> option S) (s : S) : S :=
  match l with
  | [] => s
  | i :: l' =>
      match body i s with
      | None => s
      | Some s' => for_break_list l' body s'
      end
  end.

Definition for_break {S : Type} (lo hi : Z) (body : Z -> S -> option S) (s : S) : S :=
  for_break_list (seqZ lo (hi - lo)) body s.

End Loop.

Arguments Loop.for_range {S} lo hi body s : simpl never.
Arguments Loop.for_break {S} lo hi body s : simpl never.

(** ** Chunk *)

Module Chunk.

(** [CHUNK_SIZE] and [CHUNK_HEIGHT] of [utils/Constants]: the generators
    document local coordinates as [0..15] and test heights against [256]. *)
Definition CHUNK_SIZE : Z := 16.
Definition CHUNK_HEIGHT : Z := 256.

(** Modelled from the spec: the class [Chunk] of [world/Chunk] is not among
    the sources.  The specification gives a chunk integer column
    coordinates [(cx, cz)] and a grid of block tags, one per in-bounds
    cell, with bounds-checked accessors: a read outside the chunk returns
    the absent block ([AIR], "always the empty/absent block"), a write
    outside the chunk is dropped, and a fresh chunk is empty. *)
Record t := mk {
  cx : Z;
  cz : Z;
  blocks : gmap (Z * Z * Z) BlockType;
}.

Definition inBounds (x y z : Z) : bool :=
  (0 <=? x) && (x <? CHUNK_SIZE) && (0 <=? y) && (y <? CHUNK_HEIGHT)
  && (0 <=? z) && (z <? CHUNK_SIZE).

Definition empty (cx cz : Z) : t := mk cx cz ∅.

Definition getBlock (c : t) (x y z : Z) : BlockType :=
  if inBounds x y z then default AIR (blocks c !! (x, y, z)) else AIR.

Definition setBlock (c : t) (x y z : Z) (b : BlockType) : t :=
  if inBounds x y z then mk (cx c) (cz c) (<[ (x, y, z) := b ]> (blocks c)) else c.

(** Two chunks hold the same grid: same coordinates, and every cell holds
    the same block tag. *)
Definition same_grid (c1 c2 : t) : Prop :=
  cx c1 = cx c2 /\ cz c1 = cz c2 /\
  forall x y z, getBlock c1 x y z = getBlock c2 x y z.

End Chunk.

Arguments Chunk.CHUNK_SIZE : simpl never.
Arguments Chunk.CHUNK_HEIGHT : simpl never.

Abbreviation Chunk := Chunk.t.
Abbreviation getBlock := Chunk.getBlock.
Abbreviation setBlock := Chunk.setBlock.
Abbreviation CHUNK_SIZE := Chunk.CHUNK_SIZE.
Abbreviation CHUNK_HEIGHT := Chunk.CHUNK_HEIGHT.

(** [heightmap: number[][]], indexed [heightmap[x][z]].  Every access in the
    sources is guarded or lies in [0..15]; a missing entry reads as 0
    here. *)
Abbreviation Heightmap := (list (list Z)).

Definition hmGet (heightmap : Heightmap) (x z : Z) : Z :=
  default 0 (row ← heightmap !! Z.to_nat x; row !! Z.to_nat z).

(** ** Biomes ([BiomeMap]) *)

Inductive Biome : Set :=
  | PLAINS | FOREST | DESERT | TAIGA | MOUNTAINS
  | OCEAN | BEACH | TUNDRA | JUNGLE | SWAMP.

#[global] Instance Biome_eq_dec : EqDecision Biome.
Proof. solve_decision. Defined.

Definition biome_eqb (a b : Biome) : bool := bool_decide (a = b).

Module BiomeMap.

(** [a < b] on numbers. *)
Definition ltb (a b : Q) : bool := negb (Qle_bool b a).

(** The double-precision values of the decimal literals of [getBiome]. *)
Definition lit_0_78 : Q := 3512807709348987 # 4503599627370496.
Definition lit_0_85 : Q := 7656119366529843 # 9007199254740992.
Definition lit_0_2 : Q := 3602879701896397 # 18014398509481984.
Definition lit_0_45 : Q := 8106479329266893 # 18014398509481984.
Definition lit_0_5 : Q := 1 # 2.
Definition lit_0_7 : Q := 3152519739159347 # 4503599627370496.
Definition lit_0_68 : Q := 6124895493223875 # 9007199254740992.
Definition lit_0_55 : Q := 2476979795053773 # 4503599627370496.
Definition lit_0_3 : Q := 5404319552844595 # 18014398509481984.
Definition lit_0_35 : Q := 3152519739159347 # 9007199254740992.

(** The decision table of [getBiome], from the two sampled values: the
    body of the method after [temp] and [moist] are computed.  A double
    is a rational number, and the table only compares. *)
Definition biomeOf (temp moist : Q) : Biome :=
  if ltb lit_0_78 moist then
    if ltb lit_0_85 moist then OCEAN else BEACH
  else if ltb temp lit_0_2 then TUNDRA
  else if ltb temp lit_0_45 then
    if ltb lit_0_5 moist then TAIGA else TUNDRA
  else if ltb temp lit_0_7 then
    if ltb lit_0_68 moist then SWAMP
    else if ltb lit_0_55 moist then FOREST
    else if ltb lit_0_3 moist then PLAINS
    else PLAINS
  else if ltb lit_0_55 moist then JUNGLE
  else if ltb lit_0_35 moist then PLAINS
  else DESERT.

(** A [BiomeMap] object: its two noise fields sampled and mapped to
    [0, 1] ([getTemperature], [getMoisture]).  The noise library is not
    part of the sources; the sampled values are fields of the object. *)
Record t := mk {
  getTemperature : Z -> Z -> Q;
  getMoisture : Z -> Z -> Q;
}.

Definition getBiome (bm : t) (worldX worldZ : Z) : Biome :=
  let temp := getTemperature bm worldX worldZ in
  let moist := getMoisture bm worldX worldZ in
  biomeOf temp moist.

End BiomeMap.

(** ** Trees ([TreeGenerator]) *)

Module TreeType.
Inductive t : Set := OAK | BIRCH | SPRUCE | JUNGLE.
End TreeType.

Module TreeGenerator.

Definition isInBounds (lx y lz : Z) : bool :=
  (0 <=? lx) && (lx <? CHUNK_SIZE) && (0 <=? lz) && (lz <? CHUNK_SIZE)
  && (0 <=? y) && (y <? CHUNK_HEIGHT).

Definition setIfInBounds (chunk : Chunk) (lx y lz : Z) (block : BlockType) : Chunk :=
  if isInBounds lx y lz then setBlock chunk lx y lz block else chunk.

(** [distSq > (radius + 0.5) * (radius + 0.5)] for integers: both sides
    times four. *)
Definition outsideSphere (distSq radius : Z) : bool :=
  (2 * radius + 1) * (2 * radius + 1) <? 4 * distSq.

Definition placeLeafSphere (chunk : Chunk) (cx cy cz radius : Z)
    (leafBlock : BlockType) : Chunk :=
  Loop.for_range (- radius) (radius + 1) (fun dx chunk =>
    Loop.for_range (- radius) (radius + 2) (fun dy chunk =>
      Loop.for_range (- radius) (radius + 1) (fun dz chunk =>
        let distSq := dx * dx + dy * dy + dz * dz in
        if outsideSphere distSq radius then chunk
        else
          let bx := cx + dx in
          let by' := cy + dy in
          let bz := cz + dz in
          if isInBounds bx by' bz then
            let existing := getBlock chunk bx by' bz in
            if block_eqb existing AIR then setBlock chunk bx by' bz leafBlock
            else chunk
          else chunk) chunk) chunk) chunk.

(** The trunk loop shared by the four species:
    [for (dy = 0; dy < trunkHeight; dy++) setIfInBounds(lx, y + dy, lz, wood)]. *)
Definition placeTrunk (chunk : Chunk) (lx y lz trunkHeight : Z) (wood : BlockType) : Chunk :=
  Loop.for_range 0 trunkHeight (fun dy chunk =>
    setIfInBounds chunk lx (y + dy) lz wood) chunk.

Definition placeOakTree (chunk : Chunk) (lx y lz : Z) (rng : Rng.t) : Chunk * Rng.t :=
  let '(u, rng) := Rng.next rng in
  let trunkHeight := 4 + Rng.floorMul u 3 in
  let leafRadius := 2 in
  let chunk := placeTrunk chunk lx y lz trunkHeight WOOD_OAK in
  let leafCenterY := y + trunkHeight - 1 in
  (placeLeafSphere chunk lx leafCenterY lz leafRadius LEAVES_OAK, rng).

Definition placeBirchTree (chunk : Chunk) (lx y lz : Z) (rng : Rng.t) : Chunk * Rng.t :=
  let '(u, rng) := Rng.next rng in
  let trunkHeight := 5 + Rng.floorMul u 3 in
  let leafRadius := 2 in
  let chunk := placeTrunk chunk lx y lz trunkHeight WOOD_BIRCH in
  let leafCenterY := y + trunkHeight - 1 in
  (placeLeafSphere chunk lx leafCenterY lz leafRadius LEAVES_BIRCH, rng).

(** [Math.max(Math.round((1 - layerIndex / Math.max(totalLeafLayers - 1, 1)) * 3), 0)]
    with [totalLeafLayers = trunkHeight - 1].  The expression is evaluated
    in double precision; for the trunk heights the generator draws (6 to
    9) its values are tabulated, layer by layer from the bottom.  (At
    height 8, layer 5, the double product is 0.4999999999999999 and
    rounds to 0.)  Outside the table the exact quotient is rounded half
    up. *)
Definition spruceRadius (trunkHeight layerIndex : Z) : Z :=
  let table :=
    match trunkHeight with
    | 6 => [3; 2; 2; 1; 0]
    | 7 => [3; 2; 2; 1; 1; 0]
    | 8 => [3; 3; 2; 2; 1; 0; 0]
    | 9 => [3; 3; 2; 2; 1; 1; 0; 0]
    | _ => []
    end in
  match table !! Z.to_nat layerIndex with
  | Some r => r
  | None =>
      let n := Z.max (trunkHeight - 2) 1 in
      Z.max ((6 * (n - layerIndex) + n) / (2 * n)) 0
  end.

Definition placeSpruceTree (chunk : Chunk) (lx y lz : Z) (rng : Rng.t) : Chunk * Rng.t :=
  let '(u, rng) := Rng.next rng in
  let trunkHeight := 6 + Rng.floorMul u 4 in
  let leafStartOffset := 2 in
  let chunk := placeTrunk chunk lx y lz trunkHeight WOOD_SPRUCE in
  let leafBottomY := y + leafStartOffset in
  let leafTopY := y + trunkHeight in
  let chunk :=
    Loop.for_range leafBottomY (leafTopY + 1) (fun ly chunk =>
      let layerIndex := ly - leafBottomY in
      let radius := spruceRadius trunkHeight layerIndex in
      Loop.for_range (- radius) (radius + 1) (fun dx chunk =>
        Loop.for_range (- radius) (radius + 1) (fun dz chunk =>
          if (Z.abs dx =? radius) && (Z.abs dz =? radius) && (1 <? radius) then chunk
          else if (dx =? 0) && (dz =? 0) && (ly <? y + trunkHeight) then chunk
          else setIfInBounds chunk (lx + dx) ly (lz + dz) LEAVES_SPRUCE) chunk) chunk)
      chunk in
  (setIfInBounds chunk lx (leafTopY + 1) lz LEAVES_SPRUCE, rng).

Definition placeJungleTree (chunk : Chunk) (lx y lz : Z) (rng : Rng.t) : Chunk * Rng.t :=
  let '(u, rng) := Rng.next rng in
  let trunkHeight := 8 + Rng.floorMul u 7 in
  let leafRadius := 3 in
  let chunk := placeTrunk chunk lx y lz trunkHeight WOOD_JUNGLE in
  let leafCenterY := y + trunkHeight - 1 in
  (placeLeafSphere chunk lx leafCenterY lz leafRadius LEAVES_JUNGLE, rng).

Definition generateTree (chunk : Chunk) (localX y localZ : Z) (treeType : TreeType.t)
    (rng : Rng.t) : Chunk * Rng.t :=
  match treeType with
  | TreeType.OAK => placeOakTree chunk localX y localZ rng
  | TreeType.BIRCH => placeBirchTree chunk localX y localZ rng
  | TreeType.SPRUCE => placeSpruceTree chunk localX y localZ rng
  | TreeType.JUNGLE => placeJungleTree chunk localX y localZ rng
  end.

End TreeGenerator.

(** ** Mineshafts ([MineshaftGenerator]) *)

Module MineshaftGenerator.

Definition DIRS : list (Z * Z) := [(1, 0); (-1, 0); (0, 1); (0, -1)].

(** [arr[i]] of a direction array; the indices the generator computes lie
    inside the array. *)
Definition dirAt (arr : list (Z * Z)) (i : Z) : Z * Z :=
  default (0, 0) (arr !! Z.to_nat i).

Definition inBounds (x z : Z) : bool :=
  (0 <=? x) && (x <? CHUNK_SIZE) && (0 <=? z) && (z <? CHUNK_SIZE).

Definition placeTorch (chunk : Chunk) (x y z : Z) : Chunk :=
  if inBounds x z && (1 <=? y) && (y <? 255) then setBlock chunk x y z TORCH
  else chunk.

Definition isStone (chunk : Chunk) (x y z : Z) : bool :=
  if negb (inBounds x z) || (y <? 0) || (256 <=? y) then false
  else block_eqb (getBlock chunk x y z) STONE.

Definition isStoneOrAir (chunk : Chunk) (x y z : Z) : bool :=
  if negb (inBounds x z) || (y <? 0) || (256 <=? y) then false
  else
    let b := getBlock chunk x y z in
    block_eqb b STONE || block_eqb b AIR.

(** The guarded write of the carving loops: rows [y < 1] and [y >= 255]
    and cells holding bedrock or water are skipped. *)
Definition carveCell (chunk : Chunk) (x y z : Z) : Chunk :=
  if (y <? 1) || (255 <=? y) then chunk
  else
    let existing := getBlock chunk x y z in
    if block_eqb existing BEDROCK || block_eqb existing WATER then chunk
    else setBlock chunk x y z AIR.

Definition carveRoom (chunk : Chunk) (sx sy sz w h d : Z) : Chunk :=
  Loop.for_range sx (sx + w) (fun x chunk =>
    Loop.for_range sz (sz + d) (fun z chunk =>
      if negb (inBounds x z) then chunk
      else
        Loop.for_range 0 h (fun dy chunk =>
          carveCell chunk x (sy + dy) z) chunk) chunk) chunk.

Definition placeSupport (chunk : Chunk) (cx sy cz px pz : Z) : Chunk :=
  let lx := cx - px in
  let lz := cz - pz in
  let chunk :=
    if inBounds lx lz then
      Loop.for_range 0 3 (fun dy chunk => setBlock chunk lx (sy + dy) lz WOOD_OAK) chunk
    else chunk in
  let rx := cx + px in
  let rz := cz + pz in
  let chunk :=
    if inBounds rx rz then
      Loop.for_range 0 3 (fun dy chunk => setBlock chunk rx (sy + dy) rz WOOD_OAK) chunk
    else chunk in
  Loop.for_range (-1) 2 (fun w chunk =>
    let bx := cx + px * w in
    let bz := cz + pz * w in
    if inBounds bx bz then setBlock chunk bx (sy + 2) bz PLANKS_OAK else chunk) chunk.

(** [carveCorridor]; its [rng] parameter is never called in the body. *)
Definition carveCorridor (chunk : Chunk) (sx sy sz dx dz length : Z) : Chunk :=
  let px := if dz =? 0 then 0 else 1 in
  let pz := if dx =? 0 then 0 else 1 in
  Loop.for_break 0 length (fun step chunk =>
    let cx := sx + dx * step in
    let cz := sz + dz * step in
    if negb (inBounds (cx - px) (cz - pz)) || negb (inBounds (cx + px) (cz + pz))
    then None
    else
      let chunk :=
        Loop.for_range (-1) 2 (fun w chunk =>
          let bx := cx + px * w in
          let bz := cz + pz * w in
          Loop.for_range 0 3 (fun dy chunk =>
            carveCell chunk bx (sy + dy) bz) chunk) chunk in
      let chunk :=
        if isStoneOrAir chunk cx (sy - 1) cz
        then setBlock chunk cx (sy - 1) cz PLANKS_OAK
        else chunk in
      let chunk :=
        if Z.rem step 4 =? 0 then placeSupport chunk cx sy cz px pz else chunk in
      let chunk :=
        if (Z.rem step 8 =? 4) && (0 <? step) then
          let torchX := cx + px in
          let torchZ := cz + pz in
          placeTorch chunk torchX (sy + 1) torchZ
        else chunk in
      Some chunk) chunk.

(** [[arr[i], arr[j]] = [arr[j], arr[i]]]. *)
Definition swap (arr : list (Z * Z)) (i j : Z) : list (Z * Z) :=
  let ai := dirAt arr i in
  let aj := dirAt arr j in
  <[ Z.to_nat j := ai ]> (<[ Z.to_nat i := aj ]> arr).

(** [for (let i = arr.length - 1; i > 0; i--)] over the four directions. *)
Definition shuffleDirs (rng : Rng.t) : list (Z * Z) * Rng.t :=
  fold_left (fun '(arr, rng) i =>
      let '(u, rng) := Rng.next rng in
      let j := Rng.floorMul u (i + 1) in
      (swap arr i j, rng))
    [3; 2; 1] (DIRS, rng).

Definition buildNetwork (chunk : Chunk) (rng : Rng.t) (startX baseY startZ : Z)
    : Chunk * Rng.t :=
  let chunk := carveRoom chunk (startX - 1) baseY (startZ - 1) 3 3 3 in
  let chunk := placeTorch chunk startX (baseY + 2) startZ in
  let '(u, rng) := Rng.next rng in
  let branchCount := 3 + Rng.floorMul u 3 in
  let '(shuffledDirs, rng) := shuffleDirs rng in
  Loop.for_range 0 (Z.min branchCount (Z.of_nat (length shuffledDirs)))
    (fun b '(chunk, rng) =>
      let '(dx, dz) := dirAt shuffledDirs (Z.rem b (Z.of_nat (length shuffledDirs))) in
      let '(u, rng) := Rng.next rng in
      let length := 8 + Rng.floorMul u 16 in
      let chunk := carveCorridor chunk startX baseY startZ dx dz length in
      let '(u, rng) := Rng.next rng in
      if Rng.lt u 4 10 then
        let endX := startX + dx * length in
        let endZ := startZ + dz * length in
        if inBounds endX endZ then
          let '(u, rng) := Rng.next rng in
          let turnDir :=
            if dz =? 0 then dirAt DIRS (2 + Rng.floorMul u 2)
            else dirAt DIRS (Rng.floorMul u 2) in
          let '(u, rng) := Rng.next rng in
          let subLen := 6 + Rng.floorMul u 10 in
          (carveCorridor chunk endX baseY endZ turnDir.1 turnDir.2 subLen, rng)
        else (chunk, rng)
      else (chunk, rng))
    (chunk, rng).

(** [let h = this.seed + 0x4d696e65; ...].  The products [worldX * k] are
    taken as exact: they are below [2^53] for every block coordinate
    within ten million blocks of the origin. *)
Definition chunkRng (seed worldX worldZ : Z) : Rng.t :=
  let h := seed + 0x4d696e65 in
  let h := Rng.toInt32 (Rng.xor32 h (worldX * 492876847)) in
  let h := Rng.toInt32 (Rng.xor32 h (worldZ * 715225739)) in
  let h := Rng.toInt32 (Rng.imul (Rng.xor32 h (Rng.ushr h 13)) 1597334677 + 0xc3a5c85c) in
  Rng.mulberry32 h.

Definition generate (seed : Z) (chunk : Chunk) (worldX worldZ : Z) : Chunk :=
  let rng := chunkRng seed worldX worldZ in
  let '(u, rng) := Rng.next rng in
  if Rng.gt u 3 100 then chunk
  else
    let '(u, rng) := Rng.next rng in
    let baseY := 12 + Rng.floorMul u 30 in
    let '(u, rng) := Rng.next rng in
    let startX := 2 + Rng.floorMul u (CHUNK_SIZE - 4) in
    let '(u, rng) := Rng.next rng in
    let startZ := 2 + Rng.floorMul u (CHUNK_SIZE - 4) in
    if negb (isStone chunk startX baseY startZ) then chunk
    else (buildNetwork chunk rng startX baseY startZ).1.

End MineshaftGenerator.

(** ** Structures and decorations ([StructureGenerator]) *)

Module StructureGenerator.

(** The scan of [isFlatArea] over the cells of the area, in the order of
    its two loops.  [minH] and [maxH] start at [Infinity] and [-Infinity]:
    the accumulator is [None] until the first height is read, and then
    holds [(minH, maxH)].  The outer [None] is the early [return false]. *)
Fixpoint scanArea (heightmap : Heightmap) (cells : list (Z * Z))
    (acc : option (Z * Z)) : option (option (Z * Z)) :=
  match cells with
  | [] => Some acc
  | (x, z) :: rest =>
      if (x <? 0) || (CHUNK_SIZE <=? x) || (z <? 0) || (CHUNK_SIZE <=? z) then None
      else
        let h := hmGet heightmap x z in
        let acc' :=
          match acc with
          | None => (h, h)
          | Some (minH, maxH) =>
              (if h <? minH then h else minH, if maxH <? h then h else maxH)
          end in
        scanArea heightmap rest (Some acc')
  end.

(** The cells [for x in [startX, startX + width) for z in [startZ, startZ + depth)]. *)
Definition areaCells (startX startZ width depth : Z) : list (Z * Z) :=
  x ← seqZ startX width; z ← seqZ startZ depth; [(x, z)].

Definition isFlatArea (heightmap : Heightmap) (startX startZ width depth maxVariation : Z)
    : bool :=
  match scanArea heightmap (areaCells startX startZ width depth) None with
  | None => false
  | Some None => true
  | Some (Some (minH, maxH)) => maxH - minH <=? maxVariation
  end.

Definition tryPlaceDesertWell (chunk : Chunk) (heightmap : Heightmap) (rng : Rng.t)
    : Chunk * bool * Rng.t :=
  let W := 5 in
  let '(u, rng) := Rng.next rng in
  let sx := 3 + Rng.floorMul u (CHUNK_SIZE - W - 6) in
  let '(u, rng) := Rng.next rng in
  let sz := 3 + Rng.floorMul u (CHUNK_SIZE - W - 6) in
  if negb (isFlatArea heightmap sx sz W W 1) then (chunk, false, rng)
  else
    let baseY := hmGet heightmap (sx + 2) (sz + 2) in
    let chunk :=
      Loop.for_range (sx + 1) (sx + 4) (fun x chunk =>
        Loop.for_range (sz + 1) (sz + 4) (fun z chunk =>
          let chunk := setBlock chunk x (baseY - 1) z SAND_STONE in
          setBlock chunk x baseY z WATER) chunk) chunk in
    let chunk :=
      Loop.for_range sx (sx + W) (fun x chunk =>
        Loop.for_range sz (sz + W) (fun z chunk =>
          let inner := (sx <? x) && (x <? sx + W - 1) && (sz <? z) && (z <? sz + W - 1) in
          if negb inner then setBlock chunk x baseY z SAND_STONE else chunk) chunk) chunk in
    let chunk :=
      Loop.for_range sx (sx + W) (fun x chunk =>
        Loop.for_range sz (sz + W) (fun z chunk =>
          let inner := (sx <? x) && (x <? sx + W - 1) && (sz <? z) && (z <? sz + W - 1) in
          let chunk :=
            if negb inner then setBlock chunk x (baseY + 1) z SAND_STONE else chunk in
          setBlock chunk x (baseY + 2) z AIR) chunk) chunk in
    (chunk, true, rng).

Definition tryPlaceCabin (chunk : Chunk) (heightmap : Heightmap) (rng : Rng.t)
    : Chunk * bool * Rng.t :=
  let W := 7 in
  let D := 5 in
  let '(u, rng) := Rng.next rng in
  let sx := 2 + Rng.floorMul u (CHUNK_SIZE - W - 4) in
  let '(u, rng) := Rng.next rng in
  let sz := 2 + Rng.floorMul u (CHUNK_SIZE - D - 4) in
  if negb (isFlatArea heightmap sx sz W D 2) then (chunk, false, rng)
  else
    let baseY := hmGet heightmap (sx + 3) (sz + 2) in
    let chunk :=
      Loop.for_range sx (sx + W) (fun x chunk =>
        Loop.for_range sz (sz + D) (fun z chunk =>
          setBlock chunk x baseY z COBBLESTONE) chunk) chunk in
    let chunk :=
      Loop.for_range 1 4 (fun dy chunk =>
        let y := baseY + dy in
        Loop.for_range sx (sx + W) (fun x chunk =>
          Loop.for_range sz (sz + D) (fun z chunk =>
            let onEdge :=
              (x =? sx) || (x =? sx + W - 1) || (z =? sz) || (z =? sz + D - 1) in
            let isCorner :=
              ((x =? sx) || (x =? sx + W - 1)) && ((z =? sz) || (z =? sz + D - 1)) in
            if isCorner then setBlock chunk x y z WOOD_OAK
            else if onEdge then
              let isDoor := (z =? sz + D - 1) && (x =? sx + 3) && (dy <=? 2) in
              let isWindow :=
                (dy =? 2) && ((x =? sx) || (x =? sx + W - 1))
                && (sz <? z) && (z <? sz + D - 1) in
              if isDoor then setBlock chunk x y z AIR
              else if isWindow then setBlock chunk x y z GLASS
              else setBlock chunk x y z PLANKS_OAK
            else setBlock chunk x y z AIR) chunk) chunk) chunk in
    let chunk :=
      Loop.for_range sx (sx + W) (fun x chunk =>
        Loop.for_range sz (sz + D) (fun z chunk =>
          setBlock chunk x (baseY + 4) z PLANKS_OAK) chunk) chunk in
    let chunk :=
      Loop.for_range sx (sx + W) (fun x chunk =>
        Loop.for_range sz (sz + D) (fun z chunk =>
          setBlock chunk x (baseY + 5) z AIR) chunk) chunk in
    let chunk := setBlock chunk (sx + 3) (baseY + 2) (sz + 1) TORCH in
    let chunk := setBlock chunk (sx + 1) (baseY + 1) (sz + 1) CRAFTING_TABLE in
    let chunk := setBlock chunk (sx + 2) (baseY + 1) (sz + 1) FURNACE in
    (chunk, true, rng).

Definition buildDungeon (chunk : Chunk) (sx sy sz W H : Z) : Chunk :=
  let chunk :=
    Loop.for_range sx (sx + W) (fun x chunk =>
      Loop.for_range sz (sz + W) (fun z chunk =>
        Loop.for_range 0 H (fun dy chunk =>
          let y := sy + dy in
          if CHUNK_HEIGHT <=? y then chunk
          else
            let isFloor := dy =? 0 in
            let isCeiling := dy =? H - 1 in
            let isWall :=
              (x =? sx) || (x =? sx + W - 1) || (z =? sz) || (z =? sz + W - 1) in
            if isFloor || isCeiling || isWall then setBlock chunk x y z COBBLESTONE
            else setBlock chunk x y z AIR) chunk) chunk) chunk in
  let midX := sx + W / 2 in
  let midZ := sz + W / 2 in
  let torchY := sy + 2 in
  let chunk := setBlock chunk midX torchY (sz + 1) TORCH in
  let chunk := setBlock chunk midX torchY (sz + W - 2) TORCH in
  let chunk := setBlock chunk (sx + 1) torchY midZ TORCH in
  setBlock chunk (sx + W - 2) torchY midZ TORCH.

(** The loop of [tryPlaceDungeon] with [attempts] iterations left. *)
Fixpoint tryPlaceDungeonFrom (attempts : nat) (chunk : Chunk) (rng : Rng.t)
    : Chunk * bool * Rng.t :=
  let W := 7 in
  let H := 5 in
  match attempts with
  | O => (chunk, false, rng)
  | S attempts' =>
      let '(u, rng) := Rng.next rng in
      let sx := 2 + Rng.floorMul u (CHUNK_SIZE - W - 2) in
      let '(u, rng) := Rng.next rng in
      let sz := 2 + Rng.floorMul u (CHUNK_SIZE - W - 2) in
      let '(u, rng) := Rng.next rng in
      let sy := 12 + Rng.floorMul u 28 in
      if negb (block_eqb (getBlock chunk (sx + 3) (sy + 2) (sz + 3)) STONE)
      then tryPlaceDungeonFrom attempts' chunk rng
      else if negb (block_eqb (getBlock chunk (sx + 3) (sy + H) (sz + 3)) STONE)
      then tryPlaceDungeonFrom attempts' chunk rng
      else (buildDungeon chunk sx sy sz W H, true, rng)
  end.

Definition tryPlaceDungeon (chunk : Chunk) (rng : Rng.t) : Chunk * bool * Rng.t :=
  tryPlaceDungeonFrom 5 chunk rng.

Definition chunkRng (seed worldX worldZ : Z) : Rng.t :=
  let h := seed in
  let h := Rng.toInt32 (Rng.xor32 h (worldX * 374761393)) in
  let h := Rng.toInt32 (Rng.xor32 h (worldZ * 668265263)) in
  let h := Rng.toInt32 (Rng.imul (Rng.xor32 h (Rng.ushr h 13)) 1274126177 + 0xa5b3c2d1) in
  Rng.mulberry32 h.

Definition structureRng (seed worldX worldZ : Z) : Rng.t :=
  let h := seed + 0x7f3a9c1d in
  let h := Rng.toInt32 (Rng.xor32 h (worldX * 597399067)) in
  let h := Rng.toInt32 (Rng.xor32 h (worldZ * 824521439)) in
  let h := Rng.toInt32 (Rng.imul (Rng.xor32 h (Rng.ushr h 13)) 1946318589 + 0xb7e15163) in
  Rng.mulberry32 h.

(** [placeStructures].  The decoration generator [rng] is a parameter of
    the method and is handed back as the call leaves it; every roll of
    the body is drawn from [structRng]. *)
Definition placeStructures (seed : Z) (chunk : Chunk) (heightmap : Heightmap)
    (biomeMap : BiomeMap.t) (worldX worldZ : Z) (rng : Rng.t) : Chunk * Rng.t :=
  let structRng := structureRng seed worldX worldZ in
  let centerBiome := BiomeMap.getBiome biomeMap (worldX + 8) (worldZ + 8) in
  (* desert well *)
  let '(chunk, placed, structRng) :=
    if biome_eqb centerBiome DESERT then
      let '(u, structRng) := Rng.next structRng in
      if Rng.lt u 3 100 then tryPlaceDesertWell chunk heightmap structRng
      else (chunk, false, structRng)
    else (chunk, false, structRng) in
  if placed then (chunk, rng)
  else
    (* cabin *)
    let '(chunk, placed, structRng) :=
      if biome_eqb centerBiome PLAINS || biome_eqb centerBiome FOREST then
        let '(u, structRng) := Rng.next structRng in
        if Rng.lt u 2 100 then tryPlaceCabin chunk heightmap structRng
        else (chunk, false, structRng)
      else (chunk, false, structRng) in
    if placed then (chunk, rng)
    else
      (* underground dungeon *)
      let '(u, structRng) := Rng.next structRng in
      if Rng.lt u 5 100 then ((tryPlaceDungeon chunk structRng).1.1, rng)
      else (chunk, rng).

Definition decoratePlains (chunk : Chunk) (lx y lz : Z) (rng : Rng.t) : Chunk * Rng.t :=
  let '(roll, rng) := Rng.next rng in
  if Rng.lt roll 30 100 then (setBlock chunk lx y lz TALL_GRASS, rng)
  else if Rng.lt roll 33 100 then
    let '(u, rng) := Rng.next rng in
    (setBlock chunk lx y lz (if Rng.lt u 5 10 then FLOWER_RED else FLOWER_YELLOW), rng)
  else (chunk, rng).

Definition decorateForest (chunk : Chunk) (lx y lz : Z) (rng : Rng.t) : Chunk * Rng.t :=
  let '(roll, rng) := Rng.next rng in
  if Rng.lt roll 35 100 then (setBlock chunk lx y lz TALL_GRASS, rng)
  else if Rng.lt roll 43 100 then
    let '(u, rng) := Rng.next rng in
    (setBlock chunk lx y lz (if Rng.lt u 5 10 then FLOWER_RED else FLOWER_YELLOW), rng)
  else (chunk, rng).

Definition hasClearNeighbours (chunk : Chunk) (lx y lz : Z) : bool :=
  let neighbours := [(lx - 1, lz); (lx + 1, lz); (lx, lz - 1); (lx, lz + 1)] in
  forallb (fun '(nx, nz) =>
      if (nx <? 0) || (CHUNK_SIZE <=? nx) || (nz <? 0) || (CHUNK_SIZE <=? nz) then true
      else block_eqb (getBlock chunk nx y nz) AIR)
    neighbours.

Definition decorateDesert (chunk : Chunk) (lx y lz : Z) (rng : Rng.t) : Chunk * Rng.t :=
  let '(u, rng) := Rng.next rng in
  if Rng.ge u 2 100 then (chunk, rng)
  else if negb (hasClearNeighbours chunk lx y lz) then (chunk, rng)
  else
    let '(u, rng) := Rng.next rng in
    let height := 2 + Rng.floorMul u 2 in
    (Loop.for_break 0 height (fun dy chunk =>
       if 256 <=? y + dy then None
       else Some (setBlock chunk lx (y + dy) lz CACTUS)) chunk, rng).

Definition decorateTaiga (chunk : Chunk) (lx y lz : Z) (rng : Rng.t) : Chunk * Rng.t :=
  let '(u, rng) := Rng.next rng in
  if Rng.lt u 15 100 then (setBlock chunk lx y lz TALL_GRASS, rng)
  else (chunk, rng).

Definition decorateJungle (chunk : Chunk) (lx y lz : Z) (rng : Rng.t) : Chunk * Rng.t :=
  let '(roll, rng) := Rng.next rng in
  if Rng.lt roll 40 100 then (setBlock chunk lx y lz TALL_GRASS, rng)
  else if Rng.lt roll 50 100 then
    let '(u, rng) := Rng.next rng in
    (setBlock chunk lx y lz (if Rng.lt u 6 10 then FLOWER_RED else FLOWER_YELLOW), rng)
  else (chunk, rng).

Definition decorateSwamp (chunk : Chunk) (lx y lz : Z) (rng : Rng.t) : Chunk * Rng.t :=
  let '(roll, rng) := Rng.next rng in
  if Rng.lt roll 25 100 then (setBlock chunk lx y lz TALL_GRASS, rng)
  else if Rng.lt roll 28 100 then (setBlock chunk lx y lz FLOWER_RED, rng)
  else (chunk, rng).

Definition decorateTundra (chunk : Chunk) (lx y lz : Z) (rng : Rng.t) : Chunk * Rng.t :=
  let '(u, rng) := Rng.next rng in
  if Rng.lt u 2 100 then (setBlock chunk lx y lz FLOWER_YELLOW, rng)
  else (chunk, rng).

(** The body of the phase-2 loops of [generate] for the column [(lx, lz)]. *)
Definition decorateColumn (heightmap : Heightmap) (biomeMap : BiomeMap.t)
    (worldX worldZ lx lz : Z) (chunk : Chunk) (rng : Rng.t) : Chunk * Rng.t :=
  let wx := worldX + lx in
  let wz := worldZ + lz in
  let surfaceY := hmGet heightmap lx lz in
  let biome := BiomeMap.getBiome biomeMap wx wz in
  let placeY := surfaceY + 1 in
  if 256 <=? placeY then (chunk, rng)
  else if negb (block_eqb (getBlock chunk lx placeY lz) AIR) then (chunk, rng)
  else
    match biome with
    | PLAINS => decoratePlains chunk lx placeY lz rng
    | FOREST => decorateForest chunk lx placeY lz rng
    | DESERT => decorateDesert chunk lx placeY lz rng
    | TAIGA => decorateTaiga chunk lx placeY lz rng
    | TUNDRA => decorateTundra chunk lx placeY lz rng
    | JUNGLE => decorateJungle chunk lx placeY lz rng
    | SWAMP => decorateSwamp chunk lx placeY lz rng
    | _ => (chunk, rng)
    end.

(** Phase 2 of [generate]: the two loops over the columns. *)
Definition decorateColumns (chunk : Chunk) (heightmap : Heightmap)
    (biomeMap : BiomeMap.t) (worldX worldZ : Z) (rng : Rng.t) : Chunk * Rng.t :=
  Loop.for_range 0 CHUNK_SIZE (fun lx st =>
    Loop.for_range 0 CHUNK_SIZE (fun lz '(chunk, rng) =>
      decorateColumn heightmap biomeMap worldX worldZ lx lz chunk rng) st)
    (chunk, rng).

Definition generate (seed : Z) (chunk : Chunk) (heightmap : Heightmap)
    (biomeMap : BiomeMap.t) (worldX worldZ : Z) : Chunk :=
  let rng := chunkRng seed worldX worldZ in
  let '(chunk, rng) := placeStructures seed chunk heightmap biomeMap worldX worldZ rng in
  (decorateColumns chunk heightmap biomeMap worldX worldZ rng).1.

End StructureGenerator.

(** ** The pipeline ([TerrainGenerator]) *)

Module TerrainGenerator.

(** A [TerrainGenerator] object.  The noise library and the cave and ore
    generators are not among the sources; what the pipeline takes from
    them are fields of the object. *)
Record t := mk {
  seed : Z;
  biomeMap : BiomeMap.t;
  (** [isMountainRegion(wx, wz)]: a comparison of sampled noise. *)
  isMountainRegion : Z -> Z -> bool;
  (** The [Math.floor(...)] of [buildTerrain]: the surface height the
      octave noise gives the column [(wx, wz)] in a biome, before it is
      clamped. *)
  sampleSurfaceHeight : Biome -> Z -> Z -> Z;
  (** Modelled from the spec: [caveGenerator.carve(chunk, worldX, worldZ)]
      and [oreGenerator.generate(chunk, worldX, worldZ)]; each pass is a
      function of the seed, the chunk coordinates and the block grid. *)
  caveCarve : Chunk -> Z -> Z -> Chunk;
  oreGenerate : Chunk -> Z -> Z -> Chunk;
}.

Definition getSurfaceBlock (biome : Biome) : BlockType :=
  match biome with
  | PLAINS | FOREST => GRASS
  | DESERT => SAND
  | TAIGA => GRASS
  | MOUNTAINS => STONE
  | OCEAN => SAND
  | BEACH => SAND
  | TUNDRA => SNOW
  | JUNGLE => GRASS
  | SWAMP => GRASS
  end.

Definition getSubSurfaceBlock (biome : Biome) : BlockType :=
  match biome with
  | DESERT | BEACH => SAND
  | OCEAN => SAND
  | MOUNTAINS => STONE
  | TUNDRA => DIRT
  | JUNGLE => DIRT
  | SWAMP => DIRT
  | _ => DIRT
  end.

Section SeaLevel.

(** [SEA_LEVEL] of [utils/Constants], which is not among the sources. *)
Variable SEA_LEVEL : Z.

(** The block [fillColumn] writes at height [y]. *)
Definition columnBlock (surfaceHeight : Z) (biome : Biome) (y : Z) : BlockType :=
  if y =? 0 then BEDROCK
  else if y <? surfaceHeight - 4 then STONE
  else if y <? surfaceHeight then getSubSurfaceBlock biome
  else if y =? surfaceHeight then getSurfaceBlock biome
  else if (y <=? SEA_LEVEL) && biome_eqb biome OCEAN then WATER
  else if (y <=? SEA_LEVEL) && (surfaceHeight <? SEA_LEVEL) then WATER
  else AIR.

Definition fillColumn (chunk : Chunk) (lx lz surfaceHeight : Z) (biome : Biome) : Chunk :=
  Loop.for_range 0 CHUNK_HEIGHT (fun y chunk =>
    setBlock chunk lx y lz (columnBlock surfaceHeight biome y)) chunk.

(** The biome of a column with the mountain override applied. *)
Definition effectiveBiome (g : t) (wx wz : Z) : Biome :=
  let biome := BiomeMap.getBiome (biomeMap g) wx wz in
  if negb (biome_eqb biome OCEAN) && negb (biome_eqb biome BEACH)
     && isMountainRegion g wx wz
  then MOUNTAINS else biome.

Definition buildTerrain (g : t) (chunk : Chunk) (worldX worldZ : Z) : Chunk * Heightmap :=
  Loop.for_range 0 CHUNK_SIZE (fun lx '(chunk, heightmap) =>
    let '(chunk, row) :=
      Loop.for_range 0 CHUNK_SIZE (fun lz '(chunk, row) =>
        let wx := worldX + lx in
        let wz := worldZ + lz in
        let biome := effectiveBiome g wx wz in
        let surfaceHeight := sampleSurfaceHeight g biome wx wz in
        let clampedHeight := Z.max 1 (Z.min surfaceHeight (CHUNK_HEIGHT - 1)) in
        (fillColumn chunk lx lz clampedHeight biome, row ++ [clampedHeight]))
        (chunk, []) in
    (chunk, heightmap ++ [row]))
    (chunk, []).

Definition shouldPlaceTree (biome : Biome) (rng : Rng.t) : option TreeType.t * Rng.t :=
  let '(roll, rng) := Rng.next rng in
  match biome with
  | FOREST =>
      if Rng.lt roll 8 100 then
        let '(u, rng) := Rng.next rng in
        (Some (if Rng.lt u 7 10 then TreeType.OAK else TreeType.BIRCH), rng)
      else (None, rng)
  | PLAINS => (if Rng.lt roll 1 100 then Some TreeType.OAK else None, rng)
  | TAIGA => (if Rng.lt roll 6 100 then Some TreeType.SPRUCE else None, rng)
  | MOUNTAINS => (if Rng.lt roll 2 100 then Some TreeType.SPRUCE else None, rng)
  | TUNDRA => (if Rng.lt roll 5 1000 then Some TreeType.SPRUCE else None, rng)
  | JUNGLE => (if Rng.lt roll 10 100 then Some TreeType.JUNGLE else None, rng)
  | SWAMP => (if Rng.lt roll 3 100 then Some TreeType.OAK else None, rng)
  | _ => (None, rng)
  end.

Definition chunkRng (g : t) (worldX worldZ : Z) : Rng.t :=
  let h := seed g in
  let h := Rng.toInt32 (Rng.xor32 h (worldX * 374761393)) in
  let h := Rng.toInt32 (Rng.xor32 h (worldZ * 668265263)) in
  let h := Rng.toInt32 (Rng.imul (Rng.xor32 h (Rng.ushr h 13)) 1274126177) in
  Rng.mulberry32 h.

Definition placeTrees (g : t) (chunk : Chunk) (heightmap : Heightmap)
    (worldX worldZ : Z) : Chunk :=
  let rng := chunkRng g worldX worldZ in
  (Loop.for_range 0 CHUNK_SIZE (fun lx st =>
     Loop.for_range 0 CHUNK_SIZE (fun lz '(chunk, rng) =>
       let wx := worldX + lx in
       let wz := worldZ + lz in
       let biome := effectiveBiome g wx wz in
       let surfaceY := hmGet heightmap lx lz in
       if (surfaceY <? SEA_LEVEL) && biome_eqb biome OCEAN then (chunk, rng)
       else
         let '(treeInfo, rng) := shouldPlaceTree biome rng in
         match treeInfo with
         | None => (chunk, rng)
         | Some treeInfo =>
             let surfaceBlock := getBlock chunk lx surfaceY lz in
             if negb (block_eqb surfaceBlock GRASS) && negb (block_eqb surfaceBlock DIRT)
                && negb (block_eqb surfaceBlock SNOW)
             then (chunk, rng)
             else TreeGenerator.generateTree chunk lx (surfaceY + 1) lz treeInfo rng
         end) st)
     (chunk, rng)).1.

Definition generateChunk (g : t) (chunk : Chunk) : Chunk :=
  let worldX := Chunk.cx chunk * CHUNK_SIZE in
  let worldZ := Chunk.cz chunk * CHUNK_SIZE in
  let '(chunk, heightmap) := buildTerrain g chunk worldX worldZ in
  let chunk := caveCarve g chunk worldX worldZ in
  let chunk := oreGenerate g chunk worldX worldZ in
  let chunk := MineshaftGenerator.generate (seed g) chunk worldX worldZ in
  let chunk := placeTrees g chunk heightmap worldX worldZ in
  StructureGenerator.generate (seed g) chunk heightmap (biomeMap g) worldX worldZ.

End SeaLevel.

End TerrainGenerator.

(** ** Texture atlas ([TextureAtlas]) *)

Module TextureAtlas.

(** The state of the module: the map [TEXTURE_MAP] and the counter
    [nextIndex]. *)
Record State := mk {
  TEXTURE_MAP : gmap string Z;
  nextIndex : Z;
}.

Definition initial : State := mk ∅ 0.

Definition registerTexture (s : State) (name : string) : Z * State :=
  let idx := nextIndex s in
  (idx, mk (<[ name := idx ]> (TEXTURE_MAP s)) (idx + 1)).

(** The names of the module's [registerTexture] calls, in their order. *)
Definition textureNames : list string :=
  [ "dirt"; "grass_top"; "grass_side"; "stone"; "sand"; "water";
    "oak_log_side"; "oak_log_top"; "oak_leaves";
    "birch_log_side"; "birch_log_top"; "birch_leaves";
    "spruce_log_side"; "spruce_log_top"; "spruce_leaves";
    "coal_ore"; "iron_ore"; "gold_ore"; "diamond_ore";
    "bedrock"; "gravel"; "cobblestone"; "oak_planks";
    "crafting_table_top"; "crafting_table_side";
    "furnace_front"; "furnace_side"; "furnace_top";
    "glass"; "torch"; "snow"; "ice";
    "sandstone_side"; "sandstone_top"; "sandstone_bottom";
    "cactus_side"; "cactus_top"; "cactus_bottom";
    "flower_red"; "flower_yellow"; "tall_grass";
    "jungle_log_side"; "jungle_log_top"; "jungle_leaves";
    "air"; "missing" ]%string.

(** The state after a sequence of [registerTexture] calls. *)
Definition registerAll (names : list string) (s : State) : State :=
  fold_left (fun s name => (registerTexture s name).2) names s.

(** The state the module is left in when it is loaded. *)
Definition atlas : State := registerAll textureNames initial.

(** [getTextureIndex].  [TEXTURE_MAP.get('missing')!] is [undefined] when
    no texture of that name is registered: the [!] only silences the type
    checker. *)
Definition getTextureIndex (s : State) (name : string) : option Z :=
  match TEXTURE_MAP s !! name with
  | Some idx => Some idx
  | None => TEXTURE_MAP s !! "missing"%string
  end.

End TextureAtlas.

(** ** Weather ([WeatherSystem]) *)

Module WeatherSystem.

Inductive WeatherState : Set := CLEAR | RAIN | SNOW.

(** [choosePrecipitation(wx, wz)].  The field [biomeMap] is [null] until
    [init] is called; after that [getBiome] samples the two noise fields
    at the position, and the argument is that sample
    [(temperature, moisture)]. *)
Definition choosePrecipitation (sampled : option (Q * Q)) : WeatherState :=
  match sampled with
  | None => RAIN
  | Some (temp, moist) =>
      match BiomeMap.biomeOf temp moist with
      | DESERT => CLEAR
      | TUNDRA | TAIGA => SNOW
      | OCEAN | BEACH | PLAINS | FOREST | JUNGLE | SWAMP | MOUNTAINS => RAIN
      end
  end.

End WeatherSystem.


(** * Properties *)


(** ** Chunks *)

(** Case analysis on the integer comparisons of a goal. *)
Ltac zcases :=
  repeat match goal with
  | |- context [Z.eqb ?a ?b] => destruct (Z.eqb_spec a b)
  | |- context [Z.leb ?a ?b] => destruct (Z.leb_spec a b)
  | |- context [Z.ltb ?a ?b] => destruct (Z.ltb_spec a b)
  end; simpl.

Section ChunkFacts.

Lemma inBounds_spec x y z :
  Chunk.inBounds x y z = true <->
  0 <= x < CHUNK_SIZE /\ 0 <= y < CHUNK_HEIGHT /\ 0 <= z < CHUNK_SIZE.
Proof. unfold Chunk.inBounds. rewrite !andb_true_iff. lia. Qed.

Lemma getBlock_outside c x y z : Chunk.inBounds x y z = false -> getBlock c x y z = AIR.
Proof. intros H. unfold Chunk.getBlock. by rewrite H. Qed.

Lemma getBlock_empty cx cz x y z : getBlock (Chunk.empty cx cz) x y z = AIR.
Proof. unfold Chunk.getBlock, Chunk.empty. simpl. rewrite lookup_empty. by destruct Chunk.inBounds. Qed.

Lemma setBlock_outside c x y z b : Chunk.inBounds x y z = false -> setBlock c x y z b = c.
Proof. intros H. unfold Chunk.setBlock. by rewrite H. Qed.

Lemma getBlock_setBlock c x y z b x' y' z' :
  getBlock (setBlock c x y z b) x' y' z' =
  if Chunk.inBounds x y z && bool_decide ((x, y, z) = (x', y', z'))
  then b else getBlock c x' y' z'.
Proof.
  unfold Chunk.getBlock, Chunk.setBlock.
  destruct (Chunk.inBounds x y z) eqn:Hin; simpl; [|done].
  case_bool_decide as Heq.
  - inversion Heq; subst. rewrite Hin. by rewrite lookup_insert_eq.
  - destruct (Chunk.inBounds x' y' z'); [|done]. by rewrite lookup_insert_ne.
Qed.

Lemma getBlock_setBlock_same c x y z b :
  Chunk.inBounds x y z = true -> getBlock (setBlock c x y z b) x y z = b.
Proof. intros H. rewrite getBlock_setBlock, H. by rewrite bool_decide_eq_true_2. Qed.

Lemma getBlock_setBlock_other c x y z b x' y' z' :
  (x, y, z) <> (x', y', z') -> getBlock (setBlock c x y z b) x' y' z' = getBlock c x' y' z'.
Proof.
  intros H. rewrite getBlock_setBlock. rewrite (bool_decide_eq_false_2 _ H).
  by rewrite andb_false_r.
Qed.

Lemma getBlock_setBlock_eqb c x y z b x' y' z' :
  getBlock (setBlock c x y z b) x' y' z' =
  if Chunk.inBounds x y z && (x =? x') && (y =? y') && (z =? z')
  then b else getBlock c x' y' z'.
Proof.
  rewrite getBlock_setBlock. destruct (Chunk.inBounds x y z); simpl; [|done].
  case_bool_decide as H.
  - inversion H; subst. by rewrite !Z.eqb_refl.
  - destruct (Z.eqb_spec x x'), (Z.eqb_spec y y'), (Z.eqb_spec z z'); simpl; try done.
    congruence.
Qed.

Lemma cx_setBlock c x y z b : Chunk.cx (setBlock c x y z b) = Chunk.cx c.
Proof. unfold Chunk.setBlock. by destruct Chunk.inBounds. Qed.

Lemma cz_setBlock c x y z b : Chunk.cz (setBlock c x y z b) = Chunk.cz c.
Proof. unfold Chunk.setBlock. by destruct Chunk.inBounds. Qed.

End ChunkFacts.

(** ** Loops *)

Section LoopFacts.
Context {S : Type}.
Implicit Types (body : Z -> S -> S) (s : S).

Lemma for_range_empty lo hi body s : hi <= lo -> Loop.for_range lo hi body s = s.
Proof. intros H. unfold Loop.for_range. rewrite seqZ_nil by lia. done. Qed.

Lemma for_range_first lo hi body s :
  lo < hi -> Loop.for_range lo hi body s = Loop.for_range (lo + 1) hi body (body lo s).
Proof.
  intros H. unfold Loop.for_range. rewrite seqZ_cons by lia. simpl.
  by replace (Z.succ lo) with (lo + 1) by lia; replace (Z.pred (hi - lo)) with (hi - (lo + 1)) by lia.
Qed.

Lemma for_range_last lo hi body s :
  lo < hi -> Loop.for_range lo hi body s = body (hi - 1) (Loop.for_range lo (hi - 1) body s).
Proof.
  intros H. unfold Loop.for_range.
  replace (hi - lo) with ((hi - 1 - lo) + 1) by lia.
  rewrite seqZ_app by lia. rewrite fold_left_app. simpl.
  by replace (lo + (hi - 1 - lo)) with (hi - 1) by lia.
Qed.

(** The invariant rule of a counting loop. *)
Lemma for_range_inv (P : Z -> S -> Prop) lo hi body s :
  lo <= hi ->
  P lo s ->
  (forall i s, lo <= i < hi -> P i s -> P (i + 1) (body i s)) ->
  P hi (Loop.for_range lo hi body s).
Proof.
  intros Hle H0 Hstep.
  assert (forall n : nat, lo + Z.of_nat n <= hi ->
            P (lo + Z.of_nat n) (Loop.for_range lo (lo + Z.of_nat n) body s)) as Hn.
  { induction n as [|n IH]; intros Hb.
    - rewrite Z.add_0_r. by rewrite for_range_empty by lia.
    - rewrite for_range_last by lia.
      replace (lo + Z.of_nat (Datatypes.S n)) with (lo + Z.of_nat n + 1) by lia.
      replace (lo + Z.of_nat n + 1 - 1) with (lo + Z.of_nat n) by lia.
      apply Hstep; [lia|]. apply IH. lia. }
  specialize (Hn (Z.to_nat (hi - lo))).
  replace (lo + Z.of_nat (Z.to_nat (hi - lo))) with hi in Hn by lia.
  apply Hn. lia.
Qed.

(** A loop whose every iteration preserves a property preserves it. *)
Lemma for_range_preserves (P : S -> Prop) lo hi body s :
  P s -> (forall i s, lo <= i < hi -> P s -> P (body i s)) ->
  P (Loop.for_range lo hi body s).
Proof.
  intros H0 Hstep. destruct (Z_le_gt_dec lo hi).
  - apply (for_range_inv (fun _ => P)); auto.
  - by rewrite for_range_empty by lia.
Qed.

Lemma for_break_list_preserves (P : S -> Prop) l (body : Z -> S -> option S) s :
  P s -> (forall i s s', i ∈ l -> P s -> body i s = Some s' -> P s') ->
  P (Loop.for_break_list l body s).
Proof.
  revert s. induction l as [|i l IH]; intros s H0 Hstep; simpl; [done|].
  destruct (body i s) as [s'|] eqn:E; [|done].
  apply IH.
  - eapply Hstep; [|done|done]. by left.
  - intros j t t' Hj. apply Hstep. by right.
Qed.

Lemma for_break_preserves (P : S -> Prop) lo hi (body : Z -> S -> option S) s :
  P s -> (forall i s s', lo <= i < hi -> P s -> body i s = Some s' -> P s') ->
  P (Loop.for_break lo hi body s).
Proof.
  intros H0 Hstep. unfold Loop.for_break. apply for_break_list_preserves; [done|].
  intros i t t' Hi. apply Hstep. apply elem_of_seqZ in Hi. lia.
Qed.

End LoopFacts.


(** ** Block tags *)

Lemma block_eqb_eq a b : block_eqb a b = true <-> a = b.
Proof. unfold block_eqb. apply bool_decide_eq_true. Qed.

Lemma block_eqb_neq a b : block_eqb a b = false <-> a <> b.
Proof. unfold block_eqb. apply bool_decide_eq_false. Qed.

Lemma block_eqb_refl a : block_eqb a a = true.
Proof. by apply block_eqb_eq. Qed.

(** ** The block registry *)

Section RegistryFacts.
Import Registry.

Lemma has_true (r : State) t : has r t = true <-> is_Some (r !! t).
Proof. unfold has. apply bool_decide_eq_true. Qed.

Lemma has_false (r : State) t : has r t = false <-> r !! t = None.
Proof.
  unfold has. rewrite bool_decide_eq_false. split.
  - intros H. destruct (r !! t) eqn:E; [|done]. exfalso. apply H. eauto.
  - intros -> [x Hx]. discriminate.
Qed.

Lemma get_unregistered (r : State) t : r !! t = None -> get r t = Throw (UnknownBlockType t).
Proof. intros H. unfold get. by rewrite H. Qed.

Lemma get_registered (r : State) t b : r !! t = Some b -> get r t = Ok b.
Proof. intros H. unfold get. by rewrite H. Qed.

Lemma isSolid_returns (r : State) t : returns (isSolid r t).
Proof.
  unfold isSolid, returns. destruct (block_eqb t AIR); [eauto|].
  destruct (has r t) eqn:Hh; [|eauto].
  apply has_true in Hh as [b Hb]. rewrite (get_registered _ _ _ Hb). simpl. eauto.
Qed.

Lemma isTransparent_returns (r : State) t : returns (isTransparent r t).
Proof.
  unfold isTransparent, returns. destruct (block_eqb t AIR); [eauto|].
  destruct (has r t) eqn:Hh; [|eauto].
  apply has_true in Hh as [b Hb]. rewrite (get_registered _ _ _ Hb). simpl. eauto.
Qed.

Lemma isSolid_unregistered (r : State) t :
  t <> AIR -> r !! t = None -> isSolid r t = Ok true.
Proof.
  intros Ht Hr. unfold isSolid.
  apply block_eqb_neq in Ht. rewrite Ht.
  apply has_false in Hr. by rewrite Hr.
Qed.

Lemma isTransparent_unregistered (r : State) t :
  t <> AIR -> r !! t = None -> isTransparent r t = Ok false.
Proof.
  intros Ht Hr. unfold isTransparent.
  apply block_eqb_neq in Ht. rewrite Ht.
  apply has_false in Hr. by rewrite Hr.
Qed.

Lemma BlockRegistry_AIR : is_Some (BlockRegistry !! AIR).
Proof. vm_compute. eauto. Qed.

Lemma BlockRegistry_unregistered t : BlockRegistry !! t = None <-> t = COUNT.
Proof.
  split.
  - destruct t; vm_compute; intros H; first [discriminate H | reflexivity].
  - intros ->. vm_compute. reflexivity.
Qed.

(** C10: the solidity and transparency queries never raise; [AIR] is not
    solid and is transparent whatever the registry holds; a tag that is
    not registered is reported solid and not transparent. *)
Theorem isSolid_isTransparent_total :
  (forall (r : State) t, returns (isSolid r t) /\ returns (isTransparent r t))
  /\ (forall r : State, isSolid r AIR = Ok false /\ isTransparent r AIR = Ok true)
  /\ (forall (r : State) t, t <> AIR -> r !! t = None ->
        isSolid r t = Ok true /\ isTransparent r t = Ok false)
  /\ (forall t, has BlockRegistry t = false ->
        isSolid BlockRegistry t = Ok true /\ isTransparent BlockRegistry t = Ok false)
  /\ has BlockRegistry COUNT = false.
Proof.
  split; [|split; [|split; [|split]]].
  - intros r t. split; [apply isSolid_returns | apply isTransparent_returns].
  - intros r. split; reflexivity.
  - intros r t Ht Hr. split.
    + by apply isSolid_unregistered.
    + by apply isTransparent_unregistered.
  - intros t Ht. apply has_false in Ht.
    assert (t <> AIR) as Hne.
    { intros ->. destruct BlockRegistry_AIR as [b Hb]. congruence. }
    split.
    + by apply isSolid_unregistered.
    + by apply isTransparent_unregistered.
  - apply has_false. by apply BlockRegistry_unregistered.
Qed.

(** The claim C8 as the specification states it: every metadata lookup on
    a tag that is not registered raises. *)
Definition every_lookup_raises (r : State) : Prop :=
  forall t, r !! t = None ->
    throws (get r t) /\ (forall face, throws (getTexture r t face))
    /\ throws (isSolid r t) /\ throws (isTransparent r t).

(** C8 as stated fails: [COUNT] is not registered, and [isSolid] returns
    on it. *)
Lemma every_lookup_raises_fails : ~ every_lookup_raises BlockRegistry.
Proof.
  intros H. destruct (H COUNT) as (_ & _ & [e He] & _).
  - by apply BlockRegistry_unregistered.
  - vm_compute in He. discriminate He.
Qed.

(** C8, amended: on a tag that is not registered [get] and [getTexture]
    raise the unknown-block error, while [isSolid] and [isTransparent]
    return (the defaults: solid, not transparent, for a tag other than
    [AIR]). *)
Theorem unregistered_lookup (r : State) t :
  r !! t = None ->
  get r t = Throw (UnknownBlockType t)
  /\ (forall face, getTexture r t face = Throw (UnknownBlockType t))
  /\ returns (isSolid r t) /\ returns (isTransparent r t)
  /\ (t <> AIR -> isSolid r t = Ok true /\ isTransparent r t = Ok false).
Proof.
  intros Hr. split; [by apply get_unregistered|]. split.
  { intros face. unfold getTexture. by rewrite (get_unregistered _ _ Hr). }
  split; [apply isSolid_returns|]. split; [apply isTransparent_returns|].
  intros Ht. split; [by apply isSolid_unregistered | by apply isTransparent_unregistered].
Qed.

Lemma unregistered_lookup_witness :
  get BlockRegistry COUNT = Throw (UnknownBlockType COUNT)
  /\ (forall face, getTexture BlockRegistry COUNT face = Throw (UnknownBlockType COUNT))
  /\ returns (isSolid BlockRegistry COUNT) /\ returns (isTransparent BlockRegistry COUNT)
  /\ (COUNT <> AIR -> isSolid BlockRegistry COUNT = Ok true
                      /\ isTransparent BlockRegistry COUNT = Ok false).
Proof. apply (unregistered_lookup BlockRegistry COUNT). vm_compute. reflexivity. Defined.

End RegistryFacts.


(** ** The biome decision table *)

Section BiomeFacts.
Import BiomeMap.
Local Open Scope Q_scope.

Lemma ltb_true a b : ltb a b = true <-> a < b.
Proof.
  unfold ltb. rewrite negb_true_iff. split.
  - intros H. apply Qnot_le_lt. intros Hle. apply Qle_bool_iff in Hle. congruence.
  - intros H. destruct (Qle_bool b a) eqn:E; [|done].
    apply Qle_bool_iff in E. exfalso. by apply (Qlt_not_le a b).
Qed.

Lemma ltb_false a b : ltb a b = false <-> b <= a.
Proof.
  unfold ltb. rewrite negb_false_iff. apply Qle_bool_iff.
Qed.

Ltac split_ltb :=
  repeat match goal with
  | |- context [ltb ?a ?b] =>
      let E := fresh "E" in
      destruct (ltb a b) eqn:E;
      [apply ltb_true in E | apply ltb_false in E]
  end.

Ltac table_row :=
  split; [ intros ?; first [discriminate | repeat split; lra | lra
                            | (left; repeat split; lra) | (right; repeat split; lra) ]
         | intros ?; first [reflexivity | exfalso; lra
                            | exfalso; intuition lra ] ].

(** The literals in increasing order. *)
Lemma literals_ordered :
  0 < lit_0_2 /\ lit_0_2 < lit_0_45 /\ lit_0_45 < lit_0_7 /\ lit_0_7 < 1
  /\ 0 < lit_0_3 /\ lit_0_3 < lit_0_35 /\ lit_0_35 < lit_0_5 /\ lit_0_5 < lit_0_55
  /\ lit_0_55 < lit_0_68 /\ lit_0_68 < lit_0_78 /\ lit_0_78 < lit_0_85 /\ lit_0_85 < 1.
Proof. unfold lit_0_2, lit_0_45, lit_0_7, lit_0_3, lit_0_35, lit_0_5, lit_0_55, lit_0_68, lit_0_78, lit_0_85. repeat split; reflexivity. Qed.

(** C4, amended: the decision table, band by band.  Every pair of values
    has one biome ([biomeOf] is a function); a temperature band holds its
    lower bound and not its upper bound; a moisture band holds its upper
    bound and not its lower bound. *)
Theorem biomeOf_table (temp moist : Q) :
  (biomeOf temp moist = OCEAN <-> lit_0_85 < moist)
  /\ (biomeOf temp moist = BEACH <-> lit_0_78 < moist /\ moist <= lit_0_85)
  /\ (biomeOf temp moist = TUNDRA <->
        moist <= lit_0_78
        /\ (temp < lit_0_2 \/ (lit_0_2 <= temp /\ temp < lit_0_45 /\ moist <= lit_0_5)))
  /\ (biomeOf temp moist = TAIGA <->
        lit_0_2 <= temp /\ temp < lit_0_45 /\ lit_0_5 < moist /\ moist <= lit_0_78)
  /\ (biomeOf temp moist = SWAMP <->
        lit_0_45 <= temp /\ temp < lit_0_7 /\ lit_0_68 < moist /\ moist <= lit_0_78)
  /\ (biomeOf temp moist = FOREST <->
        lit_0_45 <= temp /\ temp < lit_0_7 /\ lit_0_55 < moist /\ moist <= lit_0_68)
  /\ (biomeOf temp moist = PLAINS <->
        (lit_0_45 <= temp /\ temp < lit_0_7 /\ moist <= lit_0_55)
        \/ (lit_0_7 <= temp /\ lit_0_35 < moist /\ moist <= lit_0_55))
  /\ (biomeOf temp moist = JUNGLE <->
        lit_0_7 <= temp /\ lit_0_55 < moist /\ moist <= lit_0_78)
  /\ (biomeOf temp moist = DESERT <->
        lit_0_7 <= temp /\ moist <= lit_0_35)
  /\ biomeOf temp moist <> MOUNTAINS.
Proof.
  pose proof literals_ordered as (? & ? & ? & ? & ? & ? & ? & ? & ? & ? & ? & ?).
  unfold biomeOf.
  generalize dependent lit_0_85. generalize dependent lit_0_78.
  generalize dependent lit_0_68. generalize dependent lit_0_55.
  generalize dependent lit_0_5. generalize dependent lit_0_35.
  generalize dependent lit_0_3. generalize dependent lit_0_7.
  generalize dependent lit_0_45. generalize dependent lit_0_2.
  intros. split_ltb.
  all: repeat match goal with |- _ /\ _ => split end.
  all: try discriminate.
  all: try table_row.
Qed.

(** The claim C4 at one boundary: the value exactly at the threshold
    [theta] of the moisture axis belongs to the band above it, that is, it
    has the biome of the values just above [theta]. *)
Definition falls_into_upper_band (temp theta : Q) : Prop :=
  exists eps, 0 < eps /\
    forall moist, theta < moist -> moist < theta + eps ->
      biomeOf temp moist = biomeOf temp theta.

(** C4 as stated fails: at temperature 0.25 the moisture 0.5 is tundra, and
    every moisture just above 0.5 is taiga. *)
Lemma moisture_threshold_in_lower_band : ~ falls_into_upper_band (1 # 4) lit_0_5.
Proof.
  intros (eps & Heps & H).
  assert (biomeOf (1 # 4) lit_0_5 = TUNDRA) as Hat by reflexivity.
  assert (forall moist, lit_0_5 < moist -> moist <= lit_0_78 ->
            biomeOf (1 # 4) moist = TAIGA) as Habove.
  { intros moist H1 H2. unfold biomeOf.
    rewrite (proj2 (ltb_false lit_0_78 moist) H2).
    rewrite (proj2 (ltb_true lit_0_5 moist) H1).
    reflexivity. }
  assert (exists moist, lit_0_5 < moist /\ moist < lit_0_5 + eps /\ moist <= lit_0_78)
    as (moist & H1 & H2 & H3).
  { destruct (Qlt_le_dec eps (1 # 10)) as [Hsmall | Hbig].
    - exists (lit_0_5 + eps * (1 # 2)). unfold lit_0_5, lit_0_78. split; [|split]; lra.
    - exists (lit_0_5 + (1 # 20)). unfold lit_0_5, lit_0_78. split; [|split]; lra. }
  specialize (H moist H1 H2). rewrite Hat, (Habove moist H1 H3) in H. discriminate H.
Qed.

End BiomeFacts.


(** ** Surface fill *)

Section SurfaceFill.
Import TerrainGenerator.
Variable SEA_LEVEL : Z.

(** The column of a chunk at [(lx, lz)], from [y = 0] upward. *)
Definition column (c : Chunk) (lx lz : Z) : list BlockType :=
  (fun y => getBlock c lx y lz) <$> seqZ 0 CHUNK_HEIGHT.

Lemma fmap_seqZ_const {A} (f : Z -> A) (v : A) lo n :
  (forall y, lo <= y < lo + n -> f y = v) ->
  f <$> seqZ lo n = replicate (Z.to_nat n) v.
Proof.
  intros H. apply list_eq. intros i.
  rewrite list_lookup_fmap.
  destruct (decide (Z.of_nat i < n)) as [Hi|Hi].
  - rewrite lookup_seqZ_lt by lia. simpl.
    rewrite (proj2 (lookup_replicate _ _ _ _)) by (split; [done | lia]).
    f_equal. apply H. lia.
  - rewrite lookup_seqZ_ge by lia. simpl. symmetry.
    apply lookup_replicate_None. lia.
Qed.

(** A loop that writes [f y] at every height of one column. *)
Lemma getBlock_column_loop c lx lz (f : Z -> BlockType) lo hi x y z :
  getBlock (Loop.for_range lo hi (fun y c => setBlock c lx y lz (f y)) c) x y z =
  if (x =? lx) && (z =? lz) && (lo <=? y) && (y <? hi) && Chunk.inBounds x y z
  then f y else getBlock c x y z.
Proof.
  destruct (Z_le_gt_dec lo hi) as [Hle|Hgt].
  2:{ rewrite for_range_empty by lia. zcases; try done; lia. }
  apply (for_range_inv (fun i c' => getBlock c' x y z =
    if (x =? lx) && (z =? lz) && (lo <=? y) && (y <? i) && Chunk.inBounds x y z
    then f y else getBlock c x y z)); [done| |].
  - zcases; try done; lia.
  - intros i c' Hi IH. rewrite getBlock_setBlock_eqb, IH.
    destruct (Chunk.inBounds x y z) eqn:Hin.
    + zcases; subst; try rewrite Hin; simpl; try done; try lia;
        rewrite ?andb_false_r; try done.
    + rewrite !andb_false_r.
      destruct (Chunk.inBounds lx i lz) eqn:Hin'; simpl; [|done].
      zcases; subst; try done; congruence.
Qed.

Lemma getBlock_fillColumn c lx lz h biome x y z :
  getBlock (fillColumn SEA_LEVEL c lx lz h biome) x y z =
  if (x =? lx) && (z =? lz) && Chunk.inBounds x y z
  then columnBlock SEA_LEVEL h biome y else getBlock c x y z.
Proof.
  unfold fillColumn. rewrite getBlock_column_loop.
  destruct (Chunk.inBounds x y z) eqn:Hin; [|by rewrite !andb_false_r].
  apply inBounds_spec in Hin. unfold CHUNK_HEIGHT in *.
  zcases; try done; lia.
Qed.

(** The biome and the clamped surface height [buildTerrain] computes for
    the column [(lx, lz)]. *)
Definition columnBiome (g : TerrainGenerator.t) (worldX worldZ lx lz : Z) : Biome :=
  effectiveBiome g (worldX + lx) (worldZ + lz).

Definition columnHeight (g : TerrainGenerator.t) (worldX worldZ lx lz : Z) : Z :=
  Z.max 1 (Z.min (sampleSurfaceHeight g (columnBiome g worldX worldZ lx lz)
                    (worldX + lx) (worldZ + lz)) (CHUNK_HEIGHT - 1)).

Lemma columnHeight_range g worldX worldZ lx lz :
  1 <= columnHeight g worldX worldZ lx lz <= CHUNK_HEIGHT - 1.
Proof. unfold columnHeight, CHUNK_HEIGHT. lia. Qed.

Lemma seqZ_snoc lo n : 0 <= n -> seqZ lo (n + 1) = seqZ lo n ++ [lo + n].
Proof. intros H. rewrite seqZ_app by lia. done. Qed.

(** What [buildTerrain] leaves: every cell of the chunk holds the block of
    its column, and the heightmap holds the clamped heights. *)
Lemma buildTerrain_spec g c worldX worldZ :
  let r := buildTerrain SEA_LEVEL g c worldX worldZ in
  (forall x y z, Chunk.inBounds x y z = true ->
      getBlock r.1 x y z =
      columnBlock SEA_LEVEL (columnHeight g worldX worldZ x z)
        (columnBiome g worldX worldZ x z) y)
  /\ r.2 = (fun lx => (fun lz => columnHeight g worldX worldZ lx lz) <$> seqZ 0 CHUNK_SIZE)
             <$> seqZ 0 CHUNK_SIZE.
Proof.
  set (cell x z y := columnBlock SEA_LEVEL (columnHeight g worldX worldZ x z)
                       (columnBiome g worldX worldZ x z) y).
  set (rowOf lx n := (fun lz => columnHeight g worldX worldZ lx lz) <$> seqZ 0 n).
  assert (forall i n (s : Chunk * Heightmap),
    0 <= n ->
    let r := Loop.for_range 0 n (fun lz '(chunk, row) =>
        let wx := worldX + i in
        let wz := worldZ + lz in
        let biome := effectiveBiome g wx wz in
        let surfaceHeight := sampleSurfaceHeight g biome wx wz in
        let clampedHeight := Z.max 1 (Z.min surfaceHeight (CHUNK_HEIGHT - 1)) in
        (fillColumn SEA_LEVEL chunk i lz clampedHeight biome, row ++ [clampedHeight]))
        (s.1, []) in
    (forall x y z, getBlock r.1 x y z =
        if (x =? i) && (0 <=? z) && (z <? n) && Chunk.inBounds x y z
        then cell x z y else getBlock s.1 x y z)
    /\ r.2 = rowOf i n) as Hinner.
  { intros i n s Hn.
    apply (for_range_inv (fun j (r : Chunk * list Z) =>
      (forall x y z, getBlock r.1 x y z =
          if (x =? i) && (0 <=? z) && (z <? j) && Chunk.inBounds x y z
          then cell x z y else getBlock s.1 x y z)
      /\ r.2 = rowOf i j)); [done| |].
    - split; [|done]. intros x y z. simpl. zcases; try done; lia.
    - intros j [c' row] Hj [IHc IHr]. simpl in *. split.
      + intros x y z. rewrite getBlock_fillColumn, IHc.
        unfold cell, columnHeight, columnBiome.
        destruct (Chunk.inBounds x y z); rewrite ?andb_false_r; [|done].
        zcases; subst; try done; lia.
      + subst row. unfold rowOf. rewrite seqZ_snoc by lia. rewrite fmap_app. done. }
  unfold buildTerrain.
  match goal with
  | |- context [Loop.for_range 0 CHUNK_SIZE ?body ?s] =>
      pose proof (for_range_inv (fun i (r : Chunk * Heightmap) =>
        (forall x y z, getBlock r.1 x y z =
            if (0 <=? x) && (x <? i) && Chunk.inBounds x y z
            then cell x z y else getBlock c x y z)
        /\ r.2 = (fun lx => rowOf lx CHUNK_SIZE) <$> seqZ 0 i)
        0 CHUNK_SIZE body s) as Houter
  end.
  destruct Houter as [Hc Hh].
  - done.
  - split; [|done]. intros x y z. simpl. zcases; try done; lia.
  - intros i [c' hm] Hi [IHc IHh]. cbn [fst snd] in *.
    specialize (Hinner i CHUNK_SIZE (c', hm)). cbn [fst snd] in Hinner.
    destruct Hinner as [Hic Hir]; [done|].
    match goal with
    | |- context [Loop.for_range 0 CHUNK_SIZE ?body ?s] =>
        destruct (Loop.for_range 0 CHUNK_SIZE body s) as [c'' row] eqn:E
    end.
    simpl in *. split.
    + intros x y z. rewrite Hic, IHc.
      destruct (Chunk.inBounds x y z) eqn:Hin; rewrite ?andb_false_r; [|done].
      apply inBounds_spec in Hin. zcases; subst; try done; lia.
    + subst hm row. rewrite seqZ_snoc by lia. rewrite fmap_app. done.
  - simpl. split; [|done]. intros x y z Hin. rewrite Hc, Hin.
    apply inBounds_spec in Hin. zcases; try done; lia.
Qed.

Lemma hmGet_buildTerrain g c worldX worldZ lx lz :
  0 <= lx < CHUNK_SIZE -> 0 <= lz < CHUNK_SIZE ->
  hmGet (buildTerrain SEA_LEVEL g c worldX worldZ).2 lx lz = columnHeight g worldX worldZ lx lz.
Proof.
  intros Hx Hz. destruct (buildTerrain_spec g c worldX worldZ) as [_ ->].
  unfold hmGet. rewrite (list_lookup_fmap _ (seqZ 0 CHUNK_SIZE) (Z.to_nat lx)).
  rewrite lookup_seqZ_lt by lia. cbn [fmap option_fmap option_map mbind option_bind].
  rewrite (list_lookup_fmap _ (seqZ 0 CHUNK_SIZE) (Z.to_nat lz)).
  rewrite lookup_seqZ_lt by lia. cbn [fmap option_fmap option_map default from_option id].
  f_equal; lia.
Qed.

(** Whether [fillColumn] puts water over a column of surface height [h]. *)
Definition wet (h : Z) (biome : Biome) : bool :=
  biome_eqb biome OCEAN || (h <? SEA_LEVEL).

(** The lengths of the runs of a filled column. *)
Definition stoneRun (h : Z) : Z := Z.max 0 (h - 5).
Definition subSurfaceRun (h : Z) : Z := h - 1 - stoneRun h.
Definition waterRun (h : Z) (biome : Biome) : Z :=
  if wet h biome then Z.max 0 (Z.min SEA_LEVEL (CHUNK_HEIGHT - 1) - h) else 0.
Definition airRun (h : Z) (biome : Biome) : Z := CHUNK_HEIGHT - 1 - h - waterRun h biome.

Lemma columnBlock_runs h biome :
  1 <= h <= CHUNK_HEIGHT - 1 ->
  columnBlock SEA_LEVEL h biome <$> seqZ 0 CHUNK_HEIGHT =
    [BEDROCK] ++ replicate (Z.to_nat (stoneRun h)) STONE
    ++ replicate (Z.to_nat (subSurfaceRun h)) (getSubSurfaceBlock biome)
    ++ [getSurfaceBlock biome]
    ++ replicate (Z.to_nat (waterRun h biome)) WATER
    ++ replicate (Z.to_nat (airRun h biome)) AIR.
Proof.
  intros Hh.
  assert (0 <= stoneRun h) as H1 by (unfold stoneRun; lia).
  assert (0 <= subSurfaceRun h) as H2 by (unfold subSurfaceRun, stoneRun; lia).
  assert (0 <= waterRun h biome /\ 0 <= airRun h biome) as [H3 H4].
  { unfold airRun, waterRun, CHUNK_HEIGHT in *. destruct (wet h biome); lia. }
  assert (forall y, h < y -> y <= h + waterRun h biome ->
            wet h biome = true /\ y <= SEA_LEVEL) as Hwater.
  { intros y Hy1 Hy2. unfold waterRun in *. destruct (wet h biome); [|lia].
    split; [done | lia]. }
  assert (forall y, h + waterRun h biome < y -> y < CHUNK_HEIGHT ->
            wet h biome = false \/ SEA_LEVEL < y) as Hair.
  { intros y Hy1 Hy2. unfold waterRun, CHUNK_HEIGHT in *. destruct (wet h biome); [|by left].
    right. lia. }
  replace CHUNK_HEIGHT with
    (1 + (stoneRun h + (subSurfaceRun h + (1 + (waterRun h biome + airRun h biome)))))
    by (unfold airRun, subSurfaceRun; lia).
  rewrite !seqZ_app by lia. rewrite !fmap_app.
  repeat f_equal.
  - apply fmap_seqZ_const. intros y Hy. unfold columnBlock, stoneRun in *. zcases; try done; lia.
  - apply fmap_seqZ_const. intros y Hy. unfold columnBlock, subSurfaceRun, stoneRun in *.
    zcases; try done; lia.
  - simpl. f_equal. unfold columnBlock, subSurfaceRun, stoneRun in *. zcases; try done; lia.
  - apply fmap_seqZ_const. intros y Hy.
    destruct (Hwater y) as [Hw Hy2]; [unfold subSurfaceRun in *; lia..|].
    unfold columnBlock, subSurfaceRun, stoneRun, wet in *.
    destruct (Z.eqb_spec y 0); [lia|].
    destruct (Z.ltb_spec y (h - 4)); [lia|].
    destruct (Z.ltb_spec y h); [lia|].
    destruct (Z.eqb_spec y h); [lia|].
    destruct (Z.leb_spec y SEA_LEVEL); [|lia]. simpl.
    destruct (biome_eqb biome OCEAN); [done|]. simpl in *. by rewrite Hw.
  - apply fmap_seqZ_const. intros y Hy.
    destruct (Hair y) as [Hw | Hy2];
      [unfold subSurfaceRun, airRun in *; lia..| |];
    unfold columnBlock, subSurfaceRun, stoneRun, airRun, wet in *.
    + destruct (Z.eqb_spec y 0); [lia|].
      destruct (Z.ltb_spec y (h - 4)); [lia|].
      destruct (Z.ltb_spec y h); [lia|].
      destruct (Z.eqb_spec y h); [lia|].
      apply orb_false_iff in Hw as [-> ->]. by rewrite !andb_false_r.
    + destruct (Z.eqb_spec y 0); [lia|].
      destruct (Z.ltb_spec y (h - 4)); [lia|].
      destruct (Z.ltb_spec y h); [lia|].
      destruct (Z.eqb_spec y h); [lia|].
      destruct (Z.leb_spec y SEA_LEVEL); [lia|]. done.
Qed.

Lemma subSurface_solid biome :
  Registry.isSolid Registry.BlockRegistry (getSubSurfaceBlock biome) = Registry.Ok true.
Proof. by destruct biome. Qed.

Lemma surface_solid biome :
  Registry.isSolid Registry.BlockRegistry (getSurfaceBlock biome) = Registry.Ok true.
Proof. by destruct biome. Qed.

(** C3: after the surface-fill pass every column of the chunk reads, from
    [y = 0] upward: bedrock, a run of stone, a run of the biome's
    subsurface block, one surface block at the surface height (the height
    the heightmap records), a run of water (possibly empty), and air to
    the top of the world.  The subsurface and surface blocks are those of
    the column's biome, and both are solid. *)
Theorem surface_fill_columns g c worldX worldZ lx lz :
  0 <= lx < CHUNK_SIZE -> 0 <= lz < CHUNK_SIZE ->
  let r := buildTerrain SEA_LEVEL g c worldX worldZ in
  exists (surfaceHeight stone sub water air : nat) (subBlock surfaceBlock : BlockType),
    column r.1 lx lz =
      [BEDROCK] ++ replicate stone STONE ++ replicate sub subBlock
      ++ [surfaceBlock] ++ replicate water WATER ++ replicate air AIR
    /\ hmGet r.2 lx lz = Z.of_nat surfaceHeight
    /\ surfaceHeight = (1 + stone + sub)%nat
    /\ subBlock = getSubSurfaceBlock (columnBiome g worldX worldZ lx lz)
    /\ surfaceBlock = getSurfaceBlock (columnBiome g worldX worldZ lx lz)
    /\ Registry.isSolid Registry.BlockRegistry subBlock = Registry.Ok true
    /\ Registry.isSolid Registry.BlockRegistry surfaceBlock = Registry.Ok true.
Proof.
  intros Hx Hz r.
  set (h := columnHeight g worldX worldZ lx lz).
  set (biome := columnBiome g worldX worldZ lx lz).
  pose proof (columnHeight_range g worldX worldZ lx lz) as Hh. fold h in Hh.
  exists (Z.to_nat h), (Z.to_nat (stoneRun h)), (Z.to_nat (subSurfaceRun h)),
    (Z.to_nat (waterRun h biome)), (Z.to_nat (airRun h biome)),
    (getSubSurfaceBlock biome), (getSurfaceBlock biome).
  split; [|split; [|split; [|split; [|split; [|split]]]]].
  - rewrite <- (columnBlock_runs h biome Hh).
    unfold column. apply list_fmap_ext. intros i y Hy.
    apply lookup_seqZ in Hy as [-> Hi].
    destruct (buildTerrain_spec g c worldX worldZ) as [Hc _].
    apply Hc. apply inBounds_spec. lia.
  - unfold r. rewrite hmGet_buildTerrain by done. fold h. lia.
  - unfold subSurfaceRun, stoneRun. lia.
  - reflexivity.
  - reflexivity.
  - apply subSurface_solid.
  - apply surface_solid.
Qed.

End SurfaceFill.


(** ** The seeded generator *)

Section RngFacts.

Lemma next_range rng : 0 <= (Rng.next rng).1 < 2 ^ 32.
Proof. unfold Rng.next. cbn [fst]. unfold Rng.toUint32. apply Z.mod_pos_bound. lia. Qed.

Lemma floorMul_range u n : 0 <= u < 2 ^ 32 -> 0 < n -> 0 <= Rng.floorMul u n < n.
Proof.
  intros Hu Hn. unfold Rng.floorMul. split.
  - apply Z.div_pos; lia.
  - apply Z.div_lt_upper_bound; nia.
Qed.

(** The generator after [n] calls. *)
Fixpoint advance (n : nat) (rng : Rng.t) : Rng.t :=
  match n with
  | O => rng
  | S n' => advance n' (Rng.next rng).2
  end.

Lemma advance_add n m rng : advance (n + m) rng = advance m (advance n rng).
Proof. revert rng. induction n as [|n IH]; intros rng; simpl; [done|]. apply IH. Qed.

(** The probability literals of the sources, [num / den], each with the
    double-precision value [m / 2^e] it is read as. *)
Definition probabilityLiterals : list (Z * Z * Z * Z) :=
  [ (5, 1000, 5764607523034235, 60);
    (1, 100, 5764607523034235, 59);
    (2, 100, 5764607523034235, 58);
    (3, 100, 1080863910568919, 55);
    (5, 100, 3602879701896397, 56);
    (6, 100, 1080863910568919, 54);
    (8, 100, 5764607523034235, 56);
    (10, 100, 3602879701896397, 55);
    (15, 100, 5404319552844595, 55);
    (25, 100, 1, 2);
    (28, 100, 1261007895663739, 52);
    (30, 100, 5404319552844595, 54);
    (33, 100, 5944751508129055, 54);
    (35, 100, 3152519739159347, 53);
    (40, 100, 3602879701896397, 53);
    (43, 100, 7746191359077253, 54);
    (50, 100, 1, 1);
    (4, 10, 3602879701896397, 53);
    (5, 10, 1, 1);
    (6, 10, 5404319552844595, 53);
    (7, 10, 3152519739159347, 52) ].

(** No multiple of [2^-32] lies between the literal and its double, or the
    two are equal. *)
Definition literalCheck (l : Z * Z * Z * Z) : bool :=
  let '(num, den, m, e) := l in
  let k := (num * 2 ^ 32) / den in
  (0 <? den) && (0 <=? e) &&
  ((num * 2 ^ e =? m * den)
   || ((k * den <? num * 2 ^ 32) && (num * 2 ^ 32 <? (k + 1) * den)
       && (k * 2 ^ e <? m * 2 ^ 32) && (m * 2 ^ 32 <? (k + 1) * 2 ^ e))).

(** The comparisons of a draw [u / 2^32] with the double [m / 2^e]. *)
Definition literalExact (l : Z * Z * Z * Z) : Prop :=
  let '(num, den, m, e) := l in
  forall u : Z,
    Rng.lt u num den = (u * 2 ^ e <? m * 2 ^ 32)
    /\ Rng.gt u num den = (m * 2 ^ 32 <? u * 2 ^ e)
    /\ Rng.ge u num den = (m * 2 ^ 32 <=? u * 2 ^ e).

Lemma literalCheck_sound l : literalCheck l = true -> literalExact l.
Proof.
  destruct l as [[[num den] m] e]. unfold literalCheck, literalExact.
  set (k := (num * 2 ^ 32) / den). generalize k. clear k. intros k.
  intros H u. unfold Rng.lt, Rng.gt, Rng.ge.
  apply andb_true_iff in H as [H Hc]. apply andb_true_iff in H as [Hden He].
  apply Z.ltb_lt in Hden. apply Z.leb_le in He.
  assert (0 < 2 ^ e) as Hp by (apply Z.pow_pos_nonneg; lia).
  revert Hc Hp. generalize (2 ^ e), (2 ^ 32). intros p q Hc Hp.
  apply orb_true_iff in Hc as [Heq | Hc].
  - apply Z.eqb_eq in Heq.
    assert (num * q * p = m * q * den) as Hcross
      by (rewrite <- Z.mul_assoc, (Z.mul_comm q p), Z.mul_assoc, Heq; ring).
    assert (u * den * p = u * p * den) as Hu by ring.
    split; [|split]; apply eq_iff_eq_true;
      rewrite ?Z.ltb_lt, ?Z.leb_le.
    + rewrite (Z.mul_lt_mono_pos_r p (u * den) (num * q) Hp).
      rewrite (Z.mul_lt_mono_pos_r den (u * p) (m * q) Hden).
      by rewrite Hcross, Hu.
    + rewrite (Z.mul_lt_mono_pos_r p (num * q) (u * den) Hp).
      rewrite (Z.mul_lt_mono_pos_r den (m * q) (u * p) Hden).
      by rewrite Hcross, Hu.
    + rewrite (Z.mul_le_mono_pos_r (num * q) (u * den) p Hp).
      rewrite (Z.mul_le_mono_pos_r (m * q) (u * p) den Hden).
      by rewrite Hcross, Hu.
  - repeat (apply andb_true_iff in Hc as [Hc ?]).
    repeat match goal with H : (_ <? _) = true |- _ => apply Z.ltb_lt in H end.
    assert (u <= k \/ k + 1 <= u) as [Hu | Hu] by lia.
    + assert (u * den <= k * den) by nia. assert (u * p <= k * p) by nia.
      split; [|split].
      * destruct (Z.ltb_spec (u * den) (num * q)), (Z.ltb_spec (u * p) (m * q)); lia.
      * destruct (Z.ltb_spec (num * q) (u * den)), (Z.ltb_spec (m * q) (u * p)); lia.
      * destruct (Z.leb_spec (num * q) (u * den)), (Z.leb_spec (m * q) (u * p)); lia.
    + assert ((k + 1) * den <= u * den) by nia. assert ((k + 1) * p <= u * p) by nia.
      split; [|split].
      * destruct (Z.ltb_spec (u * den) (num * q)), (Z.ltb_spec (u * p) (m * q)); lia.
      * destruct (Z.ltb_spec (num * q) (u * den)), (Z.ltb_spec (m * q) (u * p)); lia.
      * destruct (Z.leb_spec (num * q) (u * den)), (Z.leb_spec (m * q) (u * p)); lia.
Qed.

(** Comparing a draw with a decimal literal, as [Rng.lt], [Rng.gt] and
    [Rng.ge] do, is comparing it with the double the literal is read as. *)
Lemma probabilityLiterals_exact : Forall literalExact probabilityLiterals.
Proof.
  apply Forall_forall. intros l Hl. apply literalCheck_sound.
  revert l Hl. apply Forall_forall.
  unfold probabilityLiterals. repeat constructor.
Qed.

End RngFacts.


(** ** Dungeons *)

Section DungeonFacts.
Import StructureGenerator.

(** The candidate position [(sx, sy, sz)] one iteration of the loop of
    [tryPlaceDungeon] draws from a generator. *)
Definition dungeonCandidate (rng : Rng.t) : Z * Z * Z :=
  let '(u1, rng) := Rng.next rng in
  let '(u2, rng) := Rng.next rng in
  let '(u3, rng) := Rng.next rng in
  (2 + Rng.floorMul u1 7, 12 + Rng.floorMul u3 28, 2 + Rng.floorMul u2 7).

(** The two cells [tryPlaceDungeon] reads for a candidate: the centre of
    the volume and the cell above the centre of its ceiling. *)
Definition probesPass (c : Chunk) (p : Z * Z * Z) : bool :=
  let '(sx, sy, sz) := p in
  block_eqb (getBlock c (sx + 3) (sy + 2) (sz + 3)) STONE
  && block_eqb (getBlock c (sx + 3) (sy + 5) (sz + 3)) STONE.

(** [buildDungeon] at a candidate, for the room of [tryPlaceDungeon]. *)
Definition buildDungeonAt (c : Chunk) (p : Z * Z * Z) : Chunk :=
  let '(sx, sy, sz) := p in buildDungeon c sx sy sz 7 5.

Lemma dungeonCandidate_range rng :
  let '(sx, sy, sz) := dungeonCandidate rng in
  2 <= sx <= 8 /\ 12 <= sy <= 39 /\ 2 <= sz <= 8.
Proof.
  unfold dungeonCandidate.
  pose proof (next_range rng) as H1. destruct (Rng.next rng) as [u1 r1].
  pose proof (next_range r1) as H2. destruct (Rng.next r1) as [u2 r2].
  pose proof (next_range r2) as H3. destruct (Rng.next r2) as [u3 r3].
  cbn [fst] in *.
  pose proof (floorMul_range u1 7 H1). pose proof (floorMul_range u2 7 H2).
  pose proof (floorMul_range u3 28 H3). lia.
Qed.

(** One iteration of the loop. *)
Lemma tryPlaceDungeonFrom_step n c rng :
  tryPlaceDungeonFrom (S n) c rng =
  if probesPass c (dungeonCandidate rng)
  then (buildDungeonAt c (dungeonCandidate rng), true, advance 3 rng)
  else tryPlaceDungeonFrom n c (advance 3 rng).
Proof.
  cbn [tryPlaceDungeonFrom advance].
  unfold probesPass, buildDungeonAt, dungeonCandidate.
  destruct (Rng.next rng) as [u1 r1]. cbn [fst snd].
  destruct (Rng.next r1) as [u2 r2]. cbn [fst snd].
  destruct (Rng.next r2) as [u3 r3]. cbn [fst snd].
  replace (CHUNK_SIZE - 7 - 2) with 7 by reflexivity.
  destruct (block_eqb (getBlock c _ (12 + Rng.floorMul u3 28 + 2) _) STONE);
    cbn [negb andb]; [|done].
  destruct (block_eqb (getBlock c _ (12 + Rng.floorMul u3 28 + 5) _) STONE);
    cbn [negb andb]; done.
Qed.

Lemma advance_3_succ k rng : advance (3 * S k) rng = advance (3 * k) (advance 3 rng).
Proof. replace (3 * S k)%nat with (3 + 3 * k)%nat by lia. apply advance_add. Qed.

(** The loop with [n] iterations left either fails on [n] candidates in
    a row and leaves the chunk as it was, or builds the room at the first
    candidate whose two probes read stone. *)
Lemma tryPlaceDungeonFrom_spec n c rng :
  (tryPlaceDungeonFrom n c rng = (c, false, advance (3 * n) rng)
   /\ forall k, (k < n)%nat ->
        probesPass c (dungeonCandidate (advance (3 * k) rng)) = false)
  \/ (exists k,
        (k < n)%nat
        /\ (forall j, (j < k)%nat ->
              probesPass c (dungeonCandidate (advance (3 * j) rng)) = false)
        /\ probesPass c (dungeonCandidate (advance (3 * k) rng)) = true
        /\ tryPlaceDungeonFrom n c rng =
           (buildDungeonAt c (dungeonCandidate (advance (3 * k) rng)), true,
            advance (3 * (k + 1)) rng)).
Proof.
  revert rng. induction n as [|n IH]; intros rng.
  - left. split; [done|]. intros k Hk. lia.
  - rewrite tryPlaceDungeonFrom_step.
    destruct (probesPass c (dungeonCandidate rng)) eqn:Hp.
    + right. exists 0%nat. split; [lia|]. split; [intros j Hj; lia|].
      split; [done|]. done.
    + destruct (IH (advance 3 rng)) as [[Heq Hall] | (k & Hk & Hbefore & Hpass & Heq)].
      * left. split.
        { rewrite Heq. by rewrite advance_3_succ. }
        intros [|k] Hk; [done|]. rewrite advance_3_succ. apply Hall. lia.
      * right. exists (S k). split; [lia|]. split.
        { intros [|j] Hj; [done|]. rewrite advance_3_succ. apply Hbefore. lia. }
        split; [by rewrite advance_3_succ|].
        rewrite Heq. rewrite advance_3_succ.
        replace (S k + 1)%nat with (S (k + 1)) by lia. by rewrite advance_3_succ.
Qed.

(** C7, amended: [tryPlaceDungeon] draws at most five candidates, three
    random numbers each.  Before it writes, it reads two cells of the
    candidate: the centre of the volume and the cell just above the centre
    of its ceiling.  Either no candidate has stone at both, and it returns
    [false] with the chunk as it was; or it builds the room at the first
    candidate that has, candidates before it leaving no trace. *)
Theorem tryPlaceDungeon_probes c rng :
  (tryPlaceDungeon c rng = (c, false, advance 15 rng)
   /\ forall k, (k < 5)%nat ->
        probesPass c (dungeonCandidate (advance (3 * k) rng)) = false)
  \/ (exists k sx sy sz,
        (k < 5)%nat
        /\ dungeonCandidate (advance (3 * k) rng) = (sx, sy, sz)
        /\ (forall j, (j < k)%nat ->
              probesPass c (dungeonCandidate (advance (3 * j) rng)) = false)
        /\ getBlock c (sx + 3) (sy + 2) (sz + 3) = STONE
        /\ getBlock c (sx + 3) (sy + 5) (sz + 3) = STONE
        /\ 2 <= sx <= 8 /\ 12 <= sy <= 39 /\ 2 <= sz <= 8
        /\ tryPlaceDungeon c rng =
           (buildDungeon c sx sy sz 7 5, true, advance (3 * (k + 1)) rng)).
Proof.
  unfold tryPlaceDungeon.
  destruct (tryPlaceDungeonFrom_spec 5 c rng) as [H | (k & Hk & Hbefore & Hpass & Heq)].
  - left. exact H.
  - right.
    pose proof (dungeonCandidate_range (advance (3 * k) rng)) as Hr.
    destruct (dungeonCandidate (advance (3 * k) rng)) as [[sx sy] sz] eqn:E.
    exists k, sx, sy, sz. unfold probesPass in Hpass.
    apply andb_true_iff in Hpass as [H1 H2].
    apply block_eqb_eq in H1, H2.
    repeat split; try done; lia.
Qed.

(** The claim C7 as the specification states it: a room is built only in
    a volume whose floor and ceiling lie in stone. *)
Definition embeddedInStone (c : Chunk) (sx sy sz : Z) : Prop :=
  forall x z, sx <= x < sx + 7 -> sz <= z < sz + 7 ->
    getBlock c x sy z = STONE /\ getBlock c x (sy + 4) z = STONE.

Definition dungeon_verifies_embedding : Prop :=
  forall c rng c' rng',
    tryPlaceDungeon c rng = (c', true, rng') ->
    exists sx sy sz, c' = buildDungeon c sx sy sz 7 5 /\ embeddedInStone c sx sy sz.

(** A chunk that is empty but for two stone cells. *)
Definition twoStones : Chunk :=
  setBlock (setBlock (Chunk.empty 0 0) 9 28 5 STONE) 9 31 5 STONE.

Example dungeonCandidate_seed_1 :
  dungeonCandidate (Rng.mulberry32 1) = (6, 26, 2)
  /\ probesPass twoStones (6, 26, 2) = true.
Proof. split; vm_compute; reflexivity. Qed.

(** C7 as stated fails: on [twoStones], with the generator
    [mulberry32(1)], the first candidate is [(6, 26, 2)]; its two probes
    read stone, and the room is built, though no floor or ceiling cell of
    any candidate volume lies in stone. *)
Lemma dungeon_built_outside_stone : ~ dungeon_verifies_embedding.
Proof.
  intros H.
  assert (forall sx sy sz, ~ embeddedInStone twoStones sx sy sz) as Hnot.
  { intros sx sy sz Hemb.
    destruct (Hemb sx sz) as [Hfloor _]; [lia..|].
    destruct (Hemb (sx + 1) sz) as [Hfloor' _]; [lia..|].
    unfold twoStones in Hfloor, Hfloor'.
    rewrite !getBlock_setBlock_eqb, getBlock_empty in Hfloor, Hfloor'.
    revert Hfloor Hfloor'. zcases; rewrite ?andb_false_r; simpl; try discriminate; lia. }
  destruct (tryPlaceDungeonFrom_spec 5 twoStones (Rng.mulberry32 1))
    as [[_ Hall] | (k & _ & _ & _ & Heq)].
  - specialize (Hall 0%nat ltac:(lia)). vm_compute in Hall. discriminate Hall.
  - destruct (H _ _ _ _ Heq) as (sx & sy & sz & _ & Hemb). by apply (Hnot sx sy sz).
Qed.

End DungeonFacts.


(** ** Large structures *)

Section StructureFacts.
Import StructureGenerator.

(** A rectangle of the heightmap is flat within [tol]: it lies inside the
    chunk, and no two of its heights differ by more than [tol] (its
    maximum minus its minimum is at most [tol]). *)
Definition flatWithin (heightmap : Heightmap) (startX startZ width depth tol : Z) : Prop :=
  (forall x z, startX <= x < startX + width -> startZ <= z < startZ + depth ->
      0 <= x < CHUNK_SIZE /\ 0 <= z < CHUNK_SIZE)
  /\ (forall x1 z1 x2 z2,
        startX <= x1 < startX + width -> startZ <= z1 < startZ + depth ->
        startX <= x2 < startX + width -> startZ <= z2 < startZ + depth ->
        hmGet heightmap x1 z1 - hmGet heightmap x2 z2 <= tol).

Lemma elem_of_areaCells startX startZ width depth x z :
  (x, z) ∈ areaCells startX startZ width depth <->
  startX <= x < startX + width /\ startZ <= z < startZ + depth.
Proof.
  unfold areaCells. rewrite list_elem_of_bind. split.
  - intros (x' & Hz & Hx). apply list_elem_of_bind in Hz as (z' & Hxz & Hz).
    apply list_elem_of_singleton in Hxz. inversion Hxz; subst.
    apply elem_of_seqZ in Hx, Hz. lia.
  - intros [Hx Hz]. exists x. split; [|apply elem_of_seqZ; lia].
    apply list_elem_of_bind. exists z. split; [by apply list_elem_of_singleton|].
    apply elem_of_seqZ. lia.
Qed.

Definition cellInside (p : Z * Z) : Prop :=
  0 <= p.1 < CHUNK_SIZE /\ 0 <= p.2 < CHUNK_SIZE.

(** The scan from a pair [(minH, maxH)]: it goes through when every cell
    is inside the chunk, and then holds the least and the greatest of
    [minH], [maxH] and the heights read. *)
Lemma scanArea_some heightmap cells minH maxH :
  minH <= maxH ->
  (exists p, p ∈ cells /\ ~ cellInside p)
  /\ scanArea heightmap cells (Some (minH, maxH)) = None
  \/ exists minH' maxH',
       scanArea heightmap cells (Some (minH, maxH)) = Some (Some (minH', maxH'))
       /\ (forall p, p ∈ cells -> cellInside p
             /\ minH' <= hmGet heightmap p.1 p.2 <= maxH')
       /\ minH' <= minH /\ maxH <= maxH'
       /\ (minH' = minH \/ exists p, p ∈ cells /\ hmGet heightmap p.1 p.2 = minH')
       /\ (maxH' = maxH \/ exists p, p ∈ cells /\ hmGet heightmap p.1 p.2 = maxH').
Proof.
  revert minH maxH. induction cells as [|[x z] cells IH]; intros minH maxH Hle.
  - right. exists minH, maxH. simpl. split; [done|]. split.
    { intros p Hp. by apply elem_of_nil in Hp. }
    repeat split; try lia; by left.
  - cbn [scanArea].
    destruct ((x <? 0) || (CHUNK_SIZE <=? x) || (z <? 0) || (CHUNK_SIZE <=? z)) eqn:Hout.
    + left. split; [|done]. exists (x, z). split; [by left|].
      unfold cellInside. simpl. revert Hout. zcases; intros; try discriminate; lia.
    + assert (cellInside (x, z)) as Hin.
      { unfold cellInside. simpl. revert Hout. zcases; intros; try discriminate; lia. }
      set (h := hmGet heightmap x z).
      set (mn := if h <? minH then h else minH).
      set (mx := if maxH <? h then h else maxH).
      assert (mn <= minH /\ mn <= h /\ maxH <= mx /\ h <= mx /\ mn <= mx
              /\ (mn = minH \/ mn = h) /\ (mx = maxH \/ mx = h)) as Hm.
      { unfold mn, mx. zcases; lia. }
      destruct (IH mn mx) as [[(p & Hp & Hbad) Heq] | (mn' & mx' & Heq & Hall & H1 & H2 & H3 & H4)];
        [lia| |].
      * left. split; [|done]. exists p. split; [by right|done].
      * right. exists mn', mx'. split; [done|]. split.
        { intros p Hp. apply elem_of_cons in Hp as [-> | Hp]; [|by apply Hall].
          split; [done|]. simpl. fold h. lia. }
        split; [lia|]. split; [lia|]. split.
        { destruct H3 as [-> | (p & Hp & Hhp)].
          - destruct Hm as (_ & _ & _ & _ & _ & [-> | ->] & _); [by left|].
            right. exists (x, z). split; [by left|done].
          - right. exists p. split; [by right|done]. }
        { destruct H4 as [-> | (p & Hp & Hhp)].
          - destruct Hm as (_ & _ & _ & _ & _ & _ & [-> | ->]); [by left|].
            right. exists (x, z). split; [by left|done].
          - right. exists p. split; [by right|done]. }
Qed.

(** [isFlatArea] decides [flatWithin]. *)
Lemma isFlatArea_spec heightmap startX startZ width depth tol :
  0 <= tol ->
  isFlatArea heightmap startX startZ width depth tol = true <->
  flatWithin heightmap startX startZ width depth tol.
Proof.
  intros Htol. unfold isFlatArea, flatWithin.
  remember (areaCells startX startZ width depth) as cells eqn:Hcells.
  assert (forall x z, (x, z) ∈ cells <->
            startX <= x < startX + width /\ startZ <= z < startZ + depth) as Hmem.
  { intros x z. subst cells. apply elem_of_areaCells. }
  clear Hcells.
  destruct cells as [|[x0 z0] cells].
  { simpl. split; [|done]. intros _. split.
    - intros x z Hx Hz. exfalso. eapply elem_of_nil. apply Hmem. eauto.
    - intros x1 z1 x2 z2 Hx1 Hz1 _ _. exfalso. eapply elem_of_nil. apply Hmem. eauto. }
  cbn [scanArea].
  destruct ((x0 <? 0) || (CHUNK_SIZE <=? x0) || (z0 <? 0) || (CHUNK_SIZE <=? z0)) eqn:Hout.
  { split; [done|]. intros [Hin _]. exfalso.
    destruct (proj1 (Hmem x0 z0)) as [? ?]; [by left|].
    destruct (Hin x0 z0) as [? ?]; [done..|].
    revert Hout. zcases; intros; try discriminate; lia. }
  assert (cellInside (x0, z0)) as Hin0.
  { unfold cellInside. simpl. revert Hout. zcases; intros; try discriminate; lia. }
  set (h0 := hmGet heightmap x0 z0).
  destruct (scanArea_some heightmap cells h0 h0)
    as [[(p & Hp & Hbad) ->] | (mn & mx & -> & Hall & H1 & H2 & H3 & H4)]; [lia| |].
  - split; [done|]. intros [Hin _]. exfalso. apply Hbad. destruct p as [x z].
    destruct (proj1 (Hmem x z)) as [? ?]; [by right|].
    unfold cellInside. simpl. by apply Hin.
  - rewrite Z.leb_le. split.
    + intros Hflat. split.
      * intros x z Hx Hz.
        assert ((x, z) ∈ (x0, z0) :: cells) as Hxz by (apply Hmem; done).
        apply elem_of_cons in Hxz as [Heq | Hxz].
        { inversion Heq; subst. apply Hin0. }
        apply (Hall (x, z) Hxz).
      * assert (forall x z, (x, z) ∈ (x0, z0) :: cells -> mn <= hmGet heightmap x z <= mx)
          as Hbound.
        { intros x z Hxz. apply elem_of_cons in Hxz as [Heq | Hxz].
          - inversion Heq; subst. fold h0. lia.
          - apply (Hall (x, z) Hxz). }
        intros x1 z1 x2 z2 Hx1 Hz1 Hx2 Hz2.
        pose proof (Hbound x1 z1 (proj2 (Hmem x1 z1) (conj Hx1 Hz1))).
        pose proof (Hbound x2 z2 (proj2 (Hmem x2 z2) (conj Hx2 Hz2))).
        lia.
    + intros [_ Hdiff].
      assert (exists x z, (x, z) ∈ (x0, z0) :: cells /\ hmGet heightmap x z = mx)
        as (x1 & z1 & Hm1 & <-).
      { destruct H4 as [-> | ([x z] & Hp & Hh)].
        - exists x0, z0. split; [by left|done].
        - exists x, z. split; [by right|done]. }
      assert (exists x z, (x, z) ∈ (x0, z0) :: cells /\ hmGet heightmap x z = mn)
        as (x2 & z2 & Hm2 & <-).
      { destruct H3 as [-> | ([x z] & Hp & Hh)].
        - exists x0, z0. split; [by left|done].
        - exists x, z. split; [by right|done]. }
      apply Hmem in Hm1, Hm2. apply Hdiff; tauto.
Qed.

(** The sites the well and the cabin draw from a generator. *)
Definition wellSite (rng : Rng.t) : Z * Z :=
  let '(u1, rng) := Rng.next rng in
  let '(u2, rng) := Rng.next rng in
  (3 + Rng.floorMul u1 5, 3 + Rng.floorMul u2 5).

Definition cabinSite (rng : Rng.t) : Z * Z :=
  let '(u1, rng) := Rng.next rng in
  let '(u2, rng) := Rng.next rng in
  (2 + Rng.floorMul u1 5, 2 + Rng.floorMul u2 7).

Lemma tryPlaceDesertWell_flat chunk heightmap rng :
  let r := tryPlaceDesertWell chunk heightmap rng in
  let '(sx, sz) := wellSite rng in
  r.2 = advance 2 rng
  /\ r.1.2 = isFlatArea heightmap sx sz 5 5 1
  /\ (r.1.2 = false -> r.1.1 = chunk).
Proof.
  unfold tryPlaceDesertWell, wellSite. cbn [advance].
  destruct (Rng.next rng) as [u1 r1]. cbn [fst snd].
  destruct (Rng.next r1) as [u2 r2]. cbn [fst snd].
  replace (CHUNK_SIZE - 5 - 6) with 5 by reflexivity.
  destruct (isFlatArea heightmap _ _ 5 5 1); cbn [negb fst snd]; done.
Qed.

Lemma tryPlaceCabin_flat chunk heightmap rng :
  let r := tryPlaceCabin chunk heightmap rng in
  let '(sx, sz) := cabinSite rng in
  r.2 = advance 2 rng
  /\ r.1.2 = isFlatArea heightmap sx sz 7 5 2
  /\ (r.1.2 = false -> r.1.1 = chunk).
Proof.
  unfold tryPlaceCabin, cabinSite. cbn [advance].
  destruct (Rng.next rng) as [u1 r1]. cbn [fst snd].
  destruct (Rng.next r1) as [u2 r2]. cbn [fst snd].
  replace (CHUNK_SIZE - 7 - 4) with 5 by reflexivity.
  replace (CHUNK_SIZE - 5 - 4) with 7 by reflexivity.
  destruct (isFlatArea heightmap _ _ 7 5 2); cbn [negb fst snd]; done.
Qed.

Lemma tryPlaceDesertWell_cases chunk heightmap srng :
  let '(sx, sz) := wellSite srng in
  (flatWithin heightmap sx sz 5 5 1
   /\ exists c', tryPlaceDesertWell chunk heightmap srng = (c', true, advance 2 srng))
  \/ (~ flatWithin heightmap sx sz 5 5 1
      /\ tryPlaceDesertWell chunk heightmap srng = (chunk, false, advance 2 srng)).
Proof.
  pose proof (tryPlaceDesertWell_flat chunk heightmap srng) as H.
  cbn zeta in H. destruct (wellSite srng) as [sx sz].
  destruct (tryPlaceDesertWell chunk heightmap srng) as [[c' ok] r'].
  cbn [fst snd] in H. destruct H as (-> & -> & Hc).
  pose proof (isFlatArea_spec heightmap sx sz 5 5 1 ltac:(lia)) as Hspec.
  destruct (isFlatArea heightmap sx sz 5 5 1).
  - left. split; [by apply Hspec|]. by exists c'.
  - right. split; [|by rewrite Hc].
    intros Hf. apply Hspec in Hf. discriminate.
Qed.

Lemma tryPlaceCabin_cases chunk heightmap srng :
  let '(sx, sz) := cabinSite srng in
  (flatWithin heightmap sx sz 7 5 2
   /\ exists c', tryPlaceCabin chunk heightmap srng = (c', true, advance 2 srng))
  \/ (~ flatWithin heightmap sx sz 7 5 2
      /\ tryPlaceCabin chunk heightmap srng = (chunk, false, advance 2 srng)).
Proof.
  pose proof (tryPlaceCabin_flat chunk heightmap srng) as H.
  cbn zeta in H. destruct (cabinSite srng) as [sx sz].
  destruct (tryPlaceCabin chunk heightmap srng) as [[c' ok] r'].
  cbn [fst snd] in H. destruct H as (-> & -> & Hc).
  pose proof (isFlatArea_spec heightmap sx sz 7 5 2 ltac:(lia)) as Hspec.
  destruct (isFlatArea heightmap sx sz 7 5 2).
  - left. split; [by apply Hspec|]. by exists c'.
  - right. split; [|by rewrite Hc].
    intros Hf. apply Hspec in Hf. discriminate.
Qed.

Lemma tryPlaceDungeon_cases chunk srng :
  (exists srng', tryPlaceDungeon chunk srng = (chunk, false, srng'))
  \/ (exists c' srng', tryPlaceDungeon chunk srng = (c', true, srng')).
Proof.
  unfold tryPlaceDungeon.
  destruct (tryPlaceDungeonFrom_spec 5 chunk srng) as [[H _] | (k & _ & _ & _ & H)].
  - left. eauto.
  - right. eauto.
Qed.

Lemma dungeon_tail chunk (rng srng : Rng.t) :
  let r := (let '(u, srng') := Rng.next srng in
            if Rng.lt u 5 100 then ((tryPlaceDungeon chunk srng').1.1, rng)
            else (chunk, rng)).1 in
  r = chunk \/ exists srng0 srng', tryPlaceDungeon chunk srng0 = (r, true, srng').
Proof.
  destruct (Rng.next srng) as [u srng'].
  destruct (Rng.lt u 5 100); [|by left].
  destruct (tryPlaceDungeon_cases chunk srng') as [[s' Hs] | (c' & s' & Hs)].
  - left. rewrite Hs. reflexivity.
  - right. exists srng', s'. rewrite Hs. reflexivity.
Qed.

Lemma cabin_tail chunk heightmap (centerBiome : Biome) (rng srng : Rng.t) :
  let r := (let '(chunk', placed, srng') :=
              if biome_eqb centerBiome PLAINS || biome_eqb centerBiome FOREST then
                let '(u, srng') := Rng.next srng in
                if Rng.lt u 2 100 then tryPlaceCabin chunk heightmap srng'
                else (chunk, false, srng')
              else (chunk, false, srng) in
            if placed then (chunk', rng)
            else let '(u, srng'') := Rng.next srng' in
                 if Rng.lt u 5 100 then ((tryPlaceDungeon chunk' srng'').1.1, rng)
                 else (chunk', rng)).1 in
  r = chunk
  \/ (exists srng0, let '(sx, sz) := cabinSite srng0 in
        flatWithin heightmap sx sz 7 5 2
        /\ tryPlaceCabin chunk heightmap srng0 = (r, true, advance 2 srng0))
  \/ (exists srng0 srng', tryPlaceDungeon chunk srng0 = (r, true, srng')).
Proof.
  destruct (biome_eqb centerBiome PLAINS || biome_eqb centerBiome FOREST).
  2:{ destruct (dungeon_tail chunk rng srng) as [H | H]; [by left | by right; right]. }
  destruct (Rng.next srng) as [u srng1].
  destruct (Rng.lt u 2 100).
  2:{ destruct (dungeon_tail chunk rng srng1) as [H | H]; [by left | by right; right]. }
  pose proof (tryPlaceCabin_cases chunk heightmap srng1) as Hcabin.
  destruct (cabinSite srng1) as [sx sz] eqn:Esite.
  destruct Hcabin as [[Hf [c' Heq]] | [_ Heq]]; rewrite Heq.
  - right. left. exists srng1. rewrite Esite. split; [done|]. rewrite Heq. reflexivity.
  - destruct (dungeon_tail chunk rng (advance 2 srng1)) as [H | H];
      [by left | by right; right].
Qed.

(** C6: [placeStructures] leaves the chunk as it was, or with exactly one
    of: a desert well, a cabin, a dungeon, built on the chunk it was
    given.  A well or a cabin is built only on a footprint that is flat
    (within 1 for the 5x5 well, within 2 for the 7x5 cabin); where the
    footprint is not flat, the attempt returns [false] and the chunk it
    was given. *)
Theorem placeStructures_at_most_one seed chunk heightmap biomeMap worldX worldZ rng :
  let result := (placeStructures seed chunk heightmap biomeMap worldX worldZ rng).1 in
  (result = chunk
   \/ (exists srng, let '(sx, sz) := wellSite srng in
         flatWithin heightmap sx sz 5 5 1
         /\ tryPlaceDesertWell chunk heightmap srng = (result, true, advance 2 srng))
   \/ (exists srng, let '(sx, sz) := cabinSite srng in
         flatWithin heightmap sx sz 7 5 2
         /\ tryPlaceCabin chunk heightmap srng = (result, true, advance 2 srng))
   \/ (exists srng srng', tryPlaceDungeon chunk srng = (result, true, srng')))
  /\ (forall srng, let '(sx, sz) := wellSite srng in
        ~ flatWithin heightmap sx sz 5 5 1 ->
        tryPlaceDesertWell chunk heightmap srng = (chunk, false, advance 2 srng))
  /\ (forall srng, let '(sx, sz) := cabinSite srng in
        ~ flatWithin heightmap sx sz 7 5 2 ->
        tryPlaceCabin chunk heightmap srng = (chunk, false, advance 2 srng)).
Proof.
  intros result. split; [|split].
  2:{ intros srng. pose proof (tryPlaceDesertWell_cases chunk heightmap srng) as H.
      destruct (wellSite srng) as [sx sz].
      intros Hn. destruct H as [[Hf _] | [_ Heq]]; [done|exact Heq]. }
  2:{ intros srng. pose proof (tryPlaceCabin_cases chunk heightmap srng) as H.
      destruct (cabinSite srng) as [sx sz].
      intros Hn. destruct H as [[Hf _] | [_ Heq]]; [done|exact Heq]. }
  subst result. unfold placeStructures.
  generalize (structureRng seed worldX worldZ) as structRng.
  generalize (BiomeMap.getBiome biomeMap (worldX + 8) (worldZ + 8)) as centerBiome.
  intros centerBiome structRng.
  destruct (biome_eqb centerBiome DESERT).
  2:{ destruct (cabin_tail chunk heightmap centerBiome rng structRng) as [H | [H | H]];
        tauto. }
  destruct (Rng.next structRng) as [u srng1].
  destruct (Rng.lt u 3 100).
  2:{ destruct (cabin_tail chunk heightmap centerBiome rng srng1) as [H | [H | H]];
        tauto. }
  pose proof (tryPlaceDesertWell_cases chunk heightmap srng1) as Hwell.
  destruct (wellSite srng1) as [sx sz] eqn:Esite.
  destruct Hwell as [[Hf [c' Heq]] | [_ Heq]]; rewrite Heq.
  - right. left. exists srng1. rewrite Esite. split; [done|]. rewrite Heq. reflexivity.
  - destruct (cabin_tail chunk heightmap centerBiome rng (advance 2 srng1))
      as [H | [H | H]]; tauto.
Qed.

End StructureFacts.


(** ** Passes read the grid only through its cells *)

(** Two runs of a pass on chunks that hold the same grid stay in step:
    the pass reads a chunk through [getBlock] and writes it through
    [setBlock], so the grids it leaves are the same, and so is every
    number it draws. *)

Abbreviation same_grid := Chunk.same_grid.

Lemma same_grid_refl c : same_grid c c.
Proof. by repeat split. Qed.

Lemma same_grid_sym c1 c2 : same_grid c1 c2 -> same_grid c2 c1.
Proof. intros (? & ? & H). split; [done|]. split; [done|]. intros x y z. by rewrite H. Qed.

Lemma same_grid_trans c1 c2 c3 : same_grid c1 c2 -> same_grid c2 c3 -> same_grid c1 c3.
Proof.
  intros (? & ? & H1) (? & ? & H2). split; [congruence|]. split; [congruence|].
  intros x y z. by rewrite H1, H2.
Qed.

Lemma getBlock_same c1 c2 x y z : same_grid c1 c2 -> getBlock c1 x y z = getBlock c2 x y z.
Proof. intros (_ & _ & H). apply H. Qed.

Lemma setBlock_same c1 c2 x y z b :
  same_grid c1 c2 -> same_grid (setBlock c1 x y z b) (setBlock c2 x y z b).
Proof.
  intros (Hx & Hz & H). split; [by rewrite !cx_setBlock|]. split; [by rewrite !cz_setBlock|].
  intros x' y' z'. rewrite !getBlock_setBlock. by rewrite H.
Qed.

(** States of a pass that threads a generator, or a flag and a
    generator, beside the chunk. *)
Definition same_state (s1 s2 : Chunk * Rng.t) : Prop :=
  same_grid s1.1 s2.1 /\ s1.2 = s2.2.

Definition same_outcome (s1 s2 : Chunk * bool * Rng.t) : Prop :=
  same_grid s1.1.1 s2.1.1 /\ s1.1.2 = s2.1.2 /\ s1.2 = s2.2.

Lemma same_state_intro c1 c2 (rng : Rng.t) :
  same_grid c1 c2 -> same_state (c1, rng) (c2, rng).
Proof. intros H. split; [exact H | reflexivity]. Qed.

Lemma same_outcome_intro c1 c2 (placed : bool) (rng : Rng.t) :
  same_grid c1 c2 -> same_outcome (c1, placed, rng) (c2, placed, rng).
Proof. intros H. split; [exact H | split; reflexivity]. Qed.

Lemma same_state_fst s1 s2 : same_state s1 s2 -> same_grid s1.1 s2.1.
Proof. intros [H _]. exact H. Qed.

Section LoopsInStep.
Context {S : Type} (R : S -> S -> Prop).

Lemma for_range_in_step lo hi (body1 body2 : Z -> S -> S) s1 s2 :
  R s1 s2 ->
  (forall i t1 t2, lo <= i < hi -> R t1 t2 -> R (body1 i t1) (body2 i t2)) ->
  R (Loop.for_range lo hi body1 s1) (Loop.for_range lo hi body2 s2).
Proof.
  intros H0 Hstep. destruct (Z_le_gt_dec lo hi) as [Hle|Hgt].
  2:{ by rewrite !for_range_empty by lia. }
  assert (forall n : nat, lo + Z.of_nat n <= hi ->
            R (Loop.for_range lo (lo + Z.of_nat n) body1 s1)
              (Loop.for_range lo (lo + Z.of_nat n) body2 s2)) as Hn.
  { induction n as [|n IH]; intros Hb.
    - by rewrite !for_range_empty by lia.
    - rewrite !(for_range_last lo (lo + Z.of_nat (Datatypes.S n))) by lia.
      replace (lo + Z.of_nat (Datatypes.S n) - 1) with (lo + Z.of_nat n) by lia.
      apply Hstep; [lia|]. apply IH. lia. }
  specialize (Hn (Z.to_nat (hi - lo))).
  replace (lo + Z.of_nat (Z.to_nat (hi - lo))) with hi in Hn by lia.
  apply Hn. lia.
Qed.

Lemma for_break_list_in_step l (body1 body2 : Z -> S -> option S) s1 s2 :
  R s1 s2 ->
  (forall i t1 t2, i ∈ l -> R t1 t2 ->
      match body1 i t1, body2 i t2 with
      | Some u1, Some u2 => R u1 u2
      | None, None => True
      | _, _ => False
      end) ->
  R (Loop.for_break_list l body1 s1) (Loop.for_break_list l body2 s2).
Proof.
  revert s1 s2. induction l as [|i l IH]; intros s1 s2 H0 Hstep; [done|].
  cbn [Loop.for_break_list].
  pose proof (Hstep i s1 s2 ltac:(by left) H0) as Hi.
  destruct (body1 i s1) as [u1|], (body2 i s2) as [u2|]; try done.
  apply IH; [done|]. intros j t1 t2 Hj. apply Hstep. by right.
Qed.

Lemma for_break_in_step lo hi (body1 body2 : Z -> S -> option S) s1 s2 :
  R s1 s2 ->
  (forall i t1 t2, lo <= i < hi -> R t1 t2 ->
      match body1 i t1, body2 i t2 with
      | Some u1, Some u2 => R u1 u2
      | None, None => True
      | _, _ => False
      end) ->
  R (Loop.for_break lo hi body1 s1) (Loop.for_break lo hi body2 s2).
Proof.
  intros H0 Hstep. unfold Loop.for_break. apply for_break_list_in_step; [done|].
  intros i t1 t2 Hi. apply Hstep. apply elem_of_seqZ in Hi. lia.
Qed.

End LoopsInStep.

(** One step of a proof that two runs stay in step. *)
Ltac in_step :=
  match goal with
  | |- same_grid ?c ?c => apply same_grid_refl
  | H : same_grid ?a ?b |- same_grid ?a ?b => exact H
  | H : same_grid ?c1 ?c2 |- context [getBlock ?c1 ?x ?y ?z] =>
      rewrite (getBlock_same c1 c2 x y z H)
  | |- same_grid (setBlock _ _ _ _ _) (setBlock _ _ _ _ _) => apply setBlock_same
  | |- same_grid (Loop.for_range _ _ _ _) (Loop.for_range _ _ _ _) =>
      apply (for_range_in_step same_grid); [|intros ? ? ? ? ?]
  | |- same_grid (if ?b then _ else _) (if ?b then _ else _) => destruct b
  | |- same_grid (let x := _ in _) _ => cbv zeta
  end.



Section StructuresInStep.
Import StructureGenerator.

Lemma tryPlaceDesertWell_same c1 c2 heightmap rng :
  same_grid c1 c2 ->
  same_outcome (tryPlaceDesertWell c1 heightmap rng) (tryPlaceDesertWell c2 heightmap rng).
Proof.
  intros H. unfold tryPlaceDesertWell. cbv zeta.
  destruct (Rng.next rng) as [u1 r1]. destruct (Rng.next r1) as [u2 r2].
  destruct (negb _); apply same_outcome_intro; [done|].
  repeat in_step.
Qed.

Lemma tryPlaceCabin_same c1 c2 heightmap rng :
  same_grid c1 c2 ->
  same_outcome (tryPlaceCabin c1 heightmap rng) (tryPlaceCabin c2 heightmap rng).
Proof.
  intros H. unfold tryPlaceCabin. cbv zeta.
  destruct (Rng.next rng) as [u1 r1]. destruct (Rng.next r1) as [u2 r2].
  destruct (negb _); apply same_outcome_intro; [done|].
  repeat in_step.
Qed.

Lemma buildDungeon_same c1 c2 sx sy sz W H :
  same_grid c1 c2 -> same_grid (buildDungeon c1 sx sy sz W H) (buildDungeon c2 sx sy sz W H).
Proof. intros Hc. unfold buildDungeon. cbv zeta. repeat in_step. Qed.

Lemma tryPlaceDungeonFrom_same n c1 c2 rng :
  same_grid c1 c2 ->
  same_outcome (tryPlaceDungeonFrom n c1 rng) (tryPlaceDungeonFrom n c2 rng).
Proof.
  intros H. revert rng. induction n as [|n IH]; intros rng.
  - by apply same_outcome_intro.
  - rewrite !tryPlaceDungeonFrom_step. unfold probesPass, buildDungeonAt.
    destruct (dungeonCandidate rng) as [[sx sy] sz].
    rewrite !(getBlock_same c1 c2 _ _ _ H).
    destruct (_ && _); [|apply IH].
    apply same_outcome_intro. by apply buildDungeon_same.
Qed.

Lemma placeStructures_same seed c1 c2 heightmap biomeMap worldX worldZ rng :
  same_grid c1 c2 ->
  same_state (placeStructures seed c1 heightmap biomeMap worldX worldZ rng)
             (placeStructures seed c2 heightmap biomeMap worldX worldZ rng).
Proof.
  intros H. unfold placeStructures.
  generalize (structureRng seed worldX worldZ) as structRng.
  generalize (BiomeMap.getBiome biomeMap (worldX + 8) (worldZ + 8)) as centerBiome.
  intros centerBiome structRng.
  assert (forall srng a1 a2, same_grid a1 a2 ->
    same_state
      (let '(u, srng') := Rng.next srng in
       if Rng.lt u 5 100 then ((tryPlaceDungeon a1 srng').1.1, rng) else (a1, rng))
      (let '(u, srng') := Rng.next srng in
       if Rng.lt u 5 100 then ((tryPlaceDungeon a2 srng').1.1, rng) else (a2, rng)))
    as Htail.
  { intros srng a1 a2 Ha. destruct (Rng.next srng) as [u srng'].
    destruct (Rng.lt u 5 100); [|by apply same_state_intro].
    pose proof (tryPlaceDungeonFrom_same 5 a1 a2 srng' Ha) as Hd.
    unfold tryPlaceDungeon.
    destruct (tryPlaceDungeonFrom 5 a1 srng') as [[d1 ok1] s1].
    destruct (tryPlaceDungeonFrom 5 a2 srng') as [[d2 ok2] s2].
    destruct Hd as (Hd & _ & _). by apply same_state_intro. }
  assert (forall srng a1 a2, same_grid a1 a2 ->
    same_state
      (let '(chunk', placed, srng') :=
         if biome_eqb centerBiome PLAINS || biome_eqb centerBiome FOREST then
           let '(u, srng') := Rng.next srng in
           if Rng.lt u 2 100 then tryPlaceCabin a1 heightmap srng'
           else (a1, false, srng')
         else (a1, false, srng) in
       if placed then (chunk', rng)
       else let '(u, srng'') := Rng.next srng' in
            if Rng.lt u 5 100 then ((tryPlaceDungeon chunk' srng'').1.1, rng)
            else (chunk', rng))
      (let '(chunk', placed, srng') :=
         if biome_eqb centerBiome PLAINS || biome_eqb centerBiome FOREST then
           let '(u, srng') := Rng.next srng in
           if Rng.lt u 2 100 then tryPlaceCabin a2 heightmap srng'
           else (a2, false, srng')
         else (a2, false, srng) in
       if placed then (chunk', rng)
       else let '(u, srng'') := Rng.next srng' in
            if Rng.lt u 5 100 then ((tryPlaceDungeon chunk' srng'').1.1, rng)
            else (chunk', rng))) as Hmid.
  { intros srng a1 a2 Ha.
    destruct (biome_eqb centerBiome PLAINS || biome_eqb centerBiome FOREST);
      [|by apply Htail].
    destruct (Rng.next srng) as [u srng1].
    destruct (Rng.lt u 2 100); [|by apply Htail].
    pose proof (tryPlaceCabin_same a1 a2 heightmap srng1 Ha) as Hc.
    destruct (tryPlaceCabin a1 heightmap srng1) as [[d1 ok1] s1].
    destruct (tryPlaceCabin a2 heightmap srng1) as [[d2 ok2] s2].
    destruct Hc as (Hd & Hok & Hs). cbn [fst snd] in Hd, Hok, Hs. subst ok2 s2.
    destruct ok1; [by apply same_state_intro|]. by apply Htail. }
  destruct (biome_eqb centerBiome DESERT); [|by apply Hmid].
  destruct (Rng.next structRng) as [u srng1].
  destruct (Rng.lt u 3 100); [|by apply Hmid].
  pose proof (tryPlaceDesertWell_same c1 c2 heightmap srng1 H) as Hc.
  destruct (tryPlaceDesertWell c1 heightmap srng1) as [[d1 ok1] s1].
  destruct (tryPlaceDesertWell c2 heightmap srng1) as [[d2 ok2] s2].
  destruct Hc as (Hd & Hok & Hs). cbn [fst snd] in Hd, Hok, Hs. subst ok2 s2.
  destruct ok1; [by apply same_state_intro|]. by apply Hmid.
Qed.

Lemma hasClearNeighbours_same c1 c2 lx y lz :
  same_grid c1 c2 -> hasClearNeighbours c1 lx y lz = hasClearNeighbours c2 lx y lz.
Proof.
  intros H. unfold hasClearNeighbours. cbv zeta. cbn [forallb].
  rewrite !(getBlock_same c1 c2 _ _ _ H). reflexivity.
Qed.

Lemma decorateBiome_same (biome : Biome) c1 c2 lx y lz rng :
  same_grid c1 c2 ->
  same_state
    (match biome with
     | PLAINS => decoratePlains c1 lx y lz rng
     | FOREST => decorateForest c1 lx y lz rng
     | DESERT => decorateDesert c1 lx y lz rng
     | TAIGA => decorateTaiga c1 lx y lz rng
     | TUNDRA => decorateTundra c1 lx y lz rng
     | JUNGLE => decorateJungle c1 lx y lz rng
     | SWAMP => decorateSwamp c1 lx y lz rng
     | _ => (c1, rng)
     end)
    (match biome with
     | PLAINS => decoratePlains c2 lx y lz rng
     | FOREST => decorateForest c2 lx y lz rng
     | DESERT => decorateDesert c2 lx y lz rng
     | TAIGA => decorateTaiga c2 lx y lz rng
     | TUNDRA => decorateTundra c2 lx y lz rng
     | JUNGLE => decorateJungle c2 lx y lz rng
     | SWAMP => decorateSwamp c2 lx y lz rng
     | _ => (c2, rng)
     end).
Proof.
  intros H.
  destruct biome;
    unfold decoratePlains, decorateForest, decorateDesert, decorateTaiga,
      decorateTundra, decorateJungle, decorateSwamp;
    try (by apply same_state_intro);
    destruct (Rng.next rng) as [roll r1].
  - (* plains *)
    destruct (Rng.lt roll 30 100); [apply same_state_intro; by apply setBlock_same|].
    destruct (Rng.lt roll 33 100); [|by apply same_state_intro].
    destruct (Rng.next r1) as [u r2]. apply same_state_intro. by apply setBlock_same.
  - (* forest *)
    destruct (Rng.lt roll 35 100); [apply same_state_intro; by apply setBlock_same|].
    destruct (Rng.lt roll 43 100); [|by apply same_state_intro].
    destruct (Rng.next r1) as [u r2]. apply same_state_intro. by apply setBlock_same.
  - (* desert *)
    destruct (Rng.ge roll 2 100); [by apply same_state_intro|].
    rewrite (hasClearNeighbours_same c1 c2 lx y lz H).
    destruct (negb _); [by apply same_state_intro|].
    destruct (Rng.next r1) as [u r2]. apply same_state_intro.
    apply (for_break_in_step same_grid); [done|].
    intros dy t1 t2 _ Ht. destruct (256 <=? y + dy); [done|]. by apply setBlock_same.
  - (* taiga *)
    destruct (Rng.lt roll 15 100); apply same_state_intro; [by apply setBlock_same|done].
  - (* tundra *)
    destruct (Rng.lt roll 2 100); apply same_state_intro; [by apply setBlock_same|done].
  - (* jungle *)
    destruct (Rng.lt roll 40 100); [apply same_state_intro; by apply setBlock_same|].
    destruct (Rng.lt roll 50 100); [|by apply same_state_intro].
    destruct (Rng.next r1) as [u r2]. apply same_state_intro. by apply setBlock_same.
  - (* swamp *)
    destruct (Rng.lt roll 25 100); [apply same_state_intro; by apply setBlock_same|].
    destruct (Rng.lt roll 28 100); apply same_state_intro; [by apply setBlock_same|done].
Qed.

Lemma decorateColumn_same heightmap biomeMap worldX worldZ lx lz c1 c2 rng :
  same_grid c1 c2 ->
  same_state (decorateColumn heightmap biomeMap worldX worldZ lx lz c1 rng)
             (decorateColumn heightmap biomeMap worldX worldZ lx lz c2 rng).
Proof.
  intros H. unfold decorateColumn. cbv zeta.
  destruct (256 <=? _); [by apply same_state_intro|].
  rewrite (getBlock_same c1 c2 _ _ _ H).
  destruct (negb _); [by apply same_state_intro|].
  by apply decorateBiome_same.
Qed.

Lemma decorateColumns_same c1 c2 heightmap biomeMap worldX worldZ rng :
  same_grid c1 c2 ->
  same_state (decorateColumns c1 heightmap biomeMap worldX worldZ rng)
             (decorateColumns c2 heightmap biomeMap worldX worldZ rng).
Proof.
  intros H. unfold decorateColumns.
  apply (for_range_in_step same_state); [by apply same_state_intro|].
  intros lx s1 s2 _ Hs.
  apply (for_range_in_step same_state); [done|].
  intros lz [t1 r1] [t2 r2] _ [Ht Hr]. cbn [fst snd] in Ht, Hr. subst r2.
  by apply decorateColumn_same.
Qed.

Lemma structures_generate_same seed c1 c2 heightmap biomeMap worldX worldZ :
  same_grid c1 c2 ->
  same_grid (generate seed c1 heightmap biomeMap worldX worldZ)
            (generate seed c2 heightmap biomeMap worldX worldZ).
Proof.
  intros H. unfold generate. cbv zeta.
  pose proof (placeStructures_same seed c1 c2 heightmap biomeMap worldX worldZ
                (chunkRng seed worldX worldZ) H) as Hp.
  destruct (placeStructures seed c1 _ _ _ _ _) as [d1 r1].
  destruct (placeStructures seed c2 _ _ _ _ _) as [d2 r2].
  destruct Hp as [Hd Hr]. cbn [fst snd] in Hd, Hr. subst r2.
  apply same_state_fst. by apply decorateColumns_same.
Qed.

End StructuresInStep.

(** ** Determinism of the pipeline *)

Section Determinism.
Import TerrainGenerator.
Variable SEA_LEVEL : Z.

(** A chunk holds blocks at cells of the chunk only: so do the empty chunk
    and every chunk written through [setBlock]. *)
Definition wellFormed (c : Chunk) : Prop :=
  forall x y z, Chunk.inBounds x y z = false -> Chunk.blocks c !! (x, y, z) = None.

(** The cell [(x, y, z)] of the chunk has been written. *)
Definition written (c : Chunk) (x y z : Z) : Prop :=
  is_Some (Chunk.blocks c !! (x, y, z)).

Lemma wellFormed_empty cx cz : wellFormed (Chunk.empty cx cz).
Proof. intros x y z _. apply lookup_empty. Qed.

Lemma wellFormed_setBlock c x y z b : wellFormed c -> wellFormed (setBlock c x y z b).
Proof.
  intros H x' y' z' Hout. unfold Chunk.setBlock.
  destruct (Chunk.inBounds x y z) eqn:Hin; [|by apply H]. simpl.
  rewrite lookup_insert_ne; [by apply H|]. intros [= -> -> ->]. congruence.
Qed.

Lemma written_setBlock c x y z b x' y' z' :
  written c x' y' z' -> written (setBlock c x y z b) x' y' z'.
Proof.
  unfold written, Chunk.setBlock. intros H.
  destruct (Chunk.inBounds x y z); [|done]. simpl.
  destruct (decide ((x, y, z) = (x', y', z'))) as [<-|Hne].
  - rewrite lookup_insert_eq. by eexists.
  - by rewrite lookup_insert_ne.
Qed.

Lemma written_setBlock_here c x y z b :
  Chunk.inBounds x y z = true -> written (setBlock c x y z b) x y z.
Proof.
  unfold written, Chunk.setBlock. intros ->. simpl. rewrite lookup_insert_eq. by eexists.
Qed.

(** A chunk to which [fillColumn] has been applied for every column
    before [(lx, lz)] in the order of the loops of [buildTerrain]. *)
Definition filledBefore (c0 c : Chunk) (lx lz : Z) : Prop :=
  Chunk.cx c = Chunk.cx c0 /\ Chunk.cz c = Chunk.cz c0 /\ wellFormed c
  /\ forall x y z, Chunk.inBounds x y z = true ->
       x < lx \/ (x = lx /\ z < lz) -> written c x y z.

Lemma fillColumn_filled c0 c lx lz h biome :
  0 <= lx -> 0 <= lz ->
  filledBefore c0 c lx lz ->
  filledBefore c0 (fillColumn SEA_LEVEL c lx lz h biome) lx (lz + 1).
Proof.
  intros Hlx Hlz (Hcx & Hcz & Hwf & Hw). unfold fillColumn.
  assert (forall n, 0 <= n ->
    let c' := Loop.for_range 0 n (fun y chunk =>
                setBlock chunk lx y lz (columnBlock SEA_LEVEL h biome y)) c in
    Chunk.cx c' = Chunk.cx c0 /\ Chunk.cz c' = Chunk.cz c0 /\ wellFormed c'
    /\ forall x y z, Chunk.inBounds x y z = true ->
         x < lx \/ (x = lx /\ z < lz) \/ (x = lx /\ z = lz /\ y < n) ->
         written c' x y z) as Hloop.
  { intros n Hn. cbv zeta.
    apply (for_range_inv (fun i c' =>
      Chunk.cx c' = Chunk.cx c0 /\ Chunk.cz c' = Chunk.cz c0 /\ wellFormed c'
      /\ forall x y z, Chunk.inBounds x y z = true ->
           x < lx \/ (x = lx /\ z < lz) \/ (x = lx /\ z = lz /\ y < i) ->
           written c' x y z)); [done| |].
    - split; [done|]. split; [done|]. split; [done|].
      intros x y z Hin [H | [H | H]]; [apply Hw; auto | apply Hw; auto | ].
      apply inBounds_spec in Hin. lia.
    - intros i c' Hi (Icx & Icz & Iwf & Iw).
      split; [by rewrite cx_setBlock|]. split; [by rewrite cz_setBlock|].
      split; [by apply wellFormed_setBlock|].
      intros x y z Hin Hcell.
      destruct (decide (x = lx /\ z = lz /\ y = i)) as [(-> & -> & ->)|Hne].
      + by apply written_setBlock_here.
      + apply written_setBlock. apply Iw; [done|]. lia. }
  destruct (Hloop CHUNK_HEIGHT ltac:(done)) as (Hcx' & Hcz' & Hwf' & Hw').
  split; [done|]. split; [done|]. split; [done|].
  intros x y z Hin Hcell. apply Hw'; [done|].
  apply inBounds_spec in Hin. lia.
Qed.

(** [buildTerrain] writes every cell of the chunk. *)
Lemma buildTerrain_filled g c worldX worldZ :
  wellFormed c ->
  filledBefore c (buildTerrain SEA_LEVEL g c worldX worldZ).1 CHUNK_SIZE 0.
Proof.
  intros Hwf. unfold buildTerrain.
  apply (for_range_inv (fun i (st : Chunk * Heightmap) => filledBefore c st.1 i 0));
    [done| |].
  - split; [done|]. split; [done|]. split; [done|].
    intros x y z Hin Hcell. apply inBounds_spec in Hin. lia.
  - intros lx [c1 hm] Hlx Hc1. cbn [fst] in Hc1.
    match goal with
    | |- filledBefore _ (let '(chunk, row) := Loop.for_range 0 CHUNK_SIZE ?body ?s in _).1 _ _ =>
        pose proof (for_range_inv
          (fun j (st : Chunk * list Z) => filledBefore c st.1 lx j)
          0 CHUNK_SIZE body s ltac:(done) Hc1) as Hrow;
        destruct (Loop.for_range 0 CHUNK_SIZE body s) as [c2 row]
    end.
    cbn [fst] in *.
    destruct Hrow as (Hcx & Hcz & Hwf2 & Hw).
    + intros lz [c3 row3] Hlz Hc3. cbn [fst] in *. cbv zeta. cbn [fst].
      apply fillColumn_filled; [lia|lia|done].
    + split; [done|]. split; [done|]. split; [done|].
      intros x y z Hin Hcell. apply Hw; [done|].
      apply inBounds_spec in Hin. lia.
Qed.

(** Two chunks with the same coordinates, all of whose cells are written
    and hold the same blocks, are the same chunk. *)
Lemma chunk_eq c1 c2 :
  Chunk.cx c1 = Chunk.cx c2 -> Chunk.cz c1 = Chunk.cz c2 ->
  wellFormed c1 -> wellFormed c2 ->
  (forall x y z, Chunk.inBounds x y z = true -> written c1 x y z /\ written c2 x y z) ->
  (forall x y z, getBlock c1 x y z = getBlock c2 x y z) ->
  c1 = c2.
Proof.
  destruct c1 as [x1 z1 m1], c2 as [x2 z2 m2]. cbn [Chunk.cx Chunk.cz].
  intros -> -> Hwf1 Hwf2 Hw Hcells. f_equal.
  apply map_eq. intros [[x y] z].
  destruct (Chunk.inBounds x y z) eqn:Hin.
  - destruct (Hw x y z Hin) as [[b1 E1] [b2 E2]]. cbn [Chunk.blocks] in E1, E2.
    specialize (Hcells x y z). unfold Chunk.getBlock in Hcells.
    rewrite Hin in Hcells. cbn [Chunk.blocks] in Hcells.
    rewrite E1, E2 in Hcells. cbn in Hcells. by rewrite E1, E2, Hcells.
  - specialize (Hwf1 x y z Hin). specialize (Hwf2 x y z Hin).
    cbn [Chunk.blocks] in Hwf1, Hwf2. by rewrite Hwf1, Hwf2.
Qed.

(** What [buildTerrain] returns does not depend on what the chunk held. *)
Lemma buildTerrain_overwrites g c1 c2 worldX worldZ :
  wellFormed c1 -> wellFormed c2 ->
  Chunk.cx c1 = Chunk.cx c2 -> Chunk.cz c1 = Chunk.cz c2 ->
  buildTerrain SEA_LEVEL g c1 worldX worldZ = buildTerrain SEA_LEVEL g c2 worldX worldZ.
Proof.
  intros Hwf1 Hwf2 Hx Hz.
  destruct (buildTerrain_spec SEA_LEVEL g c1 worldX worldZ) as [Hc1 Hh1].
  destruct (buildTerrain_spec SEA_LEVEL g c2 worldX worldZ) as [Hc2 Hh2].
  destruct (buildTerrain_filled g c1 worldX worldZ Hwf1) as (Hx1 & Hz1 & Hf1 & Hw1).
  destruct (buildTerrain_filled g c2 worldX worldZ Hwf2) as (Hx2 & Hz2 & Hf2 & Hw2).
  cbv zeta in *.
  destruct (buildTerrain SEA_LEVEL g c1 worldX worldZ) as [d1 h1].
  destruct (buildTerrain SEA_LEVEL g c2 worldX worldZ) as [d2 h2].
  cbn [fst snd] in *. f_equal; [|congruence].
  apply chunk_eq; try done; try congruence.
  - intros x y z Hin. pose proof Hin as Hin'. apply inBounds_spec in Hin'.
    split; [apply Hw1 | apply Hw2]; try done; lia.
  - intros x y z. destruct (Chunk.inBounds x y z) eqn:Hin.
    + by rewrite Hc1, Hc2.
    + by rewrite !getBlock_outside.
Qed.

(** C5: generation is deterministic.  The chunk [generateChunk] leaves is
    a function of the generator (its seed and its noise fields) and of
    the coordinates of the chunk, and of nothing else.  Whatever two
    chunks with the same coordinates hold, fresh or used, two runs leave
    the same chunk, block for block: [buildTerrain] writes every cell
    before a pass reads one, and each later pass draws from a generator
    it seeds from the seed and the world coordinates.  In particular two
    runs on fresh chunks agree.  The cave and ore passes, which are not
    among the sources, enter as functions of the chunk and the world
    coordinates; nothing more is assumed of them. *)
Theorem generateChunk_deterministic (g : TerrainGenerator.t) c1 c2 :
  wellFormed c1 -> wellFormed c2 ->
  Chunk.cx c1 = Chunk.cx c2 -> Chunk.cz c1 = Chunk.cz c2 ->
  generateChunk SEA_LEVEL g c1 = generateChunk SEA_LEVEL g c2.
Proof.
  intros Hwf1 Hwf2 Hx Hz. unfold generateChunk. cbv zeta. rewrite <- Hx, <- Hz.
  by rewrite (buildTerrain_overwrites g c1 c2 _ _ Hwf1 Hwf2 Hx Hz).
Qed.

End Determinism.


(** ** Worked inputs *)

(** A map that is plains everywhere (temperature 0.5, moisture 0.4), and
    a generator over it with a flat surface at height 64, no mountains,
    and cave and ore passes that change nothing. *)
Definition plainsMap : BiomeMap.t :=
  BiomeMap.mk (fun _ _ => 1 # 2)%Q (fun _ _ => 2 # 5)%Q.

Definition flatWorld (seed : Z) : TerrainGenerator.t :=
  TerrainGenerator.mk seed plainsMap (fun _ _ => false) (fun _ _ _ => 64)
    (fun chunk _ _ => chunk) (fun chunk _ _ => chunk).

Definition flatHeights : Heightmap := replicate 16 (replicate 16 64).


Lemma surface_fill_columns_witness :
  let r := TerrainGenerator.buildTerrain 62 (flatWorld 42) (Chunk.empty 0 0) 0 0 in
  exists (surfaceHeight stone sub water air : nat) (subBlock surfaceBlock : BlockType),
    column r.1 8 8 =
      [BEDROCK] ++ replicate stone STONE ++ replicate sub subBlock
      ++ [surfaceBlock] ++ replicate water WATER ++ replicate air AIR
    /\ hmGet r.2 8 8 = Z.of_nat surfaceHeight
    /\ surfaceHeight = (1 + stone + sub)%nat
    /\ subBlock = TerrainGenerator.getSubSurfaceBlock (columnBiome (flatWorld 42) 0 0 8 8)
    /\ surfaceBlock = TerrainGenerator.getSurfaceBlock (columnBiome (flatWorld 42) 0 0 8 8)
    /\ Registry.isSolid Registry.BlockRegistry subBlock = Registry.Ok true
    /\ Registry.isSolid Registry.BlockRegistry surfaceBlock = Registry.Ok true.
Proof.
  apply (surface_fill_columns 62 (flatWorld 42) (Chunk.empty 0 0) 0 0 8 8);
    unfold CHUNK_SIZE; lia.
Defined.

(** A chunk that has been used: stone, water and a log where a fresh
    chunk holds nothing. *)
Definition usedChunk : Chunk :=
  setBlock (setBlock (setBlock (Chunk.empty 0 0) 3 70 3 STONE) 8 64 8 WATER) 8 65 8 WOOD_OAK.

Lemma generateChunk_deterministic_witness :
  TerrainGenerator.generateChunk 62 (flatWorld 42) (Chunk.empty 0 0)
  = TerrainGenerator.generateChunk 62 (flatWorld 42) usedChunk.
Proof.
  apply (generateChunk_deterministic 62 (flatWorld 42)).
  - apply wellFormed_empty.
  - unfold usedChunk. repeat apply wellFormed_setBlock. apply wellFormed_empty.
  - reflexivity.
  - reflexivity.
Defined.

(** ** Mineshafts over water and bedrock *)

Section MineshaftFacts.
Import MineshaftGenerator.

(** With seed 23 the chunk at the origin gets a mineshaft whose hub is at
    [(9, 13, 6)].  The chunk here has stone at the hub, a water cell
    beside it and a bedrock cell above it. *)
Definition floodedHub : Chunk :=
  setBlock (setBlock (setBlock (Chunk.empty 0 0) 9 13 6 STONE) 9 13 7 WATER) 9 15 6 BEDROCK.

(** C1 fails on the code: the support frame is written over the water
    cell (a pillar) and over the bedrock cell (the beam). *)
Theorem mineshaft_support_overwrites :
  getBlock floodedHub 9 13 7 = WATER
  /\ getBlock floodedHub 9 15 6 = BEDROCK
  /\ getBlock (generate 23 floodedHub 0 0) 9 13 7 = WOOD_OAK
  /\ getBlock (generate 23 floodedHub 0 0) 9 15 6 = PLANKS_OAK.
Proof. vm_compute. repeat split. Qed.

(** What does hold: the carving loops leave bedrock and water alone, and
    write nothing but air. *)
Lemma carveCell_keeps chunk x y z x' y' z' :
  getBlock chunk x' y' z' = BEDROCK \/ getBlock chunk x' y' z' = WATER ->
  getBlock (carveCell chunk x y z) x' y' z' = getBlock chunk x' y' z'.
Proof.
  intros Hkeep. unfold carveCell. cbv zeta.
  destruct ((y <? 1) || (255 <=? y)); [done|].
  destruct (block_eqb (getBlock chunk x y z) BEDROCK) eqn:E1; [done|].
  destruct (block_eqb (getBlock chunk x y z) WATER) eqn:E2; [done|].
  cbn [orb]. rewrite getBlock_setBlock.
  destruct (Chunk.inBounds x y z); [|done]. cbn [andb].
  case_bool_decide as Heq; [|done]. inversion Heq; subst.
  apply block_eqb_neq in E1, E2. destruct Hkeep; congruence.
Qed.

Lemma carveRoom_keeps chunk sx sy sz w h d x' y' z' :
  getBlock chunk x' y' z' = BEDROCK \/ getBlock chunk x' y' z' = WATER ->
  getBlock (carveRoom chunk sx sy sz w h d) x' y' z' = getBlock chunk x' y' z'.
Proof.
  intros Hkeep. unfold carveRoom.
  apply (for_range_preserves
           (fun c => getBlock c x' y' z' = getBlock chunk x' y' z')); [done|].
  intros x c _ Hc.
  apply (for_range_preserves
           (fun c => getBlock c x' y' z' = getBlock chunk x' y' z')); [done|].
  intros z c0 _ Hc0. destruct (negb (inBounds x z)); [done|].
  apply (for_range_preserves
           (fun c => getBlock c x' y' z' = getBlock chunk x' y' z')); [done|].
  intros dy c1 _ Hc1. rewrite carveCell_keeps; [done|]. by rewrite Hc1.
Qed.

End MineshaftFacts.

(** ** Spruce leaves over solid blocks *)

Section TreeFacts.
Import TreeGenerator.

(** A chunk with a stone block and an oak trunk block two cells above the
    ground at [(8, 64, 8)], one and two cells east of the column. *)
Definition besideTheSpruce : Chunk :=
  setBlock (setBlock (Chunk.empty 0 0) 9 67 8 STONE) 10 67 8 WOOD_OAK.

(** C2 fails on the code for spruce: the cone of a spruce rooted at
    [(8, 65, 8)] is written over the stone block and over the trunk
    block of the other tree. *)
Theorem spruce_leaves_overwrite :
  let grown := (generateTree besideTheSpruce 8 65 8 TreeType.SPRUCE (Rng.mulberry32 1)).1 in
  getBlock besideTheSpruce 9 67 8 = STONE
  /\ getBlock besideTheSpruce 10 67 8 = WOOD_OAK
  /\ getBlock grown 9 67 8 = LEAVES_SPRUCE
  /\ getBlock grown 10 67 8 = LEAVES_SPRUCE.
Proof. vm_compute. repeat split. Qed.

(** What does hold: the leaf sphere of the other species is written into
    air only, and a write outside the chunk is dropped. *)
Lemma placeLeafSphere_only_air chunk cx cy cz radius leaf x y z :
  getBlock chunk x y z <> AIR ->
  getBlock (placeLeafSphere chunk cx cy cz radius leaf) x y z = getBlock chunk x y z.
Proof.
  intros Hsolid. unfold placeLeafSphere.
  apply (for_range_preserves (fun c => getBlock c x y z = getBlock chunk x y z)); [done|].
  intros dx c _ Hc.
  apply (for_range_preserves (fun c => getBlock c x y z = getBlock chunk x y z)); [done|].
  intros dy c0 _ Hc0.
  apply (for_range_preserves (fun c => getBlock c x y z = getBlock chunk x y z)); [done|].
  intros dz c1 _ Hc1. cbv zeta.
  destruct (outsideSphere _ radius); [done|].
  destruct (isInBounds _ _ _); [|done].
  destruct (block_eqb (getBlock c1 (cx + dx) (cy + dy) (cz + dz)) AIR) eqn:E; [|done].
  apply block_eqb_eq in E. rewrite getBlock_setBlock.
  destruct (Chunk.inBounds _ _ _); [|done]. cbn [andb].
  case_bool_decide as Heq; [|done]. inversion Heq; subst. congruence.
Qed.

Lemma setIfInBounds_outside chunk lx y lz block :
  Chunk.inBounds lx y lz = false -> setIfInBounds chunk lx y lz block = chunk.
Proof.
  intros H. unfold setIfInBounds.
  destruct (isInBounds lx y lz); [|done]. by apply setBlock_outside.
Qed.

End TreeFacts.

(** ** Decoration after structures *)

Section DecorationFacts.
Import StructureGenerator.






End DecorationFacts.


(** * Further properties of the generators *)

(** ** What a pass may change *)

Section Frames.

(** [c'] differs from [c] only in cells whose block in [c] satisfies [Old]
    and whose block in [c'] satisfies [New]; both may depend on the place. *)
Definition changes_only (Old New : Z -> Z -> Z -> BlockType -> Prop) (c c' : Chunk) : Prop :=
  forall x y z,
    getBlock c' x y z = getBlock c x y z
    \/ (Old x y z (getBlock c x y z) /\ New x y z (getBlock c' x y z)).

Definition anyBlock : Z -> Z -> Z -> BlockType -> Prop := fun _ _ _ _ => True.

Lemma changes_only_refl Old New c : changes_only Old New c c.
Proof. intros x y z. by left. Qed.

Lemma changes_only_trans Old New c c' c'' :
  changes_only Old New c c' -> changes_only Old New c' c'' -> changes_only Old New c c''.
Proof.
  intros H1 H2 x y z. destruct (H2 x y z) as [E2 | [Ho2 Hn2]].
  - rewrite E2. apply H1.
  - destruct (H1 x y z) as [E1 | [Ho1 _]].
    + right. split; [by rewrite <- E1 | done].
    + right. by split.
Qed.

Lemma changes_only_mono (Old Old' New New' : Z -> Z -> Z -> BlockType -> Prop) c c' :
  (forall x y z b, Old x y z b -> Old' x y z b) ->
  (forall x y z b, New x y z b -> New' x y z b) ->
  changes_only Old New c c' -> changes_only Old' New' c c'.
Proof.
  intros Ho Hn H x y z. destruct (H x y z) as [E | [H1 H2]]; [by left|].
  right. split; [by apply Ho | by apply Hn].
Qed.

(** One write: the cell written must be one the pass may change. *)
Lemma changes_only_setBlock Old New c c' x y z b :
  changes_only Old New c c' ->
  (Chunk.inBounds x y z = true -> Old x y z (getBlock c' x y z) /\ New x y z b) ->
  changes_only Old New c (setBlock c' x y z b).
Proof.
  intros H Hw x' y' z'. rewrite getBlock_setBlock.
  destruct (Chunk.inBounds x y z) eqn:Hin; [|apply H]. cbn [andb].
  case_bool_decide as Heq; [|apply H]. inversion Heq; subst x' y' z'.
  destruct (Hw eq_refl) as [Ho Hn]. right. split; [|done].
  destruct (H x y z) as [E | [Ho' _]]; [by rewrite <- E | done].
Qed.

(** A cell no write may reach keeps its block. *)
Lemma changes_only_keeps Old New c c' x y z :
  changes_only Old New c c' ->
  (forall b, ~ (Old x y z (getBlock c x y z) /\ New x y z b)) ->
  getBlock c' x y z = getBlock c x y z.
Proof. intros H Hno. destruct (H x y z) as [E | Hch]; [done|]. by destruct (Hno _ Hch). Qed.

(** A loop in which one iteration at most reaches the cell [(x, y, z)]. *)
Lemma getBlock_for_range_once (body : Z -> Chunk -> Chunk) (upd : BlockType -> BlockType)
    lo hi i0 c x y z :
  (forall i c', lo <= i < hi -> i <> i0 -> getBlock (body i c') x y z = getBlock c' x y z) ->
  (forall c', lo <= i0 < hi -> getBlock (body i0 c') x y z = upd (getBlock c' x y z)) ->
  getBlock (Loop.for_range lo hi body c) x y z =
    if (lo <=? i0) && (i0 <? hi) then upd (getBlock c x y z) else getBlock c x y z.
Proof.
  intros Hother Hat.
  destruct (Z_le_gt_dec lo hi) as [Hle|Hgt].
  2:{ rewrite for_range_empty by lia. zcases; try done; lia. }
  apply (for_range_inv (fun i c' => getBlock c' x y z =
    if (lo <=? i0) && (i0 <? i) then upd (getBlock c x y z) else getBlock c x y z)); [done| |].
  - zcases; try done; lia.
  - intros i c' Hi IH. destruct (Z.eq_dec i i0) as [->|Hne].
    + rewrite Hat by lia. rewrite IH. revert IH. zcases; try done; lia.
    + rewrite Hother by done. rewrite IH. zcases; try done; lia.
Qed.

(** A loop none of whose iterations reaches the cell. *)
Lemma getBlock_for_range_none (body : Z -> Chunk -> Chunk) lo hi c x y z :
  (forall i c', lo <= i < hi -> getBlock (body i c') x y z = getBlock c' x y z) ->
  getBlock (Loop.for_range lo hi body c) x y z = getBlock c x y z.
Proof.
  intros H.
  apply (for_range_preserves (fun c' => getBlock c' x y z = getBlock c x y z)); [done|].
  intros i c' Hi IH. by rewrite H.
Qed.

End Frames.

(** One step of a proof that a pass changes only what it may. *)
Ltac frame_step :=
  match goal with
  | |- changes_only _ _ ?c ?c => apply changes_only_refl
  | H : changes_only ?O ?N ?c ?c' |- changes_only ?O ?N ?c ?c' => exact H
  | |- changes_only _ _ _ (Loop.for_range _ _ _ _) =>
      apply for_range_preserves; [|intros ? ? ? ?]
  | |- changes_only _ _ _ (if ?b then _ else _) => destruct b eqn:?
  | |- changes_only _ _ _ (let x := _ in _) => cbv zeta
  | |- changes_only _ _ _ (setBlock _ _ _ _ _) =>
      apply changes_only_setBlock; [|intros ?]
  end.


(** ** The seeded generator: range, state and period *)

Section RngStream.

(** The increment of the state of [mulberry32], and its inverse modulo
    [2^32]. *)
Definition increment : Z := 0x6d2b79f5.
Definition incrementInverse : Z := 0xdc58aa5d.

Lemma toInt32_range x : - 2 ^ 31 <= Rng.toInt32 x < 2 ^ 31.
Proof.
  unfold Rng.toInt32. change (2 ^ 31) with 2147483648. change (2 ^ 32) with 4294967296.
  pose proof (Z.mod_pos_bound (x + 2147483648) 4294967296). lia.
Qed.

Lemma toInt32_congruent a b k : a = b + k * 2 ^ 32 -> Rng.toInt32 a = Rng.toInt32 b.
Proof.
  intros ->. unfold Rng.toInt32. f_equal.
  replace (b + k * 2 ^ 32 + 2 ^ 31) with (b + 2 ^ 31 + k * 2 ^ 32) by ring.
  apply Z_mod_plus_full.
Qed.

Lemma toInt32_residue x : exists k, Rng.toInt32 x = x + k * 2 ^ 32.
Proof.
  unfold Rng.toInt32. exists (- ((x + 2 ^ 31) / 2 ^ 32)).
  pose proof (Z.div_mod (x + 2 ^ 31) (2 ^ 32) ltac:(done)). lia.
Qed.

Lemma toInt32_small x : - 2 ^ 31 <= x < 2 ^ 31 -> Rng.toInt32 x = x.
Proof.
  intros H. unfold Rng.toInt32.
  change (2 ^ 31) with 2147483648 in *. change (2 ^ 32) with 4294967296.
  rewrite Z.mod_small by lia. lia.
Qed.

Lemma toInt32_add_l a b : Rng.toInt32 (Rng.toInt32 a + b) = Rng.toInt32 (a + b).
Proof.
  destruct (toInt32_residue a) as [k ->].
  apply (toInt32_congruent _ _ k). ring.
Qed.

(** The state a call leaves. *)
Lemma next_state rng : (Rng.next rng).2 = Rng.toInt32 (rng + increment).
Proof. unfold Rng.next. cbn [snd]. apply toInt32_add_l. Qed.

(** A call reads its state modulo [2^32]. *)
Lemma next_congruent a b k : a = b + k * 2 ^ 32 -> Rng.next a = Rng.next b.
Proof.
  intros H. unfold Rng.next. by rewrite (toInt32_congruent a b k H).
Qed.

Lemma next_toInt32 rng : Rng.next (Rng.toInt32 rng) = Rng.next rng.
Proof.
  destruct (toInt32_residue rng) as [k E]. by apply (next_congruent _ _ k).
Qed.

Lemma advance_S n rng : advance (S n) rng = (Rng.next (advance n rng)).2.
Proof.
  replace (S n) with (n + 1)%nat by lia. by rewrite advance_add.
Qed.

Lemma advance_state n rng :
  advance (S n) rng = Rng.toInt32 (rng + Z.of_nat (S n) * increment).
Proof.
  induction n as [|n IH].
  - cbn [advance]. rewrite next_state. f_equal; lia.
  - rewrite advance_S, IH, next_state, toInt32_add_l. f_equal; lia.
Qed.

Lemma next_advance n rng :
  Rng.next (advance n rng) = Rng.next (rng + Z.of_nat n * increment).
Proof.
  destruct n as [|n].
  - cbn [advance]. f_equal; lia.
  - rewrite advance_state. apply next_toInt32.
Qed.

Lemma increment_invertible : increment * incrementInverse = 1 + 1576479847 * 2 ^ 32.
Proof. reflexivity. Qed.

(** X1: a call [rng()] returns [u / 2^32] for an integer [0 <= u < 2^32],
    a number in [[0, 1)]; [Math.floor(rng() * n)] is an index in
    [0 .. n - 1]; and the state the call leaves is a signed 32-bit
    integer. *)
Theorem rng_draw_ranges (rng : Rng.t) (n : Z) :
  0 < n ->
  let '(u, rng') := Rng.next rng in
  0 <= u < 2 ^ 32
  /\ 0 <= Rng.floorMul u n < n
  /\ - 2 ^ 31 <= rng' < 2 ^ 31.
Proof.
  intros Hn. pose proof (next_range rng) as Hu. pose proof (next_state rng) as Hs.
  destruct (Rng.next rng) as [u rng']. cbn [fst snd] in *.
  split; [done|]. split; [by apply floorMul_range|].
  rewrite Hs. apply toInt32_range.
Qed.

Lemma rng_draw_ranges_witness :
  let '(u, rng') := Rng.next (Rng.mulberry32 42) in
  0 <= u < 2 ^ 32
  /\ 0 <= Rng.floorMul u 16 < 16
  /\ - 2 ^ 31 <= rng' < 2 ^ 31.
Proof. apply (rng_draw_ranges (Rng.mulberry32 42) 16). lia. Defined.

(** X2: the state of the generator is a counter.  The call after [n]
    calls is the first call of the generator seeded with
    [seed + n * 0x6d2b79f5]; seeds that agree modulo [2^32] give the same
    stream; and the state returns after [2^32] calls and not before: two
    states of one stream are equal exactly when their positions agree
    modulo [2^32]. *)
Theorem rng_stream_is_a_counter (seed k : Z) (n m : nat) :
  Rng.next (advance n (Rng.mulberry32 seed))
    = Rng.next (Rng.mulberry32 (seed + Z.of_nat n * 0x6d2b79f5))
  /\ Rng.next (Rng.mulberry32 (seed + k * 2 ^ 32)) = Rng.next (Rng.mulberry32 seed)
  /\ (advance (S n) (Rng.mulberry32 seed) = advance (S m) (Rng.mulberry32 seed)
      <-> Z.of_nat n mod 2 ^ 32 = Z.of_nat m mod 2 ^ 32).
Proof.
  unfold Rng.mulberry32. split; [apply next_advance|].
  split; [by apply (next_congruent _ _ k)|].
  rewrite !advance_state. split.
  - intros E.
    destruct (toInt32_residue (seed + Z.of_nat (S n) * increment)) as [a Ha].
    destruct (toInt32_residue (seed + Z.of_nat (S m) * increment)) as [b Hb].
    rewrite Ha, Hb in E.
    assert ((Z.of_nat n - Z.of_nat m) * increment = (b - a) * 2 ^ 32) as Hd by lia.
    assert (Z.of_nat n - Z.of_nat m
            = ((b - a) * incrementInverse - (Z.of_nat n - Z.of_nat m) * 1576479847) * 2 ^ 32)
      as Hq.
    { transitivity ((Z.of_nat n - Z.of_nat m) * (increment * incrementInverse)
                    - (Z.of_nat n - Z.of_nat m) * 1576479847 * 2 ^ 32).
      - rewrite increment_invertible. ring.
      - rewrite Z.mul_assoc, Hd. ring. }
    replace (Z.of_nat n) with (Z.of_nat m + (Z.of_nat n - Z.of_nat m)) by lia.
    rewrite Hq. apply Z_mod_plus_full.
  - intros E.
    pose proof (Z.div_mod (Z.of_nat n) (2 ^ 32) ltac:(done)) as Hn.
    pose proof (Z.div_mod (Z.of_nat m) (2 ^ 32) ltac:(done)) as Hm.
    apply (toInt32_congruent _ _
             ((Z.of_nat n / 2 ^ 32 - Z.of_nat m / 2 ^ 32) * increment)).
    rewrite !Nat2Z.inj_succ. unfold Z.succ.
    rewrite Hn at 1. rewrite Hm at 1. rewrite E. ring.
Qed.

(** How far the decoration stream of a chunk runs ahead of its tree
    stream: [streamLead * 0x6d2b79f5 = 0xa5b3c2d1] modulo [2^32]. *)
Definition streamLead : Z := 629444589.

(** X3: the decoration stream is the tree stream, further on.  The
    decoration generator of a chunk ([StructureGenerator.chunkRng]) and
    its tree generator ([TerrainGenerator.chunkRng]) hash the seed and
    the chunk coordinates alike, and their seeds differ by the constant
    [0xa5b3c2d1]; as the state is a counter, every draw of the decoration
    stream is the draw of the tree stream 629,444,589 places later, for
    every seed and every chunk. *)
Theorem decoration_stream_is_tree_stream_shifted (g : TerrainGenerator.t)
    (worldX worldZ : Z) (n : nat) :
  Rng.next (advance n (StructureGenerator.chunkRng (TerrainGenerator.seed g) worldX worldZ))
  = Rng.next (advance (n + Z.to_nat streamLead) (TerrainGenerator.chunkRng g worldX worldZ)).
Proof.
  rewrite !next_advance.
  unfold StructureGenerator.chunkRng, TerrainGenerator.chunkRng, Rng.mulberry32.
  cbv zeta.
  generalize (Rng.imul
    (Rng.xor32
       (Rng.toInt32 (Rng.xor32 (Rng.toInt32 (Rng.xor32 (TerrainGenerator.seed g)
          (worldX * 374761393))) (worldZ * 668265263)))
       (Rng.ushr (Rng.toInt32 (Rng.xor32 (Rng.toInt32 (Rng.xor32 (TerrainGenerator.seed g)
          (worldX * 374761393))) (worldZ * 668265263))) 13)) 1274126177).
  intros a.
  destruct (toInt32_residue (a + 0xa5b3c2d1)) as [k1 ->].
  destruct (toInt32_residue a) as [k2 ->].
  apply (next_congruent _ _ (k1 - k2 - 268423275)).
  rewrite Nat2Z.inj_add, Z2Nat.id by done.
  unfold streamLead, increment. change (2 ^ 32) with 4294967296. lia.
Qed.

End RngStream.


(** ** The block registry: registering and looking up *)

Section RegistryRoundTrip.
Import Registry.

(** The registries [register] can build. *)
Inductive built : State -> Prop :=
  | built_empty : built ∅
  | built_register r id name transparent solid hardness toolType textureFaces lightEmission :
      built r ->
      built (register r id name transparent solid hardness toolType textureFaces lightEmission).

Lemma BlockRegistry_built : built BlockRegistry.
Proof. unfold BlockRegistry. cbv zeta. repeat apply built_register. apply built_empty. Qed.

(** X4: [register] then [get] returns the definition that was
    registered, with every field as given, whatever was registered under
    the tag before; [has] answers true; and the other tags are looked up
    as before the call. *)
Theorem register_then_get (r : State) id name transparent solid hardness toolType
    textureFaces lightEmission (t : BlockType) :
  let r' := register r id name transparent solid hardness toolType textureFaces
              lightEmission in
  get r' id = Ok (Build_Block id name transparent solid hardness toolType textureFaces
                    lightEmission)
  /\ has r' id = true
  /\ (t <> id -> get r' t = get r t /\ has r' t = has r t).
Proof.
  cbv zeta. unfold register, get, has. split; [|split].
  - by rewrite lookup_insert_eq.
  - rewrite lookup_insert_eq. by apply bool_decide_eq_true_2.
  - intros Hne. by rewrite !lookup_insert_ne.
Qed.

(** X5: in a registry built by [register] calls every definition is
    stored under its own [id]: what [get] returns for a tag carries that
    tag. *)
Theorem built_registry_ids (r : State) (t : BlockType) (b : Block) :
  built r -> get r t = Ok b -> id b = t.
Proof.
  intros Hb. revert t b. induction Hb as [|r i n tr so h tool faces light Hb IH]; intros t b.
  - unfold get. rewrite lookup_empty. discriminate.
  - unfold get, register. destruct (decide (t = i)) as [->|Hne].
    + rewrite lookup_insert_eq. intros [= <-]. reflexivity.
    + rewrite lookup_insert_ne by done. apply IH.
Qed.

Lemma built_registry_ids_witness :
  exists b, get BlockRegistry TORCH = Ok b /\ id b = TORCH /\ lightEmission b = 14.
Proof.
  eexists. split; [reflexivity|]. split; [|reflexivity].
  apply (built_registry_ids BlockRegistry TORCH _ BlockRegistry_built). reflexivity.
Defined.

End RegistryRoundTrip.

(** ** The texture atlas *)

Section AtlasFacts.
Import TextureAtlas.

Lemma registerAll_snoc names name s :
  registerAll (names ++ [name]) s = (registerTexture (registerAll names s) name).2.
Proof. unfold registerAll. by rewrite fold_left_app. Qed.

(** What a sequence of [registerTexture] calls leaves. *)
Lemma registerAll_spec names :
  let s := registerAll names initial in
  nextIndex s = Z.of_nat (length names)
  /\ (forall name, is_Some (TEXTURE_MAP s !! name) <-> name ∈ names)
  /\ (forall name i, TEXTURE_MAP s !! name = Some i ->
        0 <= i < Z.of_nat (length names) /\ names !! Z.to_nat i = Some name).
Proof.
  induction names as [|x names IH] using rev_ind; cbv zeta.
  - cbn. split; [done|]. split.
    + intros name. rewrite lookup_empty. split; [by intros [? ?] | by intros ?%elem_of_nil].
    + intros name i. by rewrite lookup_empty.
  - cbv zeta in IH. destruct IH as (Hn & Hdom & Hidx).
    rewrite registerAll_snoc. unfold registerTexture. cbn [snd TEXTURE_MAP nextIndex].
    rewrite length_app. cbn [length]. split; [lia|]. split.
    + intros name. rewrite elem_of_app, list_elem_of_singleton.
      destruct (decide (name = x)) as [->|Hne].
      * rewrite lookup_insert_eq. split; [by right | by eexists].
      * rewrite lookup_insert_ne by done. rewrite Hdom.
        split; [by left | by intros [?|?]].
    + intros name i. destruct (decide (name = x)) as [->|Hne].
      * rewrite lookup_insert_eq. intros [= <-]. rewrite Hn. split; [lia|].
        rewrite Nat2Z.id. by rewrite list_lookup_middle.
      * rewrite lookup_insert_ne by done. intros Hi.
        destruct (Hidx name i Hi) as [Hr Hl]. split; [lia|].
        rewrite lookup_app_l by lia. done.
Qed.

(** X6: after any sequence of [registerTexture] calls on a fresh module,
    [nextIndex] is the number of calls; a name has an index exactly when
    it was registered; the index of a name is the position of a call that
    registered it, so it lies below [nextIndex] and no two names share an
    index; and [getTextureIndex] returns the index of a registered name,
    the index of ['missing'] for any other name, and [undefined] when
    neither is registered. *)
Theorem registerTexture_indices (names : list string) (name other : string) (i : Z) :
  let s := registerAll names initial in
  nextIndex s = Z.of_nat (length names)
  /\ (is_Some (TEXTURE_MAP s !! name) <-> name ∈ names)
  /\ (TEXTURE_MAP s !! name = Some i ->
        0 <= i < nextIndex s /\ names !! Z.to_nat i = Some name
        /\ (TEXTURE_MAP s !! other = Some i -> other = name)
        /\ getTextureIndex s name = Some i)
  /\ (name ∉ names -> getTextureIndex s name = TEXTURE_MAP s !! "missing"%string).
Proof.
  cbv zeta. destruct (registerAll_spec names) as (Hn & Hdom & Hidx).
  split; [done|]. split; [apply Hdom|]. split.
  - intros Hi. destruct (Hidx name i Hi) as [Hr Hl]. rewrite Hn.
    split; [done|]. split; [done|]. split.
    + intros Ho. destruct (Hidx other i Ho) as [_ Hl']. congruence.
    + unfold getTextureIndex. by rewrite Hi.
  - intros Hnot. unfold getTextureIndex.
    destruct (TEXTURE_MAP (registerAll names initial) !! name) as [j|] eqn:E; [|done].
    exfalso. apply Hnot, Hdom. by eexists.
Qed.

(** X7: every texture name the block registry hands out is in the
    atlas.  For a registered tag and a face, [getTexture] returns a name
    to which the atlas gives an index of its own, which is not the index
    of the ['missing'] fallback; the only tag for which [getTexture]
    throws is the sentinel [COUNT]. *)
Theorem registry_textures_in_atlas (t : BlockType) (face : Registry.Face) :
  match Registry.getTexture Registry.BlockRegistry t face with
  | Registry.Ok name =>
      exists i, TEXTURE_MAP atlas !! name = Some i
             /\ getTextureIndex atlas name = Some i
             /\ textureNames !! Z.to_nat i = Some name
             /\ Some i <> getTextureIndex atlas "missing"
  | Registry.Throw _ => t = COUNT
  end.
Proof.
  destruct t, face; vm_compute; try reflexivity;
    (eexists; split; [reflexivity|]; split; [reflexivity|]; split; [reflexivity|];
     discriminate).
Qed.

End AtlasFacts.

(** ** Weather and climate *)

Section WeatherFacts.
Import BiomeMap WeatherSystem.
Local Open Scope Q_scope.

Ltac climate_cases :=
  repeat match goal with
  | |- context [ltb ?a ?b] =>
      let E := fresh "E" in
      destruct (ltb a b) eqn:E;
      [apply ltb_true in E | apply ltb_false in E]
  end.

Ltac climate_row :=
  split; [ intros ?; first [discriminate | split; lra ]
         | intros [? ?]; first [reflexivity | exfalso; lra ] ].

(** X8: the precipitation [choosePrecipitation] picks, by climate.  It is
    snow exactly where the moisture is at most 0.78 and the temperature
    below 0.45 (tundra and taiga); none exactly where the temperature is
    at least 0.7 and the moisture at most 0.35 (desert); and rain
    everywhere else, over beaches and oceans too, and whenever no biome
    map is set. *)
Theorem precipitation_by_climate (temp moist : Q) :
  (choosePrecipitation (Some (temp, moist)) = SNOW
     <-> moist <= lit_0_78 /\ temp < lit_0_45)
  /\ (choosePrecipitation (Some (temp, moist)) = CLEAR
     <-> lit_0_7 <= temp /\ moist <= lit_0_35)
  /\ (lit_0_78 < moist -> choosePrecipitation (Some (temp, moist)) = RAIN)
  /\ choosePrecipitation None = RAIN.
Proof.
  pose proof literals_ordered as (? & ? & ? & ? & ? & ? & ? & ? & ? & ? & ? & ?).
  unfold choosePrecipitation, biomeOf.
  generalize dependent lit_0_85. generalize dependent lit_0_78.
  generalize dependent lit_0_68. generalize dependent lit_0_55.
  generalize dependent lit_0_5. generalize dependent lit_0_35.
  generalize dependent lit_0_3. generalize dependent lit_0_7.
  generalize dependent lit_0_45. generalize dependent lit_0_2.
  intros. climate_cases.
  all: split; [|split; [|split; [|reflexivity]]].
  all: try climate_row.
  all: try (intros ?; first [reflexivity | exfalso; lra]).
Qed.

End WeatherFacts.


(** ** Trees: footprint, trunk and canopy *)

Section TreeShape.
Import TreeGenerator.

Definition woodOf (treeType : TreeType.t) : BlockType :=
  match treeType with
  | TreeType.OAK => WOOD_OAK
  | TreeType.BIRCH => WOOD_BIRCH
  | TreeType.SPRUCE => WOOD_SPRUCE
  | TreeType.JUNGLE => WOOD_JUNGLE
  end.

Definition leavesOf (treeType : TreeType.t) : BlockType :=
  match treeType with
  | TreeType.OAK => LEAVES_OAK
  | TreeType.BIRCH => LEAVES_BIRCH
  | TreeType.SPRUCE => LEAVES_SPRUCE
  | TreeType.JUNGLE => LEAVES_JUNGLE
  end.

(** The trunk height [generateTree] draws for a species. *)
Definition trunkHeightOf (treeType : TreeType.t) (rng : Rng.t) : Z :=
  let u := (Rng.next rng).1 in
  match treeType with
  | TreeType.OAK => 4 + Rng.floorMul u 3
  | TreeType.BIRCH => 5 + Rng.floorMul u 3
  | TreeType.SPRUCE => 6 + Rng.floorMul u 4
  | TreeType.JUNGLE => 8 + Rng.floorMul u 7
  end.

(** How far the canopy reaches from the trunk column, and how far above
    [y + trunkHeight], the cell over the topmost trunk cell. *)
Definition canopyRadius (treeType : TreeType.t) : Z :=
  match treeType with
  | TreeType.OAK | TreeType.BIRCH => 2
  | TreeType.SPRUCE | TreeType.JUNGLE => 3
  end.

Definition canopyRise (treeType : TreeType.t) : Z :=
  match treeType with
  | TreeType.JUNGLE => 2
  | _ => 1
  end.

Lemma isInBounds_inBounds lx y lz : isInBounds lx y lz = Chunk.inBounds lx y lz.
Proof. unfold isInBounds, Chunk.inBounds. zcases; try done; lia. Qed.

Lemma getBlock_setIfInBounds c lx y lz b x' y' z' :
  getBlock (setIfInBounds c lx y lz b) x' y' z' =
  if Chunk.inBounds lx y lz && (lx =? x') && (y =? y') && (lz =? z')
  then b else getBlock c x' y' z'.
Proof.
  unfold setIfInBounds. rewrite isInBounds_inBounds.
  destruct (Chunk.inBounds lx y lz) eqn:Hin; [|done].
  by rewrite getBlock_setBlock_eqb, Hin.
Qed.

Lemma getBlock_placeTrunk c lx y lz h wood x' y' z' :
  getBlock (placeTrunk c lx y lz h wood) x' y' z' =
  if (x' =? lx) && (z' =? lz) && (y <=? y') && (y' <? y + h) && Chunk.inBounds x' y' z'
  then wood else getBlock c x' y' z'.
Proof.
  unfold placeTrunk.
  rewrite (getBlock_for_range_once _ (fun old =>
            if (x' =? lx) && (z' =? lz) && Chunk.inBounds x' y' z' then wood else old)
            0 h (y' - y)).
  - zcases; try done; lia.
  - intros i c' Hi Hne. rewrite getBlock_setIfInBounds.
    destruct (Chunk.inBounds lx (y + i) lz); [|done]. zcases; try done; lia.
  - intros c' Hi. rewrite getBlock_setIfInBounds.
    replace (y + (y' - y)) with y' by lia.
    rewrite (Z.eqb_sym lx x'), (Z.eqb_sym lz z'), Z.eqb_refl.
    destruct (Z.eqb_spec x' lx) as [->|]; destruct (Z.eqb_spec z' lz) as [->|];
      cbn [andb]; rewrite ?andb_true_r, ?andb_false_r; done.
Qed.

Lemma trunkHeightOf_range treeType rng :
  match treeType with
  | TreeType.OAK => 4 <= trunkHeightOf treeType rng <= 6
  | TreeType.BIRCH => 5 <= trunkHeightOf treeType rng <= 7
  | TreeType.SPRUCE => 6 <= trunkHeightOf treeType rng <= 9
  | TreeType.JUNGLE => 8 <= trunkHeightOf treeType rng <= 14
  end.
Proof.
  pose proof (next_range rng) as Hu. unfold trunkHeightOf. cbv zeta.
  destruct treeType.
  - pose proof (floorMul_range _ 3 Hu). lia.
  - pose proof (floorMul_range _ 3 Hu). lia.
  - pose proof (floorMul_range _ 4 Hu). lia.
  - pose proof (floorMul_range _ 7 Hu). lia.
Qed.

(** The cells a tree may write: its trunk, and its canopy. *)
Definition treeCell (lx y lz : Z) (treeType : TreeType.t) (th : Z)
    (x' y' z' : Z) (b : BlockType) : Prop :=
  (x' = lx /\ z' = lz /\ y <= y' < y + th /\ b = woodOf treeType)
  \/ (Z.abs (x' - lx) <= canopyRadius treeType /\ Z.abs (z' - lz) <= canopyRadius treeType
      /\ y + 1 <= y' <= y + th + canopyRise treeType /\ b = leavesOf treeType).

Lemma placeTrunk_frame c lx y lz treeType th :
  changes_only anyBlock (treeCell lx y lz treeType th) c
    (placeTrunk c lx y lz th (woodOf treeType)).
Proof.
  intros x' y' z'. rewrite getBlock_placeTrunk.
  destruct (Z.eqb_spec x' lx), (Z.eqb_spec z' lz), (Z.leb_spec y y'), (Z.ltb_spec y' (y + th));
    cbn [andb]; try by left.
  destruct (Chunk.inBounds x' y' z'); [|by left].
  right. split; [done|]. left. done.
Qed.

Lemma placeLeafSphere_frame c0 c lx y lz treeType th :
  canopyRadius treeType + 2 <= th ->
  canopyRise treeType = canopyRadius treeType - 1 ->
  changes_only anyBlock (treeCell lx y lz treeType th) c0 c ->
  changes_only anyBlock (treeCell lx y lz treeType th) c0
    (placeLeafSphere c lx (y + th - 1) lz (canopyRadius treeType) (leavesOf treeType)).
Proof.
  intros Hth Hrise Hc. unfold placeLeafSphere.
  assert (canopyRadius treeType = 2 \/ canopyRadius treeType = 3) as Hr
    by (destruct treeType; simpl; lia).
  repeat frame_step.
  split; [done|]. right.
  unfold outsideSphere in *.
  match goal with H : (_ <? _) = false |- _ => apply Z.ltb_ge in H end.
  split; [lia|]. split; [lia|]. split; [|done].
  destruct Hr as [Hr | Hr]; rewrite Hr in *; nia.
Qed.

Lemma generateTree_frame c lx y lz treeType rng :
  changes_only anyBlock (treeCell lx y lz treeType (trunkHeightOf treeType rng)) c
    (generateTree c lx y lz treeType rng).1
  /\ (generateTree c lx y lz treeType rng).2 = (Rng.next rng).2.
Proof.
  pose proof (trunkHeightOf_range treeType rng) as Hth.
  unfold generateTree, trunkHeightOf in *. cbv zeta in *.
  destruct treeType;
    unfold placeOakTree, placeBirchTree, placeSpruceTree, placeJungleTree;
    destruct (Rng.next rng) as [u rng']; cbn [fst snd] in *; (split; [|reflexivity]).
  - apply (placeLeafSphere_frame c _ lx y lz TreeType.OAK); [simpl; lia | done |].
    apply (placeTrunk_frame c lx y lz TreeType.OAK).
  - apply (placeLeafSphere_frame c _ lx y lz TreeType.BIRCH); [simpl; lia | done |].
    apply (placeTrunk_frame c lx y lz TreeType.BIRCH).
  - set (th := 6 + Rng.floorMul u 4) in *.
    assert (forall c' x1 y1 z1,
              changes_only anyBlock (treeCell lx y lz TreeType.SPRUCE th) c c' ->
              Z.abs (x1 - lx) <= 3 -> Z.abs (z1 - lz) <= 3 -> y + 1 <= y1 <= y + th + 1 ->
              changes_only anyBlock (treeCell lx y lz TreeType.SPRUCE th) c
                (setIfInBounds c' x1 y1 z1 LEAVES_SPRUCE)) as Hleaf.
    { intros c' x1 y1 z1 Hc' Hx Hz Hy. unfold setIfInBounds.
      destruct (isInBounds x1 y1 z1); [|done].
      apply changes_only_setBlock; [done|]. intros _. split; [done|].
      right. simpl. done. }
    apply Hleaf; [|lia..].
    apply for_range_preserves; [apply (placeTrunk_frame c lx y lz TreeType.SPRUCE)|].
    intros ly c1 Hly Hc1. cbv zeta.
    assert (0 <= spruceRadius th (ly - (y + 2)) <= 3) as Hrad.
    { unfold spruceRadius. cbv zeta.
      assert (th = 6 \/ th = 7 \/ th = 8 \/ th = 9) as Hcases by lia.
      assert (exists k : nat, ly - (y + 2) = Z.of_nat k /\ Z.of_nat k <= th - 2)
        as (k & -> & Hk).
      { exists (Z.to_nat (ly - (y + 2))). lia. }
      rewrite Nat2Z.id. clear Hleaf Hc1 Hly. clearbody th.
      destruct Hcases as [E | [E | [E | E]]]; subst th;
        do 9 (destruct k as [|k]; [cbn; lia|]); lia. }
    generalize dependent (spruceRadius th (ly - (y + 2))). intros radius Hrad.
    apply for_range_preserves; [done|]. intros dx c2 Hdx Hc2.
    apply for_range_preserves; [done|]. intros dz c3 Hdz Hc3.
    destruct ((Z.abs dx =? radius) && (Z.abs dz =? radius) && (1 <? radius)); [done|].
    destruct ((dx =? 0) && (dz =? 0) && (ly <? y + th)); [done|].
    apply Hleaf; [done|lia..].
  - apply (placeLeafSphere_frame c _ lx y lz TreeType.JUNGLE); [simpl; lia | done |].
    apply (placeTrunk_frame c lx y lz TreeType.JUNGLE).
Qed.

(** X9: what a tree touches.  [generateTree] draws exactly one number;
    and every cell of the chunk holds what it held, or is a cell of the
    trunk column [y .. y + trunkHeight - 1] and holds the wood of the
    species, or lies within the canopy radius of the trunk column (2 for
    oak and birch, 3 for spruce and jungle), above the base and no higher
    than [y + trunkHeight + 1] ([y + trunkHeight + 2] for a jungle tree),
    that is at most 2 cells (3 for a jungle tree) above the topmost trunk
    cell, and holds the leaves of the species. *)
Theorem generateTree_footprint c lx y lz treeType rng (x' y' z' : Z) :
  let grown := generateTree c lx y lz treeType rng in
  let th := trunkHeightOf treeType rng in
  grown.2 = (Rng.next rng).2
  /\ (getBlock grown.1 x' y' z' = getBlock c x' y' z'
      \/ (x' = lx /\ z' = lz /\ y <= y' < y + th
          /\ getBlock grown.1 x' y' z' = woodOf treeType)
      \/ (Z.abs (x' - lx) <= canopyRadius treeType
          /\ Z.abs (z' - lz) <= canopyRadius treeType
          /\ y + 1 <= y' <= y + th + canopyRise treeType
          /\ getBlock grown.1 x' y' z' = leavesOf treeType)).
Proof.
  cbv zeta. destruct (generateTree_frame c lx y lz treeType rng) as [Hframe Hrng].
  split; [exact Hrng|].
  destruct (Hframe x' y' z') as [E | [_ [Ht | Hl]]]; [by left | |].
  - right. left. exact Ht.
  - right. right. exact Hl.
Qed.

(** The bound on the height is reached: over an oak of trunk height 5 at
    [y = 65] the leaves stand at 70 and 71, over a jungle tree of trunk
    height 12 at 77, 78 and 79. *)
Example canopy_reaches_its_height :
  let oak := (generateTree (Chunk.empty 0 0) 8 65 8 TreeType.OAK (Rng.mulberry32 1)).1 in
  let jungle := (generateTree (Chunk.empty 0 0) 8 65 8 TreeType.JUNGLE (Rng.mulberry32 1)).1 in
  trunkHeightOf TreeType.OAK (Rng.mulberry32 1) = 5
  /\ getBlock oak 8 69 8 = WOOD_OAK /\ getBlock oak 8 71 8 = LEAVES_OAK
  /\ getBlock oak 8 72 8 = AIR
  /\ trunkHeightOf TreeType.JUNGLE (Rng.mulberry32 1) = 12
  /\ getBlock jungle 8 76 8 = WOOD_JUNGLE /\ getBlock jungle 8 79 8 = LEAVES_JUNGLE
  /\ getBlock jungle 8 80 8 = AIR.
Proof. repeat split; vm_compute; reflexivity. Qed.

(** The canopy of an oak, a birch or a jungle tree keeps what is not
    air. *)
Lemma sphere_tree_keeps c lx y lz th wood radius leaf x' y' z' :
  getBlock c x' y' z' <> AIR ->
  ~ (x' = lx /\ z' = lz /\ y <= y' < y + th) ->
  getBlock (placeLeafSphere (placeTrunk c lx y lz th wood) lx (y + th - 1) lz radius leaf)
    x' y' z' = getBlock c x' y' z'.
Proof.
  intros Hsolid Hnot.
  assert (getBlock (placeTrunk c lx y lz th wood) x' y' z' = getBlock c x' y' z') as E.
  { rewrite getBlock_placeTrunk. zcases; try done. lia. }
  rewrite placeLeafSphere_only_air; [done|]. by rewrite E.
Qed.

(** X10: an oak, a birch or a jungle tree is written into air.  Outside
    the cells of its trunk, [generateTree] changes no cell that holds a
    block other than air: its leaves replace air only.  (For a spruce
    this fails: its cone is written over what is there.) *)
Theorem sphere_trees_replace_air_only c lx y lz treeType rng (x' y' z' : Z) :
  treeType <> TreeType.SPRUCE ->
  getBlock c x' y' z' <> AIR ->
  ~ (x' = lx /\ z' = lz /\ y <= y' < y + trunkHeightOf treeType rng) ->
  getBlock (generateTree c lx y lz treeType rng).1 x' y' z' = getBlock c x' y' z'.
Proof.
  intros Hspecies Hsolid Hnot. unfold generateTree, trunkHeightOf in *. cbv zeta in *.
  destruct treeType; [| |done|];
    unfold placeOakTree, placeBirchTree, placeJungleTree;
    destruct (Rng.next rng) as [u rng']; cbn [fst snd] in *;
    by apply sphere_tree_keeps.
Qed.

Lemma sphere_trees_replace_air_only_witness :
  getBlock
    (generateTree (setBlock (Chunk.empty 0 0) 9 68 8 STONE) 8 65 8 TreeType.OAK
       (Rng.mulberry32 1)).1 9 68 8 = STONE.
Proof.
  rewrite (sphere_trees_replace_air_only _ 8 65 8 TreeType.OAK (Rng.mulberry32 1) 9 68 8).
  - reflexivity.
  - discriminate.
  - vm_compute. discriminate.
  - intros (Hx & _). lia.
Defined.

(** X11: the trunk stands.  The trunk height of an oak is 4 to 6, of a
    birch 5 to 7, of a spruce 6 to 9 and of a jungle tree 8 to 14; after
    [generateTree] every cell of the trunk column inside the chunk, from
    the base to the trunk height, holds the wood of the species: the
    canopy never replaces it. *)
Theorem tree_trunk_stands c lx y lz treeType rng (dy : Z) :
  let th := trunkHeightOf treeType rng in
  match treeType with
  | TreeType.OAK => 4 <= th <= 6
  | TreeType.BIRCH => 5 <= th <= 7
  | TreeType.SPRUCE => 6 <= th <= 9
  | TreeType.JUNGLE => 8 <= th <= 14
  end
  /\ (0 <= dy < th -> isInBounds lx (y + dy) lz = true ->
      getBlock (generateTree c lx y lz treeType rng).1 lx (y + dy) lz = woodOf treeType).
Proof.
  cbv zeta. split; [apply trunkHeightOf_range|].
  intros Hdy Hin. rewrite isInBounds_inBounds in Hin.
  assert (forall th wood, 0 <= dy < th ->
            getBlock (placeTrunk c lx y lz th wood) lx (y + dy) lz = wood) as Htrunk.
  { intros th wood Hth. rewrite getBlock_placeTrunk, Hin, !Z.eqb_refl.
    destruct (Z.leb_spec y (y + dy)); [|lia].
    destruct (Z.ltb_spec (y + dy) (y + th)); [done|lia]. }
  unfold generateTree, trunkHeightOf in *. cbv zeta in *.
  destruct treeType;
    unfold placeOakTree, placeBirchTree, placeSpruceTree, placeJungleTree;
    destruct (Rng.next rng) as [u rng']; cbn [fst snd] in *.
  - rewrite placeLeafSphere_only_air; rewrite Htrunk by done; done.
  - rewrite placeLeafSphere_only_air; rewrite Htrunk by done; done.
  - set (th := 6 + Rng.floorMul u 4) in *.
    rewrite getBlock_setIfInBounds.
    destruct (Z.eqb_spec (y + th + 1) (y + dy)); [lia|]. rewrite !andb_false_r. cbn [andb].
    apply (for_range_preserves (fun c' => getBlock c' lx (y + dy) lz = WOOD_SPRUCE));
      [by apply Htrunk|].
    intros ly c1 Hly Hc1. cbv zeta.
    apply for_range_preserves; [done|]. intros dx c2 Hdx Hc2.
    apply for_range_preserves; [done|]. intros dz c3 Hdz Hc3.
    destruct ((Z.abs dx =? _) && (Z.abs dz =? _) && (1 <? _)); [done|].
    destruct ((dx =? 0) && (dz =? 0) && (ly <? y + th)) eqn:Eskip; [done|].
    rewrite getBlock_setIfInBounds.
    destruct (Z.eqb_spec (lx + dx) lx), (Z.eqb_spec ly (y + dy)), (Z.eqb_spec (lz + dz) lz);
      rewrite ?andb_false_r, ?andb_true_r; cbn [andb]; try done.
    exfalso. revert Eskip.
    destruct (Z.eqb_spec dx 0); [|lia]. destruct (Z.eqb_spec dz 0); [|lia].
    destruct (Z.ltb_spec ly (y + th)); [done|lia].
  - rewrite placeLeafSphere_only_air; rewrite Htrunk by done; done.
Qed.

End TreeShape.


(** ** Mineshafts: shuffle, rooms and reach *)

Section MineshaftShape.
Import MineshaftGenerator.

(** X12: [shuffleDirs] returns the four directions in some order, each
    once, and draws exactly three numbers. *)
Theorem shuffleDirs_permutes (rng : Rng.t) :
  let '(arr, rng') := shuffleDirs rng in
  arr ≡ₚ DIRS /\ rng' = advance 3 rng.
Proof.
  unfold shuffleDirs. cbn [fold_left advance].
  pose proof (next_range rng) as H1. destruct (Rng.next rng) as [u1 r1]. cbn [fst snd] in *.
  pose proof (next_range r1) as H2. destruct (Rng.next r1) as [u2 r2]. cbn [fst snd] in *.
  pose proof (next_range r2) as H3. destruct (Rng.next r2) as [u3 r3]. cbn [fst snd] in *.
  split; [|reflexivity].
  pose proof (floorMul_range u1 4 H1 ltac:(lia)) as J1.
  pose proof (floorMul_range u2 3 H2 ltac:(lia)) as J2.
  pose proof (floorMul_range u3 2 H3 ltac:(lia)) as J3.
  replace (3 + 1) with 4 by reflexivity. replace (2 + 1) with 3 by reflexivity.
  replace (1 + 1) with 2 by reflexivity.
  generalize dependent (Rng.floorMul u1 4). intros j1 J1.
  generalize dependent (Rng.floorMul u2 3). intros j2 J2.
  generalize dependent (Rng.floorMul u3 2). intros j3 J3.
  assert (j1 = 0 \/ j1 = 1 \/ j1 = 2 \/ j1 = 3) as C1 by lia.
  assert (j2 = 0 \/ j2 = 1 \/ j2 = 2) as C2 by lia.
  assert (j3 = 0 \/ j3 = 1) as C3 by lia.
  destruct C1 as [-> | [-> | [-> | ->]]], C2 as [-> | [-> | ->]], C3 as [-> | ->];
    by apply (bool_decide_unpack _).
Qed.

Definition kept (b : BlockType) : bool := block_eqb b BEDROCK || block_eqb b WATER.

Lemma getBlock_carveCell c x y z x' y' z' :
  getBlock (carveCell c x y z) x' y' z' =
  if (x =? x') && (y =? y') && (z =? z') && Chunk.inBounds x y z
     && (1 <=? y) && (y <? 255) && negb (kept (getBlock c x' y' z'))
  then AIR else getBlock c x' y' z'.
Proof.
  unfold carveCell, kept. cbv zeta.
  destruct (Z.ltb_spec y 1); cbn [orb].
  { destruct (Z.leb_spec 1 y); [lia|]. by rewrite !andb_false_r. }
  destruct (Z.leb_spec 255 y); cbn [orb].
  { destruct (Z.ltb_spec y 255); [lia|]. by rewrite !andb_false_r. }
  destruct (Z.leb_spec 1 y); [|lia]. destruct (Z.ltb_spec y 255); [|lia].
  rewrite !andb_true_r.
  destruct (decide ((x, y, z) = (x', y', z'))) as [[= <- <- <-]|Hne].
  - rewrite !Z.eqb_refl. cbn [andb].
    destruct (block_eqb (getBlock c x y z) BEDROCK || block_eqb (getBlock c x y z) WATER);
      cbn [negb]; rewrite ?andb_false_r; [done|].
    rewrite andb_true_r. rewrite getBlock_setBlock_eqb, !Z.eqb_refl, !andb_true_r.
    destruct (Chunk.inBounds x y z) eqn:Hin; [done|]. by rewrite getBlock_outside.
  - assert ((x =? x') && (y =? y') && (z =? z') = false) as ->.
    { destruct (Z.eqb_spec x x'), (Z.eqb_spec y y'), (Z.eqb_spec z z'); try done. congruence. }
    cbn [andb].
    destruct (block_eqb (getBlock c x y z) BEDROCK || block_eqb (getBlock c x y z) WATER);
      [done|].
    by rewrite getBlock_setBlock_other.
Qed.

(** The cells [carveRoom] reaches. *)
Definition inRoom (sx sy sz w h d x y z : Z) : bool :=
  (sx <=? x) && (x <? sx + w) && (sy <=? y) && (y <? sy + h)
  && (sz <=? z) && (z <? sz + d).

Lemma getBlock_carveRoom c sx sy sz w h d x y z :
  getBlock (carveRoom c sx sy sz w h d) x y z =
  if inRoom sx sy sz w h d x y z && Chunk.inBounds x y z && (1 <=? y) && (y <? 255)
     && negb (kept (getBlock c x y z))
  then AIR else getBlock c x y z.
Proof.
  unfold carveRoom, inRoom.
  set (carved old := if Chunk.inBounds x y z && (1 <=? y) && (y <? 255) && negb (kept old)
                      then AIR else old).
  rewrite (getBlock_for_range_once _ (fun old =>
             if (sy <=? y) && (y <? sy + h) && (sz <=? z) && (z <? sz + d)
             then carved old else old) sx (sx + w) x).
  - unfold carved. zcases; rewrite ?andb_false_r; cbn [andb]; try done; lia.
  - intros i c' Hi Hne. apply getBlock_for_range_none. intros j c'' Hj.
    destruct (negb (inBounds i j)); [done|].
    apply getBlock_for_range_none. intros dy c3 Hdy. rewrite getBlock_carveCell.
    destruct (Z.eqb_spec i x); [lia|]. done.
  - intros c' Hx.
    rewrite (getBlock_for_range_once _ (fun old =>
               if (sy <=? y) && (y <? sy + h) then carved old else old) sz (sz + d) z).
    + zcases; rewrite ?andb_false_r; cbn [andb]; try done; lia.
    + intros j c'' Hj Hne. destruct (negb (inBounds x j)); [done|].
      apply getBlock_for_range_none. intros dy c3 Hdy. rewrite getBlock_carveCell.
      destruct (Z.eqb_spec j z); [lia|]. by rewrite !andb_false_r.
    + intros c'' Hz. destruct (inBounds x z) eqn:Hin; cbn [negb].
      * rewrite (getBlock_for_range_once _ carved 0 h (y - sy)).
        { zcases; try done; lia. }
        { intros dy c3 Hdy Hne. rewrite getBlock_carveCell.
          destruct (Z.eqb_spec (sy + dy) y); [lia|]. by rewrite !andb_false_r. }
        { intros c3 Hy. rewrite getBlock_carveCell.
          replace (sy + (y - sy)) with y by lia. rewrite !Z.eqb_refl. done. }
      * unfold carved.
        assert (Chunk.inBounds x y z = false) as ->.
        { unfold inBounds in Hin. unfold Chunk.inBounds.
          revert Hin. zcases; try done; lia. }
        cbn [andb]. by destruct ((sy <=? y) && (y <? sy + h)).
Qed.

(** X13: what [carveRoom] leaves.  A cell of the room
    [[sx, sx + w) x [sy, sy + h) x [sz, sz + d)] that lies inside the
    chunk, at a height from 1 to 254, and holds neither bedrock nor water
    is air afterwards; every other cell of the chunk holds what it
    held. *)
Theorem carveRoom_cells c sx sy sz w h d (x y z : Z) :
  let carved :=
    sx <= x < sx + w /\ sy <= y < sy + h /\ sz <= z < sz + d
    /\ 0 <= x < CHUNK_SIZE /\ 0 <= z < CHUNK_SIZE /\ 1 <= y < 255
    /\ getBlock c x y z <> BEDROCK /\ getBlock c x y z <> WATER in
  (carved -> getBlock (carveRoom c sx sy sz w h d) x y z = AIR)
  /\ (~ carved -> getBlock (carveRoom c sx sy sz w h d) x y z = getBlock c x y z).
Proof.
  cbv zeta. rewrite getBlock_carveRoom. unfold inRoom, kept.
  destruct (Chunk.inBounds x y z) eqn:Hin.
  - apply inBounds_spec in Hin. unfold CHUNK_SIZE, CHUNK_HEIGHT in *.
    destruct (block_eqb (getBlock c x y z) BEDROCK) eqn:E1;
      [apply block_eqb_eq in E1 | apply block_eqb_neq in E1];
      (destruct (block_eqb (getBlock c x y z) WATER) eqn:E2;
        [apply block_eqb_eq in E2 | apply block_eqb_neq in E2]);
      cbn [orb negb]; rewrite ?andb_false_r, ?andb_true_r.
    1-3: split; [intros H; exfalso; tauto | done].
    zcases; split; try done; try (intros; exfalso; lia);
      intros Hn; exfalso; apply Hn; repeat split; first [lia | done].
  - rewrite andb_false_r. cbn [andb]. split; [|done].
    intros (_ & Hy & _ & Hx & Hz & Hy' & _).
    assert (Chunk.inBounds x y z = true) as E; [|congruence].
    apply inBounds_spec. unfold CHUNK_SIZE, CHUNK_HEIGHT in *. lia.
Qed.

(** The blocks a mineshaft is made of, in the four layers from the floor
    under [baseY] to the beams. *)
Definition shaftCell (baseY : Z) (x y z : Z) (b : BlockType) : Prop :=
  baseY - 1 <= y <= baseY + 2
  /\ (b = AIR \/ b = PLANKS_OAK \/ b = WOOD_OAK \/ b = TORCH).

Lemma carveCell_frame baseY c0 c x y z :
  baseY <= y <= baseY + 2 ->
  changes_only anyBlock (shaftCell baseY) c0 c ->
  changes_only anyBlock (shaftCell baseY) c0 (carveCell c x y z).
Proof.
  intros Hy Hc. unfold carveCell. repeat frame_step.
  split; [done|]. split; [lia|]. by left.
Qed.

Lemma carveRoom_frame baseY c0 c sx sz :
  changes_only anyBlock (shaftCell baseY) c0 c ->
  changes_only anyBlock (shaftCell baseY) c0 (carveRoom c sx baseY sz 3 3 3).
Proof.
  intros Hc. unfold carveRoom. repeat frame_step. apply carveCell_frame; [lia|done].
Qed.

Lemma placeTorch_frame baseY c0 c x y z :
  baseY <= y <= baseY + 2 ->
  changes_only anyBlock (shaftCell baseY) c0 c ->
  changes_only anyBlock (shaftCell baseY) c0 (placeTorch c x y z).
Proof.
  intros Hy Hc. unfold placeTorch. repeat frame_step.
  split; [done|]. split; [lia|]. auto.
Qed.

Lemma placeSupport_frame baseY c0 c cx cz px pz :
  changes_only anyBlock (shaftCell baseY) c0 c ->
  changes_only anyBlock (shaftCell baseY) c0 (placeSupport c cx baseY cz px pz).
Proof.
  intros Hc. unfold placeSupport. cbv zeta.
  apply for_range_preserves.
  - destruct (inBounds (cx + px) (cz + pz)).
    + apply for_range_preserves.
      * destruct (inBounds (cx - px) (cz - pz)); [|done].
        apply for_range_preserves; [done|]. intros dy c1 Hdy Hc1.
        apply changes_only_setBlock; [done|]. intros _.
        split; [done|]. split; [lia|]. auto.
      * intros dy c1 Hdy Hc1.
        apply changes_only_setBlock; [done|]. intros _.
        split; [done|]. split; [lia|]. auto.
    + destruct (inBounds (cx - px) (cz - pz)); [|done].
      apply for_range_preserves; [done|]. intros dy c1 Hdy Hc1.
      apply changes_only_setBlock; [done|]. intros _.
      split; [done|]. split; [lia|]. auto.
  - intros w c1 Hw Hc1. destruct (inBounds _ _); [|done].
    apply changes_only_setBlock; [done|]. intros _.
    split; [done|]. split; [lia|]. auto.
Qed.

Lemma carveCorridor_frame baseY c0 c sx sz dx dz len :
  changes_only anyBlock (shaftCell baseY) c0 c ->
  changes_only anyBlock (shaftCell baseY) c0 (carveCorridor c sx baseY sz dx dz len).
Proof.
  intros Hc. unfold carveCorridor. cbv zeta.
  apply for_break_preserves; [done|].
  intros step c1 c2 Hstep Hc1.
  destruct (negb (inBounds _ _) || negb (inBounds _ _)); [discriminate|].
  intros [= <-].
  match goal with
  | |- changes_only _ _ _ (if ?t then placeTorch ?a ?x ?y ?z else ?a) =>
      assert (changes_only anyBlock (shaftCell baseY) c0 a) as Hrest;
      [|destruct t; [apply placeTorch_frame; [lia|exact Hrest] | exact Hrest]]
  end.
  match goal with
  | |- changes_only _ _ _ (if ?t then placeSupport ?a _ _ _ _ _ else ?a) =>
      assert (changes_only anyBlock (shaftCell baseY) c0 a) as Hrest;
      [|destruct t; [apply placeSupport_frame; exact Hrest | exact Hrest]]
  end.
  match goal with
  | |- changes_only _ _ _ (if ?t then setBlock ?a _ _ _ _ else ?a) =>
      assert (changes_only anyBlock (shaftCell baseY) c0 a) as Hrest;
      [|destruct t; [|exact Hrest]]
  end.
  - apply for_range_preserves; [done|]. intros w c3 Hw Hc3.
    apply for_range_preserves; [done|]. intros dy c4 Hdy Hc4.
    apply carveCell_frame; [lia|done].
  - apply changes_only_setBlock; [done|]. intros _.
    split; [done|]. split; [lia|]. auto.
Qed.

Lemma buildNetwork_frame c rng startX baseY startZ :
  changes_only anyBlock (shaftCell baseY) c (buildNetwork c rng startX baseY startZ).1.
Proof.
  unfold buildNetwork. cbv zeta.
  destruct (Rng.next rng) as [u0 rng0]. destruct (shuffleDirs rng0) as [dirs rng1].
  apply (for_range_preserves
           (fun st : Chunk * Rng.t => changes_only anyBlock (shaftCell baseY) c st.1)).
  - cbn [fst]. apply placeTorch_frame; [lia|]. apply carveRoom_frame.
    apply changes_only_refl.
  - intros b [c1 r1] Hb Hc1. cbn [fst] in Hc1.
    destruct (dirAt dirs _) as [dx dz].
    destruct (Rng.next r1) as [u2 r2]. destruct (Rng.next r2) as [u3 r3].
    assert (changes_only anyBlock (shaftCell baseY) c
              (carveCorridor c1 startX baseY startZ dx dz (8 + Rng.floorMul u2 16)))
      as Hcor by (by apply carveCorridor_frame).
    destruct (Rng.lt u3 4 10); [|exact Hcor].
    destruct (inBounds _ _); [|exact Hcor].
    destruct (Rng.next r3) as [u4 r4]. destruct (Rng.next r4) as [u5 r5].
    cbn [fst]. by apply carveCorridor_frame.
Qed.

(** The cells a mineshaft reaches, whatever height it is dug at. *)
Definition mineshaftCell (x y z : Z) (b : BlockType) : Prop :=
  11 <= y <= 43 /\ (b = AIR \/ b = PLANKS_OAK \/ b = WOOD_OAK \/ b = TORCH).

Lemma mineshaft_generate_frame seed c worldX worldZ :
  changes_only anyBlock mineshaftCell c (generate seed c worldX worldZ).
Proof.
  unfold generate.
  destruct (Rng.next _) as [u0 r0]. destruct (Rng.gt u0 3 100); [apply changes_only_refl|].
  pose proof (next_range r0) as Hu1. destruct (Rng.next r0) as [u1 r1].
  destruct (Rng.next r1) as [u2 r2]. destruct (Rng.next r2) as [u3 r3].
  destruct (negb (isStone c _ _ _)); [apply changes_only_refl|].
  cbn [fst] in Hu1. pose proof (floorMul_range u1 30 Hu1 ltac:(lia)) as Hb.
  eapply changes_only_mono; [| |apply buildNetwork_frame].
  - done.
  - intros x y z b [Hy Hk]. split; [lia|exact Hk].
Qed.

(** X14: the reach of a mineshaft.  After [generate] every cell of the
    chunk holds what it held, or lies at a height from 11 to 43 and holds
    air, oak planks, oak wood or a torch.  (The floor planks lie one cell
    under the lowest corridor height, 12, and the beams two cells over
    the highest, 41.) *)
Theorem mineshaft_reach seed c worldX worldZ (x y z : Z) :
  let c' := generate seed c worldX worldZ in
  getBlock c' x y z = getBlock c x y z
  \/ (11 <= y <= 43
      /\ (getBlock c' x y z = AIR \/ getBlock c' x y z = PLANKS_OAK
          \/ getBlock c' x y z = WOOD_OAK \/ getBlock c' x y z = TORCH)).
Proof.
  cbv zeta.
  destruct (mineshaft_generate_frame seed c worldX worldZ x y z) as [E | [_ H]];
    [by left | by right].
Qed.

Lemma probes_need_stone c rng :
  (forall x y z, getBlock c x y z <> STONE) ->
  probesPass c (dungeonCandidate rng) = false.
Proof.
  intros Hno. unfold probesPass.
  destruct (dungeonCandidate rng) as [[sx sy] sz].
  apply andb_false_iff. left. apply block_eqb_neq, Hno.
Qed.

Lemma isStone_needs_stone c x y z :
  (forall x y z, getBlock c x y z <> STONE) -> isStone c x y z = false.
Proof.
  intros Hno. unfold isStone. destruct (_ || _); [done|]. apply block_eqb_neq, Hno.
Qed.

(** X15: no stone, no mineshaft and no dungeon.  On a chunk that holds no
    stone block (an empty chunk, say) [MineshaftGenerator.generate]
    returns the chunk as it is, and [tryPlaceDungeon] gives up after its
    five candidates, fifteen draws, with the chunk as it is. *)
Theorem underground_needs_stone seed c worldX worldZ (rng : Rng.t) :
  (forall x y z, getBlock c x y z <> STONE) ->
  generate seed c worldX worldZ = c
  /\ StructureGenerator.tryPlaceDungeon c rng = (c, false, advance 15 rng).
Proof.
  intros Hno. split.
  - unfold generate.
    destruct (Rng.next _) as [u0 r0]. destruct (Rng.gt u0 3 100); [done|].
    destruct (Rng.next r0) as [u1 r1]. destruct (Rng.next r1) as [u2 r2].
    destruct (Rng.next r2) as [u3 r3].
    rewrite isStone_needs_stone by done. reflexivity.
  - unfold StructureGenerator.tryPlaceDungeon.
    destruct (tryPlaceDungeonFrom_spec 5 c rng) as [[H _] | (k & _ & _ & Hp & _)].
    + exact H.
    + rewrite probes_need_stone in Hp by done. discriminate Hp.
Qed.

Lemma underground_needs_stone_witness :
  generate 23 (Chunk.empty 0 0) 0 0 = Chunk.empty 0 0
  /\ StructureGenerator.tryPlaceDungeon (Chunk.empty 0 0) (Rng.mulberry32 1)
     = (Chunk.empty 0 0, false, advance 15 (Rng.mulberry32 1)).
Proof.
  apply (underground_needs_stone 23 (Chunk.empty 0 0) 0 0 (Rng.mulberry32 1)).
  intros x y z. rewrite getBlock_empty. discriminate.
Defined.

End MineshaftShape.


(** ** Structures: the dungeon room, and where structures reach *)

Section StructureShape.
Import StructureGenerator.

Lemma if_setBlock (t : bool) c x y z b1 b2 :
  (if t then setBlock c x y z b1 else setBlock c x y z b2)
  = setBlock c x y z (if t then b1 else b2).
Proof. by destruct t. Qed.

(** The block the loops of [buildDungeon] write at a cell of the room. *)
Definition roomBlock (sx sy sz x y z : Z) : BlockType :=
  if (y =? sy) || (y =? sy + 4)
     || ((x =? sx) || (x =? sx + 6) || (z =? sz) || (z =? sz + 6))
  then COBBLESTONE else AIR.

Definition inRoomVolume (sx sy sz x y z : Z) : bool :=
  (sx <=? x) && (x <? sx + 7) && (sy <=? y) && (y <? sy + 5)
  && (sz <=? z) && (z <? sz + 7).

Lemma getBlock_room_column c sx sy sz x0 z0 x y z :
  getBlock
    (Loop.for_range 0 5 (fun dy chunk =>
       let y := sy + dy in
       if CHUNK_HEIGHT <=? y then chunk
       else
         let isFloor := dy =? 0 in
         let isCeiling := dy =? 5 - 1 in
         let isWall := (x0 =? sx) || (x0 =? sx + 7 - 1) || (z0 =? sz) || (z0 =? sz + 7 - 1) in
         if isFloor || isCeiling || isWall then setBlock chunk x0 y z0 COBBLESTONE
         else setBlock chunk x0 y z0 AIR) c) x y z
  = if (x =? x0) && (z =? z0) && (sy <=? y) && (y <? sy + 5) && Chunk.inBounds x y z
    then roomBlock sx sy sz x y z else getBlock c x y z.
Proof.
  rewrite (getBlock_for_range_once _ (fun old =>
             if (x =? x0) && (z =? z0) && Chunk.inBounds x y z
             then roomBlock sx sy sz x y z else old) 0 5 (y - sy)).
  - destruct (Z.eqb_spec x x0), (Z.eqb_spec z z0); cbn [andb]; try done;
      zcases; try done; lia.
  - intros dy c' Hdy Hne. cbv zeta.
    destruct (CHUNK_HEIGHT <=? sy + dy); [done|].
    rewrite if_setBlock, getBlock_setBlock_eqb.
    destruct (Z.eqb_spec (sy + dy) y); [lia|]. by rewrite !andb_false_r.
  - intros c' Hy. cbv zeta. replace (sy + (y - sy)) with y by lia.
    destruct (Z.leb_spec CHUNK_HEIGHT y) as [Hhigh|Hlow].
    + assert (Chunk.inBounds x y z = false) as ->; [|by rewrite !andb_false_r].
      destruct (Chunk.inBounds x y z) eqn:E; [|done].
      apply inBounds_spec in E. lia.
    + rewrite if_setBlock, getBlock_setBlock_eqb.
      rewrite (Z.eqb_sym x0 x), (Z.eqb_sym z0 z), Z.eqb_refl.
      destruct (Z.eqb_spec x x0) as [->|]; [|by rewrite !andb_false_r].
      destruct (Z.eqb_spec z z0) as [->|]; [|by rewrite !andb_false_r].
      rewrite !andb_true_r. cbn [andb].
      destruct (Chunk.inBounds x0 y z0); [|done].
      unfold roomBlock.
      replace (y - sy =? 0) with (y =? sy) by (zcases; try done; lia).
      replace (y - sy =? 5 - 1) with (y =? sy + 4) by (zcases; try done; lia).
      replace (sx + 7 - 1) with (sx + 6) by lia. replace (sz + 7 - 1) with (sz + 6) by lia.
      done.
Qed.

Lemma getBlock_room_loops c sx sy sz x y z :
  getBlock
    (Loop.for_range sx (sx + 7) (fun x chunk =>
       Loop.for_range sz (sz + 7) (fun z chunk =>
         Loop.for_range 0 5 (fun dy chunk =>
           let y := sy + dy in
           if CHUNK_HEIGHT <=? y then chunk
           else
             let isFloor := dy =? 0 in
             let isCeiling := dy =? 5 - 1 in
             let isWall := (x =? sx) || (x =? sx + 7 - 1) || (z =? sz) || (z =? sz + 7 - 1) in
             if isFloor || isCeiling || isWall then setBlock chunk x y z COBBLESTONE
             else setBlock chunk x y z AIR) chunk) chunk) c) x y z
  = if inRoomVolume sx sy sz x y z && Chunk.inBounds x y z
    then roomBlock sx sy sz x y z else getBlock c x y z.
Proof.
  unfold inRoomVolume.
  rewrite (getBlock_for_range_once _ (fun old =>
             if (sz <=? z) && (z <? sz + 7) && (sy <=? y) && (y <? sy + 5)
                && Chunk.inBounds x y z
             then roomBlock sx sy sz x y z else old) sx (sx + 7) x).
  - destruct ((sx <=? x) && (x <? sx + 7)); cbn [andb]; [|done].
    destruct (Z.leb_spec sz z), (Z.ltb_spec z (sz + 7)), (Z.leb_spec sy y),
      (Z.ltb_spec y (sy + 5)); cbn [andb]; done.
  - intros i c' Hi Hne. apply getBlock_for_range_none. intros j c'' Hj.
    rewrite getBlock_room_column. destruct (Z.eqb_spec x i); [lia|]. done.
  - intros c' Hx.
    rewrite (getBlock_for_range_once _ (fun old =>
               if (sy <=? y) && (y <? sy + 5) && Chunk.inBounds x y z
               then roomBlock sx sy sz x y z else old) sz (sz + 7) z).
    + destruct ((sz <=? z) && (z <? sz + 7)); cbn [andb]; done.
    + intros j c'' Hj Hne. rewrite getBlock_room_column.
      destruct (Z.eqb_spec z j); [lia|]. by rewrite !andb_false_r.
    + intros c'' Hz. rewrite getBlock_room_column. by rewrite !Z.eqb_refl.
Qed.

(** The four torches of the room, one cell in from the middle of each
    wall, two cells above the floor. *)
Definition isTorchCell (sx sy sz x y z : Z) : Prop :=
  y = sy + 2
  /\ ((x = sx + 3 /\ (z = sz + 1 \/ z = sz + 5))
      \/ (z = sz + 3 /\ (x = sx + 1 \/ x = sx + 5))).

Definition onRoomShell (sx sy sz x y z : Z) : Prop :=
  x = sx \/ x = sx + 6 \/ y = sy \/ y = sy + 4 \/ z = sz \/ z = sz + 6.

Definition insideRoom (sx sy sz x y z : Z) : Prop :=
  sx <= x < sx + 7 /\ sy <= y < sy + 5 /\ sz <= z < sz + 7.

Lemma inRoomVolume_spec sx sy sz x y z :
  inRoomVolume sx sy sz x y z = true <-> insideRoom sx sy sz x y z.
Proof. unfold inRoomVolume, insideRoom. rewrite !andb_true_iff. lia. Qed.

Lemma roomBlock_shell sx sy sz x y z :
  onRoomShell sx sy sz x y z -> roomBlock sx sy sz x y z = COBBLESTONE.
Proof.
  unfold onRoomShell, roomBlock. intros H.
  assert ((y =? sy) || (y =? sy + 4)
          || ((x =? sx) || (x =? sx + 6) || (z =? sz) || (z =? sz + 6)) = true) as ->; [|done].
  rewrite !orb_true_iff, !Z.eqb_eq. tauto.
Qed.

Lemma roomBlock_interior sx sy sz x y z :
  ~ onRoomShell sx sy sz x y z -> roomBlock sx sy sz x y z = AIR.
Proof.
  unfold onRoomShell, roomBlock. intros H.
  assert ((y =? sy) || (y =? sy + 4)
          || ((x =? sx) || (x =? sx + 6) || (z =? sz) || (z =? sz + 6)) = false) as ->; [|done].
  apply not_true_iff_false. rewrite !orb_true_iff, !Z.eqb_eq. tauto.
Qed.

(** X16: the room [buildDungeon] builds (7 by 7 wide, 5 high).  Outside
    the room no cell changes.  Of the cells of the room that lie inside
    the chunk, those of the floor, the ceiling and the four walls hold
    cobblestone: the room is closed on all sides; the four torch cells
    hold a torch; and every other cell of the interior holds air. *)
Theorem dungeon_room c sx sy sz (x y z : Z) :
  let room := buildDungeon c sx sy sz 7 5 in
  (~ insideRoom sx sy sz x y z -> getBlock room x y z = getBlock c x y z)
  /\ (insideRoom sx sy sz x y z -> Chunk.inBounds x y z = true ->
      (onRoomShell sx sy sz x y z -> getBlock room x y z = COBBLESTONE)
      /\ (isTorchCell sx sy sz x y z -> getBlock room x y z = TORCH)
      /\ (~ onRoomShell sx sy sz x y z -> ~ isTorchCell sx sy sz x y z ->
          getBlock room x y z = AIR)).
Proof.
  cbv zeta. unfold buildDungeon. cbv zeta.
  replace (7 / 2) with 3 by reflexivity.
  replace (sz + 7 - 2) with (sz + 5) by lia. replace (sx + 7 - 2) with (sx + 5) by lia.
  rewrite !getBlock_setBlock_eqb, getBlock_room_loops.
  split.
  - intros Hout.
    assert (inRoomVolume sx sy sz x y z = false) as ->.
    { apply not_true_iff_false. by rewrite inRoomVolume_spec. }
    cbn [andb]. unfold insideRoom in Hout.
    repeat match goal with
    | |- context [Chunk.inBounds ?a ?b ?c && (?a =? x) && (?b =? y) && (?c =? z)] =>
        replace (Chunk.inBounds a b c && (a =? x) && (b =? y) && (c =? z)) with false
          by (symmetry; apply not_true_iff_false;
              rewrite !andb_true_iff, !Z.eqb_eq; lia)
    end.
    done.
  - intros Hin Hb.
    assert (inRoomVolume sx sy sz x y z = true) as -> by by apply inRoomVolume_spec.
    rewrite Hb. cbn [andb]. unfold insideRoom in Hin.
    split; [|split].
    + intros Hshell. rewrite (roomBlock_shell _ _ _ _ _ _ Hshell).
      unfold onRoomShell in Hshell.
      repeat match goal with
      | |- context [Chunk.inBounds ?a ?b ?c && (?a =? x) && (?b =? y) && (?c =? z)] =>
          replace (Chunk.inBounds a b c && (a =? x) && (b =? y) && (c =? z)) with false
            by (symmetry; apply not_true_iff_false;
                rewrite !andb_true_iff, !Z.eqb_eq; lia)
      end.
      done.
    + intros (Hy & Ht).
      destruct Ht as [[Hx [Hz | Hz]] | [Hz [Hx | Hx]]]; subst x y z;
        rewrite ?Hb, ?Z.eqb_refl; cbn [andb];
        repeat match goal with
        | |- context [if ?t then TORCH else _] => destruct t
        end; done.
    + intros Hshell Htorch. rewrite (roomBlock_interior _ _ _ _ _ _ Hshell).
      unfold isTorchCell in Htorch.
      repeat match goal with
      | |- context [Chunk.inBounds ?a ?b ?c && (?a =? x) && (?b =? y) && (?c =? z)] =>
          replace (Chunk.inBounds a b c && (a =? x) && (b =? y) && (c =? z)) with false
            by (symmetry; apply not_true_iff_false;
                rewrite !andb_true_iff, !Z.eqb_eq; lia)
      end.
      done.
Qed.

End StructureShape.


(** ** Where structures and decorations reach *)

Section StructureReach.
Import StructureGenerator.

(** The blocks the three structures are made of. *)
Definition structureBlocks : list BlockType :=
  [SAND_STONE; WATER; AIR; COBBLESTONE; WOOD_OAK; PLANKS_OAK; GLASS; TORCH;
   CRAFTING_TABLE; FURNACE].

(** [y] lies near the surface of some column of the chunk: from one cell
    under the height of the column to five cells over it. *)
Definition nearSurface (heightmap : Heightmap) (y : Z) : Prop :=
  exists cx cz, 0 <= cx < CHUNK_SIZE /\ 0 <= cz < CHUNK_SIZE
    /\ hmGet heightmap cx cz - 1 <= y <= hmGet heightmap cx cz + 5.

(** The cells a structure may write. *)
Definition structureCell (heightmap : Heightmap) (x y z : Z) (b : BlockType) : Prop :=
  2 <= x <= 14 /\ 2 <= z <= 14
  /\ (nearSurface heightmap y \/ 12 <= y <= 43)
  /\ b ∈ structureBlocks.

Ltac structure_block := unfold structureBlocks; by repeat constructor.

Lemma site_cell heightmap cx cz x y z b :
  0 <= cx < 16 -> 0 <= cz < 16 ->
  2 <= x <= 14 -> 2 <= z <= 14 ->
  hmGet heightmap cx cz - 1 <= y <= hmGet heightmap cx cz + 5 ->
  b ∈ structureBlocks ->
  anyBlock x y z AIR /\ structureCell heightmap x y z b.
Proof.
  intros Hcx Hcz Hx Hz Hy Hb. split; [done|].
  split; [done|]. split; [done|]. split; [|done].
  left. exists cx, cz. unfold CHUNK_SIZE. done.
Qed.

Lemma tryPlaceDesertWell_frame c heightmap rng :
  changes_only anyBlock (structureCell heightmap) c
    (tryPlaceDesertWell c heightmap rng).1.1.
Proof.
  unfold tryPlaceDesertWell. cbv zeta.
  replace (CHUNK_SIZE - 5 - 6) with 5 by reflexivity.
  pose proof (next_range rng) as H1. destruct (Rng.next rng) as [u1 r1].
  pose proof (next_range r1) as H2. destruct (Rng.next r1) as [u2 r2].
  cbn [fst snd] in *.
  pose proof (floorMul_range u1 5 H1 ltac:(lia)) as Hsx.
  pose proof (floorMul_range u2 5 H2 ltac:(lia)) as Hsz.
  set (sx := 3 + Rng.floorMul u1 5) in *. set (sz := 3 + Rng.floorMul u2 5) in *.
  assert (3 <= sx <= 7) as Hsx' by (unfold sx; lia).
  assert (3 <= sz <= 7) as Hsz' by (unfold sz; lia).
  clearbody sx sz. clear Hsx Hsz.
  destruct (negb (isFlatArea heightmap sx sz 5 5 1)); cbn [fst]; [apply changes_only_refl|].
  set (baseY := hmGet heightmap (sx + 2) (sz + 2)).
  assert (forall c' x y z b,
            changes_only anyBlock (structureCell heightmap) c c' ->
            sx <= x < sx + 5 -> sz <= z < sz + 5 -> baseY - 1 <= y <= baseY + 2 ->
            b ∈ structureBlocks ->
            changes_only anyBlock (structureCell heightmap) c (setBlock c' x y z b)) as Hw.
  { intros c' x y z b Hc' Hx Hz Hy Hb. apply changes_only_setBlock; [done|]. intros _.
    apply (site_cell heightmap (sx + 2) (sz + 2)); try done; lia. }
  apply for_range_preserves.
  2:{ intros x c1 Hx Hc1. apply for_range_preserves; [done|]. intros z c2 Hz Hc2. cbv zeta.
      apply Hw; [|lia..|structure_block].
      destruct (negb _); [|done]. apply Hw; [done|lia..|structure_block]. }
  apply for_range_preserves.
  2:{ intros x c1 Hx Hc1. apply for_range_preserves; [done|]. intros z c2 Hz Hc2. cbv zeta.
      destruct (negb _); [|done]. apply Hw; [done|lia..|structure_block]. }
  apply for_range_preserves; [apply changes_only_refl|].
  intros x c1 Hx Hc1. apply for_range_preserves; [done|]. intros z c2 Hz Hc2. cbv zeta.
  apply Hw; [|lia..|structure_block]. apply Hw; [done|lia..|structure_block].
Qed.

Lemma tryPlaceCabin_frame c heightmap rng :
  changes_only anyBlock (structureCell heightmap) c
    (tryPlaceCabin c heightmap rng).1.1.
Proof.
  unfold tryPlaceCabin. cbv zeta.
  replace (CHUNK_SIZE - 7 - 4) with 5 by reflexivity.
  replace (CHUNK_SIZE - 5 - 4) with 7 by reflexivity.
  pose proof (next_range rng) as H1. destruct (Rng.next rng) as [u1 r1].
  pose proof (next_range r1) as H2. destruct (Rng.next r1) as [u2 r2].
  cbn [fst snd] in *.
  pose proof (floorMul_range u1 5 H1 ltac:(lia)) as Hsx.
  pose proof (floorMul_range u2 7 H2 ltac:(lia)) as Hsz.
  set (sx := 2 + Rng.floorMul u1 5) in *. set (sz := 2 + Rng.floorMul u2 7) in *.
  assert (2 <= sx <= 6) as Hsx' by (unfold sx; lia).
  assert (2 <= sz <= 8) as Hsz' by (unfold sz; lia).
  clearbody sx sz. clear Hsx Hsz.
  destruct (negb (isFlatArea heightmap sx sz 7 5 2)); cbn [fst]; [apply changes_only_refl|].
  set (baseY := hmGet heightmap (sx + 3) (sz + 2)).
  assert (forall c' x y z b,
            changes_only anyBlock (structureCell heightmap) c c' ->
            sx <= x < sx + 7 -> sz <= z < sz + 5 -> baseY <= y <= baseY + 5 ->
            b ∈ structureBlocks ->
            changes_only anyBlock (structureCell heightmap) c (setBlock c' x y z b)) as Hw.
  { intros c' x y z b Hc' Hx Hz Hy Hb. apply changes_only_setBlock; [done|]. intros _.
    apply (site_cell heightmap (sx + 3) (sz + 2)); try done; lia. }
  apply Hw; [|lia..|structure_block].
  apply Hw; [|lia..|structure_block].
  apply Hw; [|lia..|structure_block].
  apply for_range_preserves.
  2:{ intros x c1 Hx Hc1. apply for_range_preserves; [done|]. intros z c2 Hz Hc2.
      apply Hw; [done|lia..|structure_block]. }
  apply for_range_preserves.
  2:{ intros x c1 Hx Hc1. apply for_range_preserves; [done|]. intros z c2 Hz Hc2.
      apply Hw; [done|lia..|structure_block]. }
  apply for_range_preserves.
  2:{ intros dy c1 Hdy Hc1. cbv zeta.
      apply for_range_preserves; [done|]. intros x c2 Hx Hc2.
      apply for_range_preserves; [done|]. intros z c3 Hz Hc3.
      repeat match goal with
      | |- changes_only _ _ _ (if ?t then _ else _) => destruct t
      end; (apply Hw; [done|lia..|structure_block]). }
  apply for_range_preserves; [apply changes_only_refl|].
  intros x c1 Hx Hc1. apply for_range_preserves; [done|]. intros z c2 Hz Hc2.
  apply Hw; [done|lia..|structure_block].
Qed.

Lemma buildDungeon_frame c heightmap sx sy sz :
  2 <= sx <= 8 -> 12 <= sy <= 39 -> 2 <= sz <= 8 ->
  changes_only anyBlock (structureCell heightmap) c (buildDungeon c sx sy sz 7 5).
Proof.
  intros Hsx Hsy Hsz. unfold buildDungeon. cbv zeta.
  replace (7 / 2) with 3 by reflexivity.
  assert (forall c' x y z b,
            changes_only anyBlock (structureCell heightmap) c c' ->
            sx <= x < sx + 7 -> sz <= z < sz + 7 -> sy <= y < sy + 5 ->
            b ∈ structureBlocks ->
            changes_only anyBlock (structureCell heightmap) c (setBlock c' x y z b)) as Hw.
  { intros c' x y z b Hc' Hx Hz Hy Hb. apply changes_only_setBlock; [done|]. intros _.
    split; [done|]. split; [lia|]. split; [lia|]. split; [right; lia|done]. }
  apply Hw; [|lia..|structure_block].
  apply Hw; [|lia..|structure_block].
  apply Hw; [|lia..|structure_block].
  apply Hw; [|lia..|structure_block].
  apply for_range_preserves; [apply changes_only_refl|].
  intros x c1 Hx Hc1. apply for_range_preserves; [done|]. intros z c2 Hz Hc2.
  apply for_range_preserves; [done|]. intros dy c3 Hdy Hc3. cbv zeta.
  destruct (CHUNK_HEIGHT <=? sy + dy); [done|].
  destruct (_ || _ || _); (apply Hw; [done|lia..|structure_block]).
Qed.

Lemma tryPlaceDungeon_frame c heightmap rng :
  changes_only anyBlock (structureCell heightmap) c (tryPlaceDungeon c rng).1.1.
Proof.
  unfold tryPlaceDungeon.
  destruct (tryPlaceDungeonFrom_spec 5 c rng) as [[H _] | (k & _ & _ & _ & H)];
    rewrite H; cbn [fst].
  - apply changes_only_refl.
  - pose proof (dungeonCandidate_range (advance (3 * k) rng)) as Hr.
    unfold buildDungeonAt.
    destruct (dungeonCandidate (advance (3 * k) rng)) as [[sx sy] sz].
    destruct Hr as (Hx & Hy & Hz). by apply buildDungeon_frame.
Qed.

(** [placeStructures] leaves the chunk, or one structure built on it. *)
Lemma placeStructures_cases seed chunk heightmap biomeMap worldX worldZ rng :
  let result := (placeStructures seed chunk heightmap biomeMap worldX worldZ rng).1 in
  result = chunk
  \/ (exists srng srng', tryPlaceDesertWell chunk heightmap srng = (result, true, srng'))
  \/ (exists srng srng', tryPlaceCabin chunk heightmap srng = (result, true, srng'))
  \/ (exists srng srng', tryPlaceDungeon chunk srng = (result, true, srng')).
Proof.
  intros result. subst result. unfold placeStructures.
  generalize (structureRng seed worldX worldZ) as structRng.
  generalize (BiomeMap.getBiome biomeMap (worldX + 8) (worldZ + 8)) as centerBiome.
  intros centerBiome structRng.
  assert (forall srng,
    let r := (let '(chunk', placed, srng') :=
                if biome_eqb centerBiome PLAINS || biome_eqb centerBiome FOREST then
                  let '(u, srng') := Rng.next srng in
                  if Rng.lt u 2 100 then tryPlaceCabin chunk heightmap srng'
                  else (chunk, false, srng')
                else (chunk, false, srng) in
              if placed then (chunk', rng)
              else let '(u, srng'') := Rng.next srng' in
                   if Rng.lt u 5 100 then ((tryPlaceDungeon chunk' srng'').1.1, rng)
                   else (chunk', rng)).1 in
    r = chunk
    \/ (exists srng0 srng', tryPlaceCabin chunk heightmap srng0 = (r, true, srng'))
    \/ (exists srng0 srng', tryPlaceDungeon chunk srng0 = (r, true, srng'))) as Htail.
  { intros srng.
    destruct (cabin_tail chunk heightmap centerBiome rng srng) as [H | [[s0 H] | H]].
    - by left.
    - right. left. exists s0, (advance 2 s0). destruct (cabinSite s0). by destruct H.
    - right. right. exact H. }
  destruct (biome_eqb centerBiome DESERT).
  2:{ destruct (Htail structRng) as [H | [H | H]]; tauto. }
  destruct (Rng.next structRng) as [u srng1].
  destruct (Rng.lt u 3 100).
  2:{ destruct (Htail srng1) as [H | [H | H]]; tauto. }
  pose proof (tryPlaceDesertWell_cases chunk heightmap srng1) as Hwell.
  destruct (wellSite srng1) as [sx sz] eqn:Esite.
  destruct Hwell as [[Hf [c' Heq]] | [_ Heq]]; rewrite Heq.
  - right. left. exists srng1, (advance 2 srng1). rewrite Heq. reflexivity.
  - destruct (Htail (advance 2 srng1)) as [H | [H | H]]; tauto.
Qed.

Lemma placeStructures_frame seed c heightmap biomeMap worldX worldZ rng :
  changes_only anyBlock (structureCell heightmap) c
    (placeStructures seed c heightmap biomeMap worldX worldZ rng).1.
Proof.
  pose proof (placeStructures_cases seed c heightmap biomeMap worldX worldZ rng) as H.
  cbv zeta in H.
  generalize dependent (placeStructures seed c heightmap biomeMap worldX worldZ rng).1.
  intros r [-> | [(s & s' & H) | [(s & s' & H) | (s & s' & H)]]].
  - apply changes_only_refl.
  - pose proof (tryPlaceDesertWell_frame c heightmap s) as Hf. by rewrite H in Hf.
  - pose proof (tryPlaceCabin_frame c heightmap s) as Hf. by rewrite H in Hf.
  - pose proof (tryPlaceDungeon_frame c heightmap s) as Hf. by rewrite H in Hf.
Qed.

(** X17: where the large structures reach.  After [placeStructures]
    every cell of the chunk holds what it held, or lies in the columns 2
    to 14 of both axes, so no structure touches the border columns of a
    chunk or is cut at its edge; its height is within one cell under and
    five cells over the height the heightmap gives some column (a well or
    a cabin), or from 12 to 43 (a dungeon); and it holds one of the ten
    blocks the structures are made of. *)
Theorem structures_fit_the_chunk seed c heightmap biomeMap worldX worldZ rng (x y z : Z) :
  let built := (placeStructures seed c heightmap biomeMap worldX worldZ rng).1 in
  getBlock built x y z = getBlock c x y z
  \/ (2 <= x <= 14 /\ 2 <= z <= 14
      /\ (nearSurface heightmap y \/ 12 <= y <= 43)
      /\ getBlock built x y z ∈ structureBlocks).
Proof.
  cbv zeta.
  destruct (placeStructures_frame seed c heightmap biomeMap worldX worldZ rng x y z)
    as [E | [_ H]]; [by left | by right].
Qed.

(** *** Decorations *)

Definition decorationBlocks : list BlockType :=
  [TALL_GRASS; FLOWER_RED; FLOWER_YELLOW; CACTUS].

(** The cells phase 2 may write: the cell over the surface of a column, or
    the upper cells of a cactus. *)
Definition decorationCell (heightmap : Heightmap) (x y z : Z) (b : BlockType) : Prop :=
  0 <= x < CHUNK_SIZE /\ 0 <= z < CHUNK_SIZE
  /\ ((y = hmGet heightmap x z + 1 /\ b ∈ decorationBlocks)
      \/ (hmGet heightmap x z + 2 <= y <= hmGet heightmap x z + 3 /\ b = CACTUS)).

(** The cells phase 2 may replace: air, or what is in the way of the
    upper cells of a cactus. *)
Definition decorationOver (heightmap : Heightmap) (x y z : Z) (old : BlockType) : Prop :=
  old = AIR \/ hmGet heightmap x z + 2 <= y.

Lemma changes_only_setBlock_same Old New c c' x y z b :
  getBlock c' x y z = b ->
  changes_only Old New c c' -> changes_only Old New c (setBlock c' x y z b).
Proof.
  intros Hb H x' y' z'. rewrite getBlock_setBlock.
  destruct (Chunk.inBounds x y z); [|apply H]. cbn [andb].
  case_bool_decide as Heq; [|apply H]. inversion Heq; subst x' y' z'.
  rewrite <- Hb. apply H.
Qed.

Lemma decorate_cell_frame heightmap c0 c lx lz b :
  0 <= lx < CHUNK_SIZE -> 0 <= lz < CHUNK_SIZE ->
  getBlock c lx (hmGet heightmap lx lz + 1) lz = AIR ->
  b ∈ decorationBlocks ->
  changes_only (decorationOver heightmap) (decorationCell heightmap) c0 c ->
  changes_only (decorationOver heightmap) (decorationCell heightmap) c0
    (setBlock c lx (hmGet heightmap lx lz + 1) lz b).
Proof.
  intros Hx Hz Hair Hb Hc. apply changes_only_setBlock; [done|]. intros _.
  split; [by left|]. split; [done|]. split; [done|]. left. by split.
Qed.

Lemma cactus_frame heightmap c0 c lx lz height :
  0 <= lx < CHUNK_SIZE -> 0 <= lz < CHUNK_SIZE ->
  2 <= height <= 3 ->
  getBlock c lx (hmGet heightmap lx lz + 1) lz = AIR ->
  changes_only (decorationOver heightmap) (decorationCell heightmap) c0 c ->
  changes_only (decorationOver heightmap) (decorationCell heightmap) c0
    (Loop.for_break 0 height (fun dy chunk =>
       if 256 <=? hmGet heightmap lx lz + 1 + dy then None
       else Some (setBlock chunk lx (hmGet heightmap lx lz + 1 + dy) lz CACTUS)) c).
Proof.
  intros Hx Hz Hh Hair Hc.
  set (y := hmGet heightmap lx lz + 1) in *.
  apply (for_break_preserves (fun c' =>
           changes_only (decorationOver heightmap) (decorationCell heightmap) c0 c'
           /\ (getBlock c' lx y lz = AIR \/ getBlock c' lx y lz = CACTUS))).
  - split; [done|by left].
  - intros dy c1 c2 Hdy [Hc1 Hbase]. destruct (256 <=? y + dy); [discriminate|].
    intros [= <-]. split.
    + destruct (Z.eq_dec dy 0) as [->|Hne].
      * rewrite Z.add_0_r. destruct Hbase as [Ha | Hcactus].
        -- apply decorate_cell_frame; try done. unfold decorationBlocks. by repeat constructor.
        -- by apply changes_only_setBlock_same.
      * apply changes_only_setBlock; [done|]. intros _. unfold y. split.
        -- right. lia.
        -- split; [done|]. split; [done|]. right. split; [lia|done].
    + rewrite getBlock_setBlock_eqb.
      destruct (Chunk.inBounds lx (y + dy) lz && (lx =? lx) && (y + dy =? y) && (lz =? lz));
        [by right|done].
Qed.

Lemma decorateColumn_frame heightmap biomeMap worldX worldZ lx lz c0 c rng :
  0 <= lx < CHUNK_SIZE -> 0 <= lz < CHUNK_SIZE ->
  changes_only (decorationOver heightmap) (decorationCell heightmap) c0 c ->
  changes_only (decorationOver heightmap) (decorationCell heightmap) c0
    (decorateColumn heightmap biomeMap worldX worldZ lx lz c rng).1.
Proof.
  intros Hx Hz Hc. unfold decorateColumn. cbv zeta.
  destruct (256 <=? hmGet heightmap lx lz + 1); [done|].
  destruct (block_eqb (getBlock c lx (hmGet heightmap lx lz + 1) lz) AIR) eqn:Hair;
    cbn [negb]; [|done].
  apply block_eqb_eq in Hair.
  assert (forall b, b ∈ decorationBlocks ->
            changes_only (decorationOver heightmap) (decorationCell heightmap) c0
              (setBlock c lx (hmGet heightmap lx lz + 1) lz b)) as Hset
    by (intros b Hb; by apply decorate_cell_frame).
  assert (TALL_GRASS ∈ decorationBlocks) as Hg by (unfold decorationBlocks; by repeat constructor).
  assert (FLOWER_RED ∈ decorationBlocks) as Hr by (unfold decorationBlocks; by repeat constructor).
  assert (FLOWER_YELLOW ∈ decorationBlocks) as Hy
    by (unfold decorationBlocks; by repeat constructor).
  destruct (BiomeMap.getBiome biomeMap (worldX + lx) (worldZ + lz)); try done;
    unfold decoratePlains, decorateForest, decorateDesert, decorateTaiga, decorateTundra,
      decorateJungle, decorateSwamp.
  - destruct (Rng.next rng) as [roll r1]. destruct (Rng.lt roll 30 100); [by apply Hset|].
    destruct (Rng.lt roll 33 100); [|done]. destruct (Rng.next r1) as [u r2]. cbn [fst].
    destruct (Rng.lt u 5 10); by apply Hset.
  - destruct (Rng.next rng) as [roll r1]. destruct (Rng.lt roll 35 100); [by apply Hset|].
    destruct (Rng.lt roll 43 100); [|done]. destruct (Rng.next r1) as [u r2]. cbn [fst].
    destruct (Rng.lt u 5 10); by apply Hset.
  - destruct (Rng.next rng) as [u r1]. destruct (Rng.ge u 2 100); [done|].
    destruct (negb (hasClearNeighbours _ _ _ _)); [done|].
    pose proof (next_range r1) as Hu. destruct (Rng.next r1) as [u2 r2]. cbn [fst snd] in *.
    pose proof (floorMul_range u2 2 Hu ltac:(lia)).
    apply cactus_frame; try done. lia.
  - destruct (Rng.next rng) as [u r1]. destruct (Rng.lt u 15 100); [by apply Hset|done].
  - destruct (Rng.next rng) as [u r1]. destruct (Rng.lt u 2 100); [by apply Hset|done].
  - destruct (Rng.next rng) as [roll r1]. destruct (Rng.lt roll 40 100); [by apply Hset|].
    destruct (Rng.lt roll 50 100); [|done]. destruct (Rng.next r1) as [u r2]. cbn [fst].
    destruct (Rng.lt u 6 10); by apply Hset.
  - destruct (Rng.next rng) as [roll r1]. destruct (Rng.lt roll 25 100); [by apply Hset|].
    destruct (Rng.lt roll 28 100); [by apply Hset|done].
Qed.

Lemma decorateColumns_frame c heightmap biomeMap worldX worldZ rng :
  changes_only (decorationOver heightmap) (decorationCell heightmap) c
    (decorateColumns c heightmap biomeMap worldX worldZ rng).1.
Proof.
  unfold decorateColumns.
  apply (for_range_preserves (fun st : Chunk * Rng.t =>
           changes_only (decorationOver heightmap) (decorationCell heightmap) c st.1));
    [apply changes_only_refl|].
  intros lx st Hlx Hst.
  apply (for_range_preserves (fun st : Chunk * Rng.t =>
           changes_only (decorationOver heightmap) (decorationCell heightmap) c st.1));
    [done|].
  intros lz [c1 r1] Hlz Hc1. cbn [fst] in Hc1. by apply decorateColumn_frame.
Qed.

(** X18: what the decoration phase writes.  After the phase-2 loops
    every cell of the chunk holds what it held, or is the cell just over
    the surface of its column, held air, and holds tall grass, a flower
    or a cactus; or it is one of the two cells over that and holds a
    cactus, whatever it held: only the upper cells of a cactus can
    replace a block. *)
Theorem decorations_replace_air c heightmap biomeMap worldX worldZ rng (x y z : Z) :
  let decorated := (decorateColumns c heightmap biomeMap worldX worldZ rng).1 in
  let h := hmGet heightmap x z in
  getBlock decorated x y z = getBlock c x y z
  \/ (y = h + 1 /\ getBlock c x y z = AIR /\ getBlock decorated x y z ∈ decorationBlocks)
  \/ (h + 2 <= y <= h + 3 /\ getBlock decorated x y z = CACTUS).
Proof.
  cbv zeta.
  destruct (decorateColumns_frame c heightmap biomeMap worldX worldZ rng x y z)
    as [E | [Hold (_ & _ & [[Hy Hb] | [Hy Hb]])]]; [by left | |].
  - right. left. split; [done|]. split; [|done].
    destruct Hold as [Ha | Hh]; [done|lia].
  - right. right. done.
Qed.

End StructureReach.


(** ** The pipeline: water, soil and the bedrock floor *)

Section PipelineFacts.
Import TerrainGenerator.
Variable SEA_LEVEL : Z.

Lemma columnBlock_above h biome y :
  h < y -> 1 <= h ->
  columnBlock SEA_LEVEL h biome y = if y <=? SEA_LEVEL then WATER else AIR.
Proof.
  intros Hy Hh. unfold columnBlock.
  destruct (Z.eqb_spec y 0); [lia|]. destruct (Z.ltb_spec y (h - 4)); [lia|].
  destruct (Z.ltb_spec y h); [lia|]. destruct (Z.eqb_spec y h); [lia|].
  destruct (Z.leb_spec y SEA_LEVEL); cbn [andb]; [|done].
  destruct (biome_eqb biome OCEAN); [done|].
  destruct (Z.ltb_spec h SEA_LEVEL); [done|lia].
Qed.

Lemma columnBlock_ground h biome y :
  y <= h -> columnBlock SEA_LEVEL h biome y <> WATER /\ columnBlock SEA_LEVEL h biome y <> AIR.
Proof.
  intros Hy. unfold columnBlock.
  destruct (Z.eqb_spec y 0); [done|]. destruct (Z.ltb_spec y (h - 4)); [done|].
  destruct (Z.ltb_spec y h); [by destruct biome|].
  destruct (Z.eqb_spec y h); [by destruct biome|lia].
Qed.

(** X19: water stands exactly up to sea level.  After [buildTerrain], in
    every column of the chunk and whatever its biome, a cell holds water
    exactly when it lies over the surface height the heightmap records
    and at or under [SEA_LEVEL]; a cell over both holds air, and no cell
    at or under the surface holds water or air.  (The test for the ocean
    biome in [fillColumn] changes nothing: a cell over the surface and
    under sea level is in a column that dips under sea level.) *)
Theorem water_up_to_sea_level g c worldX worldZ (x y z : Z) :
  Chunk.inBounds x y z = true ->
  let r := buildTerrain SEA_LEVEL g c worldX worldZ in
  let h := hmGet r.2 x z in
  1 <= h <= CHUNK_HEIGHT - 1
  /\ (getBlock r.1 x y z = WATER <-> h < y <= SEA_LEVEL)
  /\ (getBlock r.1 x y z = AIR <-> h < y /\ SEA_LEVEL < y).
Proof.
  intros Hin. cbv zeta.
  destruct (buildTerrain_spec SEA_LEVEL g c worldX worldZ) as [Hc _]. cbv zeta in Hc.
  rewrite (Hc x y z Hin). apply inBounds_spec in Hin.
  rewrite hmGet_buildTerrain by lia.
  pose proof (columnHeight_range g worldX worldZ x z) as Hh.
  set (h := columnHeight g worldX worldZ x z) in *.
  set (biome := columnBiome g worldX worldZ x z).
  split; [done|].
  destruct (Z_lt_le_dec h y) as [Habove | Hbelow].
  - rewrite columnBlock_above by lia.
    destruct (Z.leb_spec y SEA_LEVEL); split; split; try done; try lia; intros; lia.
  - destruct (columnBlock_ground h biome y Hbelow) as [Hw Ha].
    split; split; try done; intros; lia.
Qed.

(** X20: the surface fill overwrites the chunk.  [buildTerrain] writes
    every cell, so the grid and the heightmap it leaves do not depend on
    what the chunk held: filling a used chunk gives what filling an empty
    one gives.  The heightmap has 16 rows of 16 heights, each clamped
    into [1 .. CHUNK_HEIGHT - 1] whatever the noise gave. *)
Theorem surface_fill_overwrites g c1 c2 worldX worldZ (x y z : Z) :
  let r1 := buildTerrain SEA_LEVEL g c1 worldX worldZ in
  let r2 := buildTerrain SEA_LEVEL g c2 worldX worldZ in
  getBlock r1.1 x y z = getBlock r2.1 x y z
  /\ r1.2 = r2.2
  /\ length r1.2 = 16%nat
  /\ (forall row, row ∈ r1.2 ->
        length row = 16%nat /\ forall h, h ∈ row -> 1 <= h <= CHUNK_HEIGHT - 1).
Proof.
  cbv zeta.
  destruct (buildTerrain_spec SEA_LEVEL g c1 worldX worldZ) as [Hc1 Hh1].
  destruct (buildTerrain_spec SEA_LEVEL g c2 worldX worldZ) as [Hc2 Hh2].
  cbv zeta in *. split; [|split; [|split]].
  - destruct (Chunk.inBounds x y z) eqn:Hin.
    + by rewrite Hc1, Hc2.
    + by rewrite !getBlock_outside.
  - by rewrite Hh1, Hh2.
  - rewrite Hh1. rewrite length_fmap. by rewrite length_seqZ.
  - rewrite Hh1. intros row Hrow.
    apply list_elem_of_fmap in Hrow as (lx & -> & _).
    split; [rewrite length_fmap; by rewrite length_seqZ|].
    intros h Hh. apply list_elem_of_fmap in Hh as (lz & -> & _).
    apply columnHeight_range.
Qed.

(** A chunk none of whose surface blocks is grass, dirt or snow gets no
    tree. *)
Lemma trees_need_soil g c heightmap worldX worldZ :
  (forall lx lz, 0 <= lx < CHUNK_SIZE -> 0 <= lz < CHUNK_SIZE ->
     let b := getBlock c lx (hmGet heightmap lx lz) lz in
     b <> GRASS /\ b <> DIRT /\ b <> SNOW) ->
  placeTrees SEA_LEVEL g c heightmap worldX worldZ = c.
Proof.
  intros Hsoil. unfold placeTrees.
  apply (for_range_preserves (fun st : Chunk * Rng.t => st.1 = c)); [done|].
  intros lx st Hlx Hst.
  apply (for_range_preserves (fun st : Chunk * Rng.t => st.1 = c)); [done|].
  intros lz [c1 r1] Hlz Hc1. cbn [fst] in Hc1. subst c1. cbv zeta.
  destruct (_ && biome_eqb _ OCEAN); [done|].
  destruct (shouldPlaceTree _ r1) as [[treeType|] r2]; [|done].
  destruct (Hsoil lx lz Hlx Hlz) as (Hg & Hd & Hs).
  apply block_eqb_neq in Hg, Hd, Hs. rewrite Hg, Hd, Hs. done.
Qed.

(** The biomes whose surface block is sand or stone. *)
Definition barren (biome : Biome) : Prop :=
  biome = DESERT \/ biome = MOUNTAINS \/ biome = OCEAN \/ biome = BEACH.

(** X21: no tree grows on sand or stone.  When every column of the
    chunk has a biome whose surface block is sand or stone (desert,
    beach, ocean, or mountains, which override the others), [placeTrees]
    run on what [buildTerrain] leaves changes nothing, whatever
    [shouldPlaceTree] rolls: the spruces it rolls for mountain columns
    are never planted, since the surface of the column is stone.  (The
    worked input below is a chunk of mountains in which a spruce is
    rolled.) *)
Theorem no_tree_on_sand_or_stone g c worldX worldZ :
  (forall lx lz, 0 <= lx < CHUNK_SIZE -> 0 <= lz < CHUNK_SIZE ->
     barren (effectiveBiome g (worldX + lx) (worldZ + lz))) ->
  let filled := buildTerrain SEA_LEVEL g c worldX worldZ in
  placeTrees SEA_LEVEL g filled.1 filled.2 worldX worldZ = filled.1.
Proof.
  intros Hbarren. cbv zeta. apply trees_need_soil.
  intros lx lz Hlx Hlz. cbv zeta.
  destruct (buildTerrain_spec SEA_LEVEL g c worldX worldZ) as [Hc _]. cbv zeta in Hc.
  rewrite hmGet_buildTerrain by done.
  pose proof (columnHeight_range g worldX worldZ lx lz) as Hh.
  rewrite Hc by (apply inBounds_spec; unfold CHUNK_HEIGHT, CHUNK_SIZE in *; lia).
  specialize (Hbarren lx lz Hlx Hlz).
  unfold columnBiome. unfold columnBlock.
  set (h := columnHeight g worldX worldZ lx lz) in *.
  destruct (Z.eqb_spec h 0); [lia|]. destruct (Z.ltb_spec h (h - 4)); [lia|].
  destruct (Z.ltb_spec h h); [lia|]. rewrite Z.eqb_refl.
  destruct Hbarren as [-> | [-> | [-> | ->]]]; done.
Qed.

(** *** The floor of the world *)

(** A pass that leaves the layer [y = 0] as it is. *)
Definition keeps_floor (pass : Chunk -> Z -> Z -> Chunk) : Prop :=
  forall c worldX worldZ x z, getBlock (pass c worldX worldZ) x 0 z = getBlock c x 0 z.

Definition treeBlocks : list BlockType :=
  [WOOD_OAK; LEAVES_OAK; WOOD_BIRCH; LEAVES_BIRCH; WOOD_SPRUCE; LEAVES_SPRUCE;
   WOOD_JUNGLE; LEAVES_JUNGLE].

(** The cells [placeTrees] may write when no surface lies under [low]. *)
Definition forestCell (low : Z) (x y z : Z) (b : BlockType) : Prop :=
  low + 1 <= y /\ b ∈ treeBlocks.

Lemma placeTrees_frame g c heightmap worldX worldZ low :
  (forall lx lz, 0 <= lx < CHUNK_SIZE -> 0 <= lz < CHUNK_SIZE -> low <= hmGet heightmap lx lz) ->
  changes_only anyBlock (forestCell low) c (placeTrees SEA_LEVEL g c heightmap worldX worldZ).
Proof.
  intros Hlow. unfold placeTrees.
  apply (for_range_preserves (fun st : Chunk * Rng.t =>
           changes_only anyBlock (forestCell low) c st.1)); [apply changes_only_refl|].
  intros lx st Hlx Hst.
  apply (for_range_preserves (fun st : Chunk * Rng.t =>
           changes_only anyBlock (forestCell low) c st.1)); [done|].
  intros lz [c1 r1] Hlz Hc1. cbn [fst] in Hc1. cbv zeta.
  destruct (_ && biome_eqb _ OCEAN); [done|].
  destruct (shouldPlaceTree _ r1) as [[treeType|] r2]; [|done].
  destruct (_ && _ && _); [done|].
  eapply changes_only_trans; [exact Hc1|].
  eapply changes_only_mono; [| |apply generateTree_frame].
  - done.
  - intros x y z b Hcell. specialize (Hlow lx lz Hlx Hlz).
    assert (b ∈ treeBlocks /\ hmGet heightmap lx lz + 1 <= y) as [Hb Hy].
    { destruct Hcell as [(_ & _ & Hy & ->) | (_ & _ & Hy & ->)];
        (split; [destruct treeType; unfold treeBlocks; by repeat constructor | lia]). }
    split; [lia|done].
Qed.

Lemma mineshaft_keeps_floor seed c worldX worldZ x z :
  getBlock (MineshaftGenerator.generate seed c worldX worldZ) x 0 z = getBlock c x 0 z.
Proof.
  apply (changes_only_keeps anyBlock mineshaftCell); [apply mineshaft_generate_frame|].
  intros b [_ [Hy _]]. lia.
Qed.

Lemma placeTrees_keeps_floor g c heightmap worldX worldZ x z :
  (forall lx lz, 0 <= lx < CHUNK_SIZE -> 0 <= lz < CHUNK_SIZE -> 0 <= hmGet heightmap lx lz) ->
  getBlock (placeTrees SEA_LEVEL g c heightmap worldX worldZ) x 0 z = getBlock c x 0 z.
Proof.
  intros Hlow.
  apply (changes_only_keeps anyBlock (forestCell 0)); [by apply placeTrees_frame|].
  intros b [_ [Hy _]]. lia.
Qed.

Lemma structures_keep_floor seed c heightmap biomeMap worldX worldZ x z :
  (forall lx lz, 0 <= lx < CHUNK_SIZE -> 0 <= lz < CHUNK_SIZE -> 2 <= hmGet heightmap lx lz) ->
  0 <= x < CHUNK_SIZE -> 0 <= z < CHUNK_SIZE ->
  getBlock (StructureGenerator.generate seed c heightmap biomeMap worldX worldZ) x 0 z
  = getBlock c x 0 z.
Proof.
  intros Hlow Hx Hz. unfold StructureGenerator.generate.
  pose proof (placeStructures_frame seed c heightmap biomeMap worldX worldZ
                (StructureGenerator.chunkRng seed worldX worldZ)) as Hs.
  destruct (StructureGenerator.placeStructures seed c heightmap biomeMap worldX worldZ _)
    as [c1 r1]. cbn [fst] in Hs.
  transitivity (getBlock c1 x 0 z).
  - apply (changes_only_keeps (decorationOver heightmap) (decorationCell heightmap));
      [apply decorateColumns_frame|].
    intros b [_ (_ & _ & [[Hy _] | [Hy _]])]; specialize (Hlow x z Hx Hz); lia.
  - apply (changes_only_keeps anyBlock (structureCell heightmap)); [exact Hs|].
    intros b [_ (_ & _ & [(cx & cz & Hcx & Hcz & Hy) | Hy] & _)]; [|lia].
    specialize (Hlow cx cz Hcx Hcz). lia.
Qed.

(** X22: the bedrock floor survives the pipeline.  When the cave and ore
    passes leave the layer [y = 0] as it is, and the noise gives every
    column a surface height of at least 2, every cell of the layer
    [y = 0] of the chunk holds bedrock after [generateChunk]: no
    mineshaft, tree, structure or decoration reaches it.  (At a surface
    height of 1 the floor of a desert well would be written into the
    layer.) *)
Theorem bedrock_floor_survives g c (x z : Z) :
  keeps_floor (caveCarve g) -> keeps_floor (oreGenerate g) ->
  (forall biome wx wz, 2 <= sampleSurfaceHeight g biome wx wz) ->
  0 <= x < CHUNK_SIZE -> 0 <= z < CHUNK_SIZE ->
  getBlock (generateChunk SEA_LEVEL g c) x 0 z = BEDROCK.
Proof.
  intros Hcave Hore Hhigh Hx Hz. unfold generateChunk. cbv zeta.
  set (worldX := Chunk.cx c * CHUNK_SIZE). set (worldZ := Chunk.cz c * CHUNK_SIZE).
  pose proof (buildTerrain_spec SEA_LEVEL g c worldX worldZ) as [Hc _]. cbv zeta in Hc.
  assert (forall lx lz, 0 <= lx < CHUNK_SIZE -> 0 <= lz < CHUNK_SIZE ->
            2 <= hmGet (buildTerrain SEA_LEVEL g c worldX worldZ).2 lx lz) as Hhm.
  { intros lx lz Hlx Hlz. rewrite hmGet_buildTerrain by done.
    unfold columnHeight. specialize (Hhigh (columnBiome g worldX worldZ lx lz)
                                        (worldX + lx) (worldZ + lz)).
    unfold CHUNK_HEIGHT. lia. }
  specialize (Hc x 0 z ltac:(apply inBounds_spec; unfold CHUNK_HEIGHT, CHUNK_SIZE in *; lia)).
  destruct (buildTerrain SEA_LEVEL g c worldX worldZ) as [c1 hm]. cbn [fst snd] in *.
  rewrite structures_keep_floor by done.
  rewrite placeTrees_keeps_floor by (intros lx lz Hlx Hlz; specialize (Hhm lx lz Hlx Hlz); lia).
  rewrite mineshaft_keeps_floor. rewrite Hore, Hcave. rewrite Hc. reflexivity.
Qed.

End PipelineFacts.

(** A well on a surface of height 1: its floor is written into the
    layer [y = 0]. *)
Example well_floor_in_the_bottom_layer :
  let r := StructureGenerator.tryPlaceDesertWell (Chunk.empty 0 0)
             (replicate 16 (replicate 16 1)) (Rng.mulberry32 1) in
  r.1.2 = true /\ getBlock r.1.1 7 0 5 = SAND_STONE.
Proof. vm_compute. done. Qed.

(** The theorems above at worked inputs. *)

Lemma water_up_to_sea_level_witness :
  let r := TerrainGenerator.buildTerrain 62 (TerrainGenerator.mk 42 plainsMap (fun _ _ => false)
                              (fun _ _ _ => 50) (fun chunk _ _ => chunk)
                              (fun chunk _ _ => chunk)) (Chunk.empty 0 0) 0 0 in
  let h := hmGet r.2 8 8 in
  1 <= h <= CHUNK_HEIGHT - 1
  /\ (getBlock r.1 8 60 8 = WATER <-> h < 60 <= 62)
  /\ (getBlock r.1 8 60 8 = AIR <-> h < 60 /\ 62 < 60).
Proof.
  apply (water_up_to_sea_level 62
           (TerrainGenerator.mk 42 plainsMap (fun _ _ => false) (fun _ _ _ => 50)
              (fun chunk _ _ => chunk) (fun chunk _ _ => chunk))
           (Chunk.empty 0 0) 0 0 8 60 8).
  reflexivity.
Defined.

(** A generator whose every column lies in a mountain region: plains
    under the mountain override, a flat surface of stone at height 64. *)
Definition mountainWorld (seed : Z) : TerrainGenerator.t :=
  TerrainGenerator.mk seed plainsMap (fun _ _ => true) (fun _ _ _ => 64)
    (fun chunk _ _ => chunk) (fun chunk _ _ => chunk).

(** With seed 7 the tree stream of the chunk at the origin rolls a spruce
    at the column [(4, 12)], its draw number [76 = 4 * 16 + 12]: on grass
    the spruce is planted, on stone it is not. *)
Example spruce_waits_for_soil :
  let grass := setBlock (Chunk.empty 0 0) 4 64 12 GRASS in
  let stone := setBlock (Chunk.empty 0 0) 4 64 12 STONE in
  getBlock (TerrainGenerator.placeTrees 62 (mountainWorld 7) grass flatHeights 0 0) 4 65 12
    = WOOD_SPRUCE
  /\ TerrainGenerator.placeTrees 62 (mountainWorld 7) stone flatHeights 0 0 = stone.
Proof. split; vm_compute; reflexivity. Qed.

Lemma no_tree_on_sand_or_stone_witness :
  (TerrainGenerator.shouldPlaceTree MOUNTAINS
     (advance 76 (TerrainGenerator.chunkRng (mountainWorld 7) 0 0))).1
    = Some TreeType.SPRUCE
  /\ let filled := TerrainGenerator.buildTerrain 62 (mountainWorld 7) (Chunk.empty 0 0) 0 0 in
     TerrainGenerator.placeTrees 62 (mountainWorld 7) filled.1 filled.2 0 0 = filled.1.
Proof.
  split; [vm_compute; reflexivity|].
  apply (no_tree_on_sand_or_stone 62 (mountainWorld 7) (Chunk.empty 0 0) 0 0).
  intros lx lz _ _. right. left. reflexivity.
Defined.

Lemma bedrock_floor_survives_witness :
  getBlock (TerrainGenerator.generateChunk 62 (flatWorld 42) (Chunk.empty 0 0)) 8 0 8 = BEDROCK.
Proof.
  apply (bedrock_floor_survives 62 (flatWorld 42) (Chunk.empty 0 0) 8 8).
  - intros c worldX worldZ x z. reflexivity.
  - intros c worldX worldZ x z. reflexivity.
  - intros biome wx wz. cbn. lia.
  - unfold CHUNK_SIZE. lia.
  - unfold CHUNK_SIZE. lia.
Defined.


(** ** Structures: the well and the cabin *)

(** Settle the integer comparisons of the goal that the hypotheses
    decide. *)
Ltac settle :=
  repeat match goal with
  | |- context [Z.leb ?a ?b] =>
      first [ replace (Z.leb a b) with true by (symmetry; apply Z.leb_le; lia)
            | replace (Z.leb a b) with false by (symmetry; apply Z.leb_gt; lia) ]
  | |- context [Z.ltb ?a ?b] =>
      first [ replace (Z.ltb a b) with true by (symmetry; apply Z.ltb_lt; lia)
            | replace (Z.ltb a b) with false by (symmetry; apply Z.ltb_ge; lia) ]
  | |- context [Z.eqb ?a ?b] =>
      first [ replace (Z.eqb a b) with true by (symmetry; apply Z.eqb_eq; lia)
            | replace (Z.eqb a b) with false by (symmetry; apply Z.eqb_neq; lia) ]
  end;
  repeat (cbn [andb orb negb];
          rewrite ?andb_false_r, ?andb_true_r, ?orb_false_r, ?orb_true_r).

(** Case analysis on the comparisons that are left, then [tac]. *)
Ltac cases_then tac :=
  settle;
  repeat (match goal with
          | |- context [Z.eqb ?a ?b] => destruct (Z.eqb_spec a b)
          | |- context [Z.leb ?a ?b] => destruct (Z.leb_spec a b)
          | |- context [Z.ltb ?a ?b] => destruct (Z.ltb_spec a b)
          end; settle);
  tac.

Ltac crush := cases_then ltac:(first [done | exfalso; lia]).

Section SurfaceStructures.
Import StructureGenerator.

(** Two nested loops over an area, whose body at [(i, j)] reaches the
    cell [(x, y, z)] only when [(i, j) = (x, z)]. *)
Lemma getBlock_area_loop (body : Z -> Z -> Chunk -> Chunk) (upd : BlockType -> BlockType)
    x0 x1 z0 z1 c x y z :
  (forall i j c', x0 <= i < x1 -> z0 <= j < z1 -> i <> x \/ j <> z ->
     getBlock (body i j c') x y z = getBlock c' x y z) ->
  (forall c', x0 <= x < x1 -> z0 <= z < z1 ->
     getBlock (body x z c') x y z = upd (getBlock c' x y z)) ->
  getBlock
    (Loop.for_range x0 x1 (fun i c => Loop.for_range z0 z1 (fun j c => body i j c) c) c)
    x y z
  = if (x0 <=? x) && (x <? x1) && (z0 <=? z) && (z <? z1)
    then upd (getBlock c x y z) else getBlock c x y z.
Proof.
  intros Hother Hat.
  rewrite (getBlock_for_range_once _ (fun old =>
             if (z0 <=? z) && (z <? z1) then upd old else old) x0 x1 x).
  - destruct ((x0 <=? x) && (x <? x1)); cbn [andb]; done.
  - intros i c' Hi Hne. apply getBlock_for_range_none. intros j c'' Hj.
    apply Hother; [done|done|by left].
  - intros c' Hx. rewrite (getBlock_for_range_once _ upd z0 z1 z).
    + done.
    + intros j c'' Hj Hne. apply Hother; [done|done|by right].
    + intros c'' Hz. by apply Hat.
Qed.

(** *** The desert well *)

Lemma getBlock_well c sx sz baseY x y z :
  Chunk.inBounds x y z = true ->
  let inner (x z : Z) := (sx <? x) && (x <? sx + 5 - 1) && (sz <? z) && (z <? sz + 5 - 1) in
  getBlock
    (Loop.for_range sx (sx + 5) (fun x chunk =>
       Loop.for_range sz (sz + 5) (fun z chunk =>
         let chunk := if negb (inner x z) then setBlock chunk x (baseY + 1) z SAND_STONE
                      else chunk in
         setBlock chunk x (baseY + 2) z AIR) chunk)
     (Loop.for_range sx (sx + 5) (fun x chunk =>
        Loop.for_range sz (sz + 5) (fun z chunk =>
          if negb (inner x z) then setBlock chunk x baseY z SAND_STONE else chunk) chunk)
      (Loop.for_range (sx + 1) (sx + 4) (fun x chunk =>
         Loop.for_range (sz + 1) (sz + 4) (fun z chunk =>
           let chunk := setBlock chunk x (baseY - 1) z SAND_STONE in
           setBlock chunk x baseY z WATER) chunk) c))) x y z
  = if (sx <=? x) && (x <? sx + 5) && (sz <=? z) && (z <? sz + 5) then
      if y =? baseY + 2 then AIR
      else if inner x z then
        if y =? baseY then WATER
        else if y =? baseY - 1 then SAND_STONE
        else getBlock c x y z
      else if (y =? baseY) || (y =? baseY + 1) then SAND_STONE
      else getBlock c x y z
    else getBlock c x y z.
Proof.
  intros Hin. cbv zeta.
  set (inner i j := (sx <? i) && (i <? sx + 5 - 1) && (sz <? j) && (j <? sz + 5 - 1)).
  rewrite (getBlock_area_loop
             (fun i j chunk =>
                setBlock (if negb (inner i j) then setBlock chunk i (baseY + 1) j SAND_STONE
                          else chunk) i (baseY + 2) j AIR)
             (fun old => if y =? baseY + 2 then AIR
                         else if negb (inner x z) && (y =? baseY + 1) then SAND_STONE
                         else old)).
  2:{ intros i j c' Hi Hj Hne. rewrite getBlock_setBlock_eqb.
      replace (Chunk.inBounds i (baseY + 2) j && (i =? x) && (baseY + 2 =? y) && (j =? z))
        with false.
      2:{ symmetry. apply not_true_iff_false. rewrite !andb_true_iff, !Z.eqb_eq. lia. }
      destruct (negb (inner i j)); [|done]. rewrite getBlock_setBlock_eqb.
      replace (Chunk.inBounds i (baseY + 1) j && (i =? x) && (baseY + 1 =? y) && (j =? z))
        with false; [done|].
      symmetry. apply not_true_iff_false. rewrite !andb_true_iff, !Z.eqb_eq. lia. }
  2:{ intros c' Hx Hz. rewrite getBlock_setBlock_eqb, !Z.eqb_refl, !andb_true_r.
      rewrite (Z.eqb_sym (baseY + 2) y).
      destruct (Z.eqb_spec y (baseY + 2)) as [->|Hy2].
      { rewrite Hin. done. }
      rewrite andb_false_r.
      destruct (negb (inner x z)); cbn [andb]; [|done].
      rewrite getBlock_setBlock_eqb, !Z.eqb_refl, !andb_true_r.
      rewrite (Z.eqb_sym (baseY + 1) y).
      destruct (Z.eqb_spec y (baseY + 1)) as [->|Hy1]; [by rewrite Hin|].
      by rewrite andb_false_r. }
  rewrite (getBlock_area_loop
             (fun i j chunk =>
                if negb (inner i j) then setBlock chunk i baseY j SAND_STONE else chunk)
             (fun old => if negb (inner x z) && (y =? baseY) then SAND_STONE else old)).
  2:{ intros i j c' Hi Hj Hne. destruct (negb (inner i j)); [|done].
      rewrite getBlock_setBlock_eqb.
      replace (Chunk.inBounds i baseY j && (i =? x) && (baseY =? y) && (j =? z)) with false;
        [done|].
      symmetry. apply not_true_iff_false. rewrite !andb_true_iff, !Z.eqb_eq. lia. }
  2:{ intros c' Hx Hz. destruct (negb (inner x z)); cbn [andb]; [|done].
      rewrite getBlock_setBlock_eqb, !Z.eqb_refl, !andb_true_r.
      rewrite (Z.eqb_sym baseY y).
      destruct (Z.eqb_spec y baseY) as [->|Hy]; [by rewrite Hin|].
      by rewrite andb_false_r. }
  rewrite (getBlock_area_loop
             (fun i j chunk =>
                setBlock (setBlock chunk i (baseY - 1) j SAND_STONE) i baseY j WATER)
             (fun old => if y =? baseY then WATER
                         else if y =? baseY - 1 then SAND_STONE else old)).
  2:{ intros i j c' Hi Hj Hne. rewrite !getBlock_setBlock_eqb.
      replace (Chunk.inBounds i baseY j && (i =? x) && (baseY =? y) && (j =? z)) with false.
      2:{ symmetry. apply not_true_iff_false. rewrite !andb_true_iff, !Z.eqb_eq. lia. }
      replace (Chunk.inBounds i (baseY - 1) j && (i =? x) && (baseY - 1 =? y) && (j =? z))
        with false; [done|].
      symmetry. apply not_true_iff_false. rewrite !andb_true_iff, !Z.eqb_eq. lia. }
  2:{ intros c' Hx Hz. rewrite !getBlock_setBlock_eqb, !Z.eqb_refl, !andb_true_r.
      rewrite (Z.eqb_sym baseY y), (Z.eqb_sym (baseY - 1) y).
      destruct (Z.eqb_spec y baseY) as [->|Hy]; [by rewrite Hin|].
      rewrite andb_false_r.
      destruct (Z.eqb_spec y (baseY - 1)) as [->|Hy1]; [by rewrite Hin|].
      by rewrite andb_false_r. }
  unfold inner.
  destruct (Z.leb_spec sx x), (Z.ltb_spec x (sx + 5)), (Z.leb_spec sz z),
    (Z.ltb_spec z (sz + 5)); cbn [andb]; try (exfalso; lia); try (settle; done).
  destruct (Z.eqb_spec y (baseY + 2)); [done|].
  destruct (Z.ltb_spec sx x), (Z.ltb_spec x (sx + 5 - 1)), (Z.ltb_spec sz z),
    (Z.ltb_spec z (sz + 5 - 1)); cbn [andb negb orb]; settle;
    destruct (Z.eqb_spec y baseY), (Z.eqb_spec y (baseY + 1)), (Z.eqb_spec y (baseY - 1));
    cbn [andb orb]; try done; lia.
Qed.

(** X23: the desert well, where [tryPlaceDesertWell] builds it.  On the
    5 by 5 footprint at the site it draws, with [baseY] the height of the
    middle column: the 3 by 3 basin holds water at [baseY] over a
    sandstone floor at [baseY - 1], one cell deep; the ring around it
    holds sandstone at [baseY] and [baseY + 1]; the layer [baseY + 2] is
    air over the whole footprint; and every other cell of the chunk,
    the basin cells at [baseY + 1] among them, holds what it held. *)
Theorem desert_well_shape c heightmap rng sx sz (x y z : Z) :
  wellSite rng = (sx, sz) ->
  isFlatArea heightmap sx sz 5 5 1 = true ->
  Chunk.inBounds x y z = true ->
  let baseY := hmGet heightmap (sx + 2) (sz + 2) in
  let well := (tryPlaceDesertWell c heightmap rng).1.1 in
  let onFootprint := sx <= x < sx + 5 /\ sz <= z < sz + 5 in
  let inBasin := sx < x < sx + 4 /\ sz < z < sz + 4 in
  (tryPlaceDesertWell c heightmap rng).1.2 = true
  /\ (onFootprint -> y = baseY + 2 -> getBlock well x y z = AIR)
  /\ (inBasin -> y = baseY -> getBlock well x y z = WATER)
  /\ (inBasin -> y = baseY - 1 -> getBlock well x y z = SAND_STONE)
  /\ (onFootprint -> ~ inBasin -> y = baseY \/ y = baseY + 1 ->
      getBlock well x y z = SAND_STONE)
  /\ (~ onFootprint \/ y < baseY - 1 \/ baseY + 2 < y
      \/ (inBasin /\ y = baseY + 1) \/ (~ inBasin /\ y = baseY - 1) ->
      getBlock well x y z = getBlock c x y z).
Proof.
  intros Hsite Hflat Hin. cbv zeta.
  unfold wellSite in Hsite. unfold tryPlaceDesertWell. cbv zeta.
  replace (CHUNK_SIZE - 5 - 6) with 5 by reflexivity.
  destruct (Rng.next rng) as [u1 r1]. destruct (Rng.next r1) as [u2 r2].
  injection Hsite as Hsx Hsz. rewrite Hsx, Hsz, Hflat. cbn [negb fst snd].
  split; [reflexivity|].
  pose proof (getBlock_well c sx sz (hmGet heightmap (sx + 2) (sz + 2)) x y z Hin) as Hw.
  cbv zeta in Hw. rewrite !Hw. clear Hw Hsx Hsz Hflat.
  generalize (hmGet heightmap (sx + 2) (sz + 2)). intros baseY.
  split; [|split; [|split; [|split]]].
  - intros [Hx Hz] ->. settle. done.
  - intros [Hx Hz] ->. settle. done.
  - intros [Hx Hz] ->. settle. done.
  - intros [Hx Hz] Hring Hy. settle.
    assert ((sx <? x) && (x <? sx + 5 - 1) && (sz <? z) && (z <? sz + 5 - 1) = false) as ->.
    { apply not_true_iff_false. rewrite !andb_true_iff, !Z.ltb_lt. lia. }
    destruct Hy as [-> | ->]; settle; done.
  - intros Hout.
    destruct (Z.leb_spec sx x), (Z.ltb_spec x (sx + 5)), (Z.leb_spec sz z),
      (Z.ltb_spec z (sz + 5)); cbn [andb]; try done.
    destruct (Z.ltb_spec sx x), (Z.ltb_spec x (sx + 5 - 1)), (Z.ltb_spec sz z),
      (Z.ltb_spec z (sz + 5 - 1)); cbn [andb];
      destruct (Z.eqb_spec y (baseY + 2)), (Z.eqb_spec y baseY),
        (Z.eqb_spec y (baseY + 1)), (Z.eqb_spec y (baseY - 1));
      cbn [orb]; try done; exfalso; lia.
Qed.

End SurfaceStructures.

Lemma desert_well_shape_witness :
  let baseY := hmGet flatHeights (6 + 2) (3 + 2) in
  let c := Chunk.empty 0 0 in
  let well := (StructureGenerator.tryPlaceDesertWell c flatHeights (Rng.mulberry32 1)).1.1 in
  let onFootprint := 6 <= 8 < 6 + 5 /\ 3 <= 5 < 3 + 5 in
  let inBasin := 6 < 8 < 6 + 4 /\ 3 < 5 < 3 + 4 in
  (StructureGenerator.tryPlaceDesertWell c flatHeights (Rng.mulberry32 1)).1.2 = true
  /\ (onFootprint -> 64 = baseY + 2 -> getBlock well 8 64 5 = AIR)
  /\ (inBasin -> 64 = baseY -> getBlock well 8 64 5 = WATER)
  /\ (inBasin -> 64 = baseY - 1 -> getBlock well 8 64 5 = SAND_STONE)
  /\ (onFootprint -> ~ inBasin -> 64 = baseY \/ 64 = baseY + 1 ->
      getBlock well 8 64 5 = SAND_STONE)
  /\ (~ onFootprint \/ 64 < baseY - 1 \/ baseY + 2 < 64
      \/ (inBasin /\ 64 = baseY + 1) \/ (~ inBasin /\ 64 = baseY - 1) ->
      getBlock well 8 64 5 = getBlock c 8 64 5).
Proof.
  apply (desert_well_shape (Chunk.empty 0 0) flatHeights (Rng.mulberry32 1) 6 3 8 64 5).
  - vm_compute. reflexivity.
  - vm_compute. reflexivity.
  - reflexivity.
Defined.


Section Cabin.
Import StructureGenerator.

Lemma for_range_ext {S : Type} lo hi (body1 body2 : Z -> S -> S) s :
  (forall i t, lo <= i < hi -> body1 i t = body2 i t) ->
  Loop.for_range lo hi body1 s = Loop.for_range lo hi body2 s.
Proof.
  intros H. apply (for_range_in_step eq); [done|].
  intros i t1 t2 Hi ->. by apply H.
Qed.

(** An area loop that writes one block per column, all in the layer [Y]. *)
Lemma getBlock_layer_loop (f : Z -> Z -> BlockType) x0 x1 z0 z1 Y c x y z :
  Chunk.inBounds x y z = true ->
  getBlock
    (Loop.for_range x0 x1 (fun i c =>
       Loop.for_range z0 z1 (fun j c => setBlock c i Y j (f i j)) c) c) x y z
  = if (x0 <=? x) && (x <? x1) && (z0 <=? z) && (z <? z1) && (y =? Y)
    then f x z else getBlock c x y z.
Proof.
  intros Hin.
  rewrite (getBlock_area_loop (fun i j c => setBlock c i Y j (f i j))
             (fun old => if y =? Y then f x z else old)).
  - destruct ((x0 <=? x) && (x <? x1) && (z0 <=? z) && (z <? z1)); cbn [andb]; [done|].
    by destruct (y =? Y).
  - intros i j c' Hi Hj Hne. rewrite getBlock_setBlock_eqb.
    replace (Chunk.inBounds i Y j && (i =? x) && (Y =? y) && (j =? z)) with false; [done|].
    symmetry. apply not_true_iff_false. rewrite !andb_true_iff, !Z.eqb_eq. lia.
  - intros c' Hx Hz. rewrite getBlock_setBlock_eqb, !Z.eqb_refl, !andb_true_r.
    rewrite (Z.eqb_sym Y y). destruct (Z.eqb_spec y Y) as [->|Hy]; [by rewrite Hin|].
    by rewrite andb_false_r.
Qed.

(** The block the wall loop of [tryPlaceCabin] writes at the column
    [(x, z)] of its layer [dy]. *)
Definition wallBlock (sx sz dy x z : Z) : BlockType :=
  if ((x =? sx) || (x =? sx + 7 - 1)) && ((z =? sz) || (z =? sz + 5 - 1)) then WOOD_OAK
  else if (x =? sx) || (x =? sx + 7 - 1) || (z =? sz) || (z =? sz + 5 - 1) then
    if (z =? sz + 5 - 1) && (x =? sx + 3) && (dy <=? 2) then AIR
    else if (dy =? 2) && ((x =? sx) || (x =? sx + 7 - 1)) && (sz <? z) && (z <? sz + 5 - 1)
    then GLASS
    else PLANKS_OAK
  else AIR.

Lemma getBlock_cabin_walls c sx sz baseY x y z :
  Chunk.inBounds x y z = true ->
  getBlock
    (Loop.for_range 1 4 (fun dy chunk =>
       let y := baseY + dy in
       Loop.for_range sx (sx + 7) (fun x chunk =>
         Loop.for_range sz (sz + 5) (fun z chunk =>
           let onEdge :=
             (x =? sx) || (x =? sx + 7 - 1) || (z =? sz) || (z =? sz + 5 - 1) in
           let isCorner :=
             ((x =? sx) || (x =? sx + 7 - 1)) && ((z =? sz) || (z =? sz + 5 - 1)) in
           if isCorner then setBlock chunk x y z WOOD_OAK
           else if onEdge then
             let isDoor := (z =? sz + 5 - 1) && (x =? sx + 3) && (dy <=? 2) in
             let isWindow :=
               (dy =? 2) && ((x =? sx) || (x =? sx + 7 - 1))
               && (sz <? z) && (z <? sz + 5 - 1) in
             if isDoor then setBlock chunk x y z AIR
             else if isWindow then setBlock chunk x y z GLASS
             else setBlock chunk x y z PLANKS_OAK
           else setBlock chunk x y z AIR) chunk) chunk) c) x y z
  = if (1 <=? y - baseY) && (y - baseY <? 4)
       && ((sx <=? x) && (x <? sx + 7) && (sz <=? z) && (z <? sz + 5))
    then wallBlock sx sz (y - baseY) x z else getBlock c x y z.
Proof.
  intros Hin. cbv zeta.
  assert (forall dy c',
    Loop.for_range sx (sx + 7) (fun x chunk =>
      Loop.for_range sz (sz + 5) (fun z chunk =>
        if ((x =? sx) || (x =? sx + 7 - 1)) && ((z =? sz) || (z =? sz + 5 - 1))
        then setBlock chunk x (baseY + dy) z WOOD_OAK
        else if (x =? sx) || (x =? sx + 7 - 1) || (z =? sz) || (z =? sz + 5 - 1) then
          if (z =? sz + 5 - 1) && (x =? sx + 3) && (dy <=? 2)
          then setBlock chunk x (baseY + dy) z AIR
          else if (dy =? 2) && ((x =? sx) || (x =? sx + 7 - 1))
                  && (sz <? z) && (z <? sz + 5 - 1)
          then setBlock chunk x (baseY + dy) z GLASS
          else setBlock chunk x (baseY + dy) z PLANKS_OAK
        else setBlock chunk x (baseY + dy) z AIR) chunk) c'
    = Loop.for_range sx (sx + 7) (fun x chunk =>
        Loop.for_range sz (sz + 5) (fun z chunk =>
          setBlock chunk x (baseY + dy) z (wallBlock sx sz dy x z)) chunk) c') as Hbody.
  { intros dy c'. apply for_range_ext. intros i ci Hi. apply for_range_ext. intros j cj Hj.
    unfold wallBlock.
    repeat match goal with |- context [if ?b then setBlock _ _ _ _ _ else _] =>
      destruct b end; done. }
  rewrite (getBlock_for_range_once _
             (fun old => if (sx <=? x) && (x <? sx + 7) && (sz <=? z) && (z <? sz + 5)
                         then wallBlock sx sz (y - baseY) x z else old)
             1 4 (y - baseY)).
  - destruct ((1 <=? y - baseY) && (y - baseY <? 4)); cbn [andb]; done.
  - intros dy c' Hdy Hne. rewrite Hbody.
    rewrite (getBlock_layer_loop (wallBlock sx sz dy)) by done.
    replace (y =? baseY + dy) with false by (symmetry; apply Z.eqb_neq; lia).
    by rewrite andb_false_r.
  - intros c' Hdy. rewrite Hbody.
    rewrite (getBlock_layer_loop (wallBlock sx sz (y - baseY))) by done.
    replace (y =? baseY + (y - baseY)) with true by (symmetry; apply Z.eqb_eq; lia).
    by rewrite andb_true_r.
Qed.

Lemma getBlock_cabin c sx sz baseY x y z :
  Chunk.inBounds x y z = true ->
  let floor :=
    Loop.for_range sx (sx + 7) (fun x chunk =>
      Loop.for_range sz (sz + 5) (fun z chunk =>
        setBlock chunk x baseY z COBBLESTONE) chunk) c in
  let walls :=
    Loop.for_range 1 4 (fun dy chunk =>
       let y := baseY + dy in
       Loop.for_range sx (sx + 7) (fun x chunk =>
         Loop.for_range sz (sz + 5) (fun z chunk =>
           let onEdge :=
             (x =? sx) || (x =? sx + 7 - 1) || (z =? sz) || (z =? sz + 5 - 1) in
           let isCorner :=
             ((x =? sx) || (x =? sx + 7 - 1)) && ((z =? sz) || (z =? sz + 5 - 1)) in
           if isCorner then setBlock chunk x y z WOOD_OAK
           else if onEdge then
             let isDoor := (z =? sz + 5 - 1) && (x =? sx + 3) && (dy <=? 2) in
             let isWindow :=
               (dy =? 2) && ((x =? sx) || (x =? sx + 7 - 1))
               && (sz <? z) && (z <? sz + 5 - 1) in
             if isDoor then setBlock chunk x y z AIR
             else if isWindow then setBlock chunk x y z GLASS
             else setBlock chunk x y z PLANKS_OAK
           else setBlock chunk x y z AIR) chunk) chunk) floor in
  let roof :=
    Loop.for_range sx (sx + 7) (fun x chunk =>
      Loop.for_range sz (sz + 5) (fun z chunk =>
        setBlock chunk x (baseY + 4) z PLANKS_OAK) chunk) walls in
  let cleared :=
    Loop.for_range sx (sx + 7) (fun x chunk =>
      Loop.for_range sz (sz + 5) (fun z chunk =>
        setBlock chunk x (baseY + 5) z AIR) chunk) roof in
  getBlock
    (setBlock
       (setBlock (setBlock cleared (sx + 3) (baseY + 2) (sz + 1) TORCH)
          (sx + 1) (baseY + 1) (sz + 1) CRAFTING_TABLE)
       (sx + 2) (baseY + 1) (sz + 1) FURNACE) x y z
  = if (x =? sx + 2) && (y =? baseY + 1) && (z =? sz + 1) then FURNACE
    else if (x =? sx + 1) && (y =? baseY + 1) && (z =? sz + 1) then CRAFTING_TABLE
    else if (x =? sx + 3) && (y =? baseY + 2) && (z =? sz + 1) then TORCH
    else if (sx <=? x) && (x <? sx + 7) && (sz <=? z) && (z <? sz + 5) then
      if y =? baseY + 5 then AIR
      else if y =? baseY + 4 then PLANKS_OAK
      else if (1 <=? y - baseY) && (y - baseY <? 4) then wallBlock sx sz (y - baseY) x z
      else if y =? baseY then COBBLESTONE
      else getBlock c x y z
    else getBlock c x y z.
Proof.
  intros Hin. cbv zeta.
  pose proof (getBlock_cabin_walls) as Hw. cbv zeta in Hw.
  rewrite !getBlock_setBlock_eqb.
  rewrite (getBlock_layer_loop (fun _ _ => AIR)) by done.
  rewrite (getBlock_layer_loop (fun _ _ => PLANKS_OAK)) by done.
  rewrite Hw by done.
  rewrite (getBlock_layer_loop (fun _ _ => COBBLESTONE)) by done.
  clear Hw.
  rewrite (Z.eqb_sym (sx + 2) x), (Z.eqb_sym (sx + 1) x), (Z.eqb_sym (sx + 3) x),
    (Z.eqb_sym (baseY + 1) y), (Z.eqb_sym (baseY + 2) y), (Z.eqb_sym (sz + 1) z).
  destruct (Z.eqb_spec z (sz + 1)) as [Hz|Hz]; rewrite ?andb_false_r, ?andb_true_r.
  2:{ destruct ((sx <=? x) && (x <? sx + 7) && (sz <=? z) && (z <? sz + 5));
        cbn [andb]; rewrite ?andb_false_r; [|done].
      destruct (y =? baseY + 5); [done|]. destruct (y =? baseY + 4); [done|].
      destruct ((1 <=? y - baseY) && (y - baseY <? 4)); [done|].
      by destruct (y =? baseY). }
  assert (forall xx yy, x = xx -> y = yy -> Chunk.inBounds xx yy (sz + 1) = true) as Hb.
  { intros xx yy <- <-. by rewrite <- Hz. }
  destruct (Z.eqb_spec x (sx + 2)) as [Hx2|Hx2], (Z.eqb_spec y (baseY + 1)) as [Hy1|Hy1];
    cbn [andb]; rewrite ?andb_false_r, ?andb_true_r; rewrite ?(Hb _ _ Hx2 Hy1); try done.
  all: destruct (Z.eqb_spec x (sx + 1)) as [Hx1|Hx1];
    cbn [andb]; rewrite ?andb_false_r, ?andb_true_r; rewrite ?(Hb _ _ Hx1 Hy1); try done.
  all: destruct (Z.eqb_spec x (sx + 3)) as [Hx3|Hx3], (Z.eqb_spec y (baseY + 2)) as [Hy2|Hy2];
    cbn [andb]; rewrite ?andb_false_r, ?andb_true_r; rewrite ?(Hb _ _ Hx3 Hy2); try done.
  all: destruct ((sx <=? x) && (x <? sx + 7) && (sz <=? z) && (z <? sz + 5));
    cbn [andb]; rewrite ?andb_false_r; try done.
  all: destruct (y =? baseY + 5); try done; destruct (y =? baseY + 4); try done;
    destruct ((1 <=? y - baseY) && (y - baseY <? 4)); try done;
    by destruct (y =? baseY).
Qed.

(** X24: the cabin, where [tryPlaceCabin] builds it.  On the 7 by 5
    footprint at the site it draws, with [baseY] the height of the middle
    column: a cobblestone floor at [baseY], an oak plank roof at
    [baseY + 4], air at [baseY + 5]; between floor and roof the four
    corner columns are oak logs, the rest of the outer ring is oak planks
    except for the door (two cells of air in the middle of the south
    side) and the windows (glass at [baseY + 2] on the east and west
    sides); the interior is air except for a torch, a crafting table and a
    furnace on its north row.  Every other cell of the chunk holds what it
    held. *)
Theorem cabin_shape c heightmap rng sx sz (x y z : Z) :
  cabinSite rng = (sx, sz) ->
  isFlatArea heightmap sx sz 7 5 2 = true ->
  Chunk.inBounds x y z = true ->
  let baseY := hmGet heightmap (sx + 3) (sz + 2) in
  let cabin := (tryPlaceCabin c heightmap rng).1.1 in
  let onFootprint := sx <= x < sx + 7 /\ sz <= z < sz + 5 in
  let onRing := x = sx \/ x = sx + 6 \/ z = sz \/ z = sz + 4 in
  let isCorner := (x = sx \/ x = sx + 6) /\ (z = sz \/ z = sz + 4) in
  let isDoor := x = sx + 3 /\ z = sz + 4 /\ y <= baseY + 2 in
  let isWindow := (x = sx \/ x = sx + 6) /\ sz < z < sz + 4 /\ y = baseY + 2 in
  (tryPlaceCabin c heightmap rng).1.2 = true
  /\ (onFootprint -> y = baseY -> getBlock cabin x y z = COBBLESTONE)
  /\ (onFootprint -> y = baseY + 4 -> getBlock cabin x y z = PLANKS_OAK)
  /\ (onFootprint -> y = baseY + 5 -> getBlock cabin x y z = AIR)
  /\ (onFootprint -> baseY < y < baseY + 4 ->
      (isCorner -> getBlock cabin x y z = WOOD_OAK)
      /\ (isDoor -> getBlock cabin x y z = AIR)
      /\ (isWindow -> getBlock cabin x y z = GLASS)
      /\ (onRing -> ~ isCorner -> ~ isDoor -> ~ isWindow ->
          getBlock cabin x y z = PLANKS_OAK)
      /\ (~ onRing ->
          getBlock cabin x y z =
            if (x =? sx + 3) && (y =? baseY + 2) && (z =? sz + 1) then TORCH
            else if (x =? sx + 1) && (y =? baseY + 1) && (z =? sz + 1) then CRAFTING_TABLE
            else if (x =? sx + 2) && (y =? baseY + 1) && (z =? sz + 1) then FURNACE
            else AIR))
  /\ (~ onFootprint \/ y < baseY \/ baseY + 5 < y ->
      getBlock cabin x y z = getBlock c x y z).
Proof.
  intros Hsite Hflat Hin. cbv zeta.
  unfold cabinSite in Hsite. unfold tryPlaceCabin. cbv zeta.
  replace (CHUNK_SIZE - 7 - 4) with 5 by reflexivity.
  replace (CHUNK_SIZE - 5 - 4) with 7 by reflexivity.
  destruct (Rng.next rng) as [u1 r1]. destruct (Rng.next r1) as [u2 r2].
  injection Hsite as Hsx Hsz. rewrite Hsx, Hsz, Hflat. cbn [negb fst snd].
  split; [reflexivity|].
  pose proof (getBlock_cabin c sx sz (hmGet heightmap (sx + 3) (sz + 2)) x y z Hin) as Hw.
  cbv zeta in Hw. rewrite !Hw. clear Hw Hsx Hsz Hflat.
  generalize (hmGet heightmap (sx + 3) (sz + 2)). intros baseY.
  unfold wallBlock.
  split; [|split; [|split; [|split; [|]]]].
  - intros [Hx Hz] ->. crush.
  - intros [Hx Hz] ->. crush.
  - intros [Hx Hz] ->. crush.
  - intros [Hx Hz] Hy. split; [|split; [|split; [|split]]].
    + intros [Hcx Hcz]. crush.
    + intros (-> & -> & Hd). crush.
    + intros (Hwx & Hwz & ->). crush.
    + intros Hring Hnc Hnd Hnw. crush.
    + intros Hnr. settle.
      repeat match goal with |- context [Z.eqb ?a ?b] =>
        destruct (Z.eqb_spec a b); cbn [andb] end; first [done | exfalso; lia].
  - intros Hout. crush.
Qed.

End Cabin.

Lemma cabin_shape_witness :
  let c := Chunk.empty 0 0 in
  let sx := 5 in let sz := 2 in
  let x := 5 in let y := 66 in let z := 4 in
  let baseY := hmGet flatHeights (sx + 3) (sz + 2) in
  let cabin := (StructureGenerator.tryPlaceCabin c flatHeights (Rng.mulberry32 1)).1.1 in
  let onFootprint := sx <= x < sx + 7 /\ sz <= z < sz + 5 in
  let onRing := x = sx \/ x = sx + 6 \/ z = sz \/ z = sz + 4 in
  let isCorner := (x = sx \/ x = sx + 6) /\ (z = sz \/ z = sz + 4) in
  let isDoor := x = sx + 3 /\ z = sz + 4 /\ y <= baseY + 2 in
  let isWindow := (x = sx \/ x = sx + 6) /\ sz < z < sz + 4 /\ y = baseY + 2 in
  (StructureGenerator.tryPlaceCabin c flatHeights (Rng.mulberry32 1)).1.2 = true
  /\ (onFootprint -> y = baseY -> getBlock cabin x y z = COBBLESTONE)
  /\ (onFootprint -> y = baseY + 4 -> getBlock cabin x y z = PLANKS_OAK)
  /\ (onFootprint -> y = baseY + 5 -> getBlock cabin x y z = AIR)
  /\ (onFootprint -> baseY < y < baseY + 4 ->
      (isCorner -> getBlock cabin x y z = WOOD_OAK)
      /\ (isDoor -> getBlock cabin x y z = AIR)
      /\ (isWindow -> getBlock cabin x y z = GLASS)
      /\ (onRing -> ~ isCorner -> ~ isDoor -> ~ isWindow ->
          getBlock cabin x y z = PLANKS_OAK)
      /\ (~ onRing ->
          getBlock cabin x y z =
            if (x =? sx + 3) && (y =? baseY + 2) && (z =? sz + 1) then TORCH
            else if (x =? sx + 1) && (y =? baseY + 1) && (z =? sz + 1) then CRAFTING_TABLE
            else if (x =? sx + 2) && (y =? baseY + 1) && (z =? sz + 1) then FURNACE
            else AIR))
  /\ (~ onFootprint \/ y < baseY \/ baseY + 5 < y ->
      getBlock cabin x y z = getBlock c x y z).
Proof.
  apply (cabin_shape (Chunk.empty 0 0) flatHeights (Rng.mulberry32 1) 5 2 5 66 4).
  - vm_compute. reflexivity.
  - vm_compute. reflexivity.
  - reflexivity.
Defined.


(** ** Decorations by biome *)

Section BiomeDecorations.
Import StructureGenerator.

(** The blocks the decoration function of a biome places. *)
Definition biomeDecorations (b : Biome) : list BlockType :=
  match b with
  | PLAINS | FOREST | JUNGLE => [TALL_GRASS; FLOWER_RED; FLOWER_YELLOW]
  | SWAMP => [TALL_GRASS; FLOWER_RED]
  | TAIGA => [TALL_GRASS]
  | TUNDRA => [FLOWER_YELLOW]
  | DESERT => [CACTUS]
  | OCEAN | BEACH | MOUNTAINS => []
  end.

Section Column.
Variables (heightmap : Heightmap) (biomeMap : BiomeMap.t) (worldX worldZ : Z).

Definition columnBiomeAt (x z : Z) : Biome :=
  BiomeMap.getBiome biomeMap (worldX + x) (worldZ + z).

Definition biomeCell (x y z : Z) (b : BlockType) : Prop :=
  0 <= x < CHUNK_SIZE /\ 0 <= z < CHUNK_SIZE
  /\ ((y = hmGet heightmap x z + 1 /\ b ∈ biomeDecorations (columnBiomeAt x z))
      \/ (hmGet heightmap x z + 2 <= y <= hmGet heightmap x z + 3
          /\ b = CACTUS /\ columnBiomeAt x z = DESERT)).

Lemma biome_cell_frame c0 c lx lz b :
  0 <= lx < CHUNK_SIZE -> 0 <= lz < CHUNK_SIZE ->
  getBlock c lx (hmGet heightmap lx lz + 1) lz = AIR ->
  b ∈ biomeDecorations (columnBiomeAt lx lz) ->
  changes_only (decorationOver heightmap) biomeCell c0 c ->
  changes_only (decorationOver heightmap) biomeCell c0
    (setBlock c lx (hmGet heightmap lx lz + 1) lz b).
Proof.
  intros Hx Hz Hair Hb Hc. apply changes_only_setBlock; [done|]. intros _.
  split; [by left|]. split; [done|]. split; [done|]. left. by split.
Qed.

Lemma biome_cactus_frame c0 c lx lz height :
  0 <= lx < CHUNK_SIZE -> 0 <= lz < CHUNK_SIZE ->
  2 <= height <= 3 ->
  columnBiomeAt lx lz = DESERT ->
  getBlock c lx (hmGet heightmap lx lz + 1) lz = AIR ->
  changes_only (decorationOver heightmap) biomeCell c0 c ->
  changes_only (decorationOver heightmap) biomeCell c0
    (Loop.for_break 0 height (fun dy chunk =>
       if 256 <=? hmGet heightmap lx lz + 1 + dy then None
       else Some (setBlock chunk lx (hmGet heightmap lx lz + 1 + dy) lz CACTUS)) c).
Proof.
  intros Hx Hz Hh Hbiome Hair Hc.
  set (y := hmGet heightmap lx lz + 1) in *.
  apply (for_break_preserves (fun c' =>
           changes_only (decorationOver heightmap) biomeCell c0 c'
           /\ (getBlock c' lx y lz = AIR \/ getBlock c' lx y lz = CACTUS))).
  - split; [done|by left].
  - intros dy c1 c2 Hdy [Hc1 Hbase]. destruct (256 <=? y + dy); [discriminate|].
    intros [= <-]. split.
    + destruct (Z.eq_dec dy 0) as [->|Hne].
      * rewrite Z.add_0_r. destruct Hbase as [Ha | Hcactus].
        -- apply biome_cell_frame; try done. rewrite Hbiome. by constructor.
        -- by apply changes_only_setBlock_same.
      * apply changes_only_setBlock; [done|]. intros _. unfold y. split.
        -- right. lia.
        -- split; [done|]. split; [done|]. right. split; [lia|done].
    + rewrite getBlock_setBlock_eqb.
      destruct (Chunk.inBounds lx (y + dy) lz && (lx =? lx) && (y + dy =? y) && (lz =? lz));
        [by right|done].
Qed.

Lemma biome_column_frame lx lz c0 c rng :
  0 <= lx < CHUNK_SIZE -> 0 <= lz < CHUNK_SIZE ->
  changes_only (decorationOver heightmap) biomeCell c0 c ->
  changes_only (decorationOver heightmap) biomeCell c0
    (decorateColumn heightmap biomeMap worldX worldZ lx lz c rng).1.
Proof.
  intros Hx Hz Hc. unfold decorateColumn. cbv zeta.
  destruct (256 <=? hmGet heightmap lx lz + 1); [done|].
  destruct (block_eqb (getBlock c lx (hmGet heightmap lx lz + 1) lz) AIR) eqn:Hair;
    cbn [negb]; [|done].
  apply block_eqb_eq in Hair.
  assert (forall b, b ∈ biomeDecorations (columnBiomeAt lx lz) ->
            changes_only (decorationOver heightmap) biomeCell c0
              (setBlock c lx (hmGet heightmap lx lz + 1) lz b)) as Hset
    by (intros b Hb; by apply biome_cell_frame).
  pose proof (eq_refl : columnBiomeAt lx lz = columnBiomeAt lx lz) as Hbiome.
  unfold columnBiomeAt in Hbiome at 2. revert Hset Hbiome.
  destruct (BiomeMap.getBiome biomeMap (worldX + lx) (worldZ + lz)); intros Hset Hbiome;
    rewrite Hbiome in Hset; cbn [biomeDecorations] in Hset; try done;
    unfold decoratePlains, decorateForest, decorateDesert, decorateTaiga, decorateTundra,
      decorateJungle, decorateSwamp.
  - destruct (Rng.next rng) as [roll r1].
    destruct (Rng.lt roll 30 100); [apply Hset; by repeat constructor|].
    destruct (Rng.lt roll 33 100); [|done]. destruct (Rng.next r1) as [u r2]. cbn [fst].
    destruct (Rng.lt u 5 10); apply Hset; by repeat constructor.
  - destruct (Rng.next rng) as [roll r1].
    destruct (Rng.lt roll 35 100); [apply Hset; by repeat constructor|].
    destruct (Rng.lt roll 43 100); [|done]. destruct (Rng.next r1) as [u r2]. cbn [fst].
    destruct (Rng.lt u 5 10); apply Hset; by repeat constructor.
  - destruct (Rng.next rng) as [u r1]. destruct (Rng.ge u 2 100); [done|].
    destruct (negb (hasClearNeighbours _ _ _ _)); [done|].
    pose proof (next_range r1) as Hu. destruct (Rng.next r1) as [u2 r2]. cbn [fst snd] in *.
    pose proof (floorMul_range u2 2 Hu ltac:(lia)).
    apply biome_cactus_frame; try done. lia.
  - destruct (Rng.next rng) as [u r1].
    destruct (Rng.lt u 15 100); [apply Hset; by repeat constructor|done].
  - destruct (Rng.next rng) as [u r1].
    destruct (Rng.lt u 2 100); [apply Hset; by repeat constructor|done].
  - destruct (Rng.next rng) as [roll r1].
    destruct (Rng.lt roll 40 100); [apply Hset; by repeat constructor|].
    destruct (Rng.lt roll 50 100); [|done]. destruct (Rng.next r1) as [u r2]. cbn [fst].
    destruct (Rng.lt u 6 10); apply Hset; by repeat constructor.
  - destruct (Rng.next rng) as [roll r1].
    destruct (Rng.lt roll 25 100); [apply Hset; by repeat constructor|].
    destruct (Rng.lt roll 28 100); [apply Hset; by repeat constructor|done].
Qed.

Lemma biome_columns_frame c rng :
  changes_only (decorationOver heightmap) biomeCell c
    (decorateColumns c heightmap biomeMap worldX worldZ rng).1.
Proof.
  unfold decorateColumns.
  apply (for_range_preserves (fun st : Chunk * Rng.t =>
           changes_only (decorationOver heightmap) biomeCell c st.1));
    [apply changes_only_refl|].
  intros lx st Hlx Hst.
  apply (for_range_preserves (fun st : Chunk * Rng.t =>
           changes_only (decorationOver heightmap) biomeCell c st.1));
    [done|].
  intros lz [c1 r1] Hlz Hc1. cbn [fst] in Hc1. by apply biome_column_frame.
Qed.

(** X25: decorations follow the biome of their column.  After the
    phase-2 loops a cell that changed holds a block of the list of its
    column's biome as [getBiome] gives it: tall grass or a flower in
    plains, forest and jungle, tall grass or a red flower in a swamp, tall
    grass in taiga, a yellow flower in tundra, a cactus in the desert.
    Columns of ocean and beach keep every block, and so would columns of
    the mountain biome, which [getBiome] never returns: a mountain region
    is decorated by the biome under it. *)
Theorem decorations_match_biome c rng (x y z : Z) :
  let decorated := (decorateColumns c heightmap biomeMap worldX worldZ rng).1 in
  let h := hmGet heightmap x z in
  let biome := BiomeMap.getBiome biomeMap (worldX + x) (worldZ + z) in
  (getBlock decorated x y z = getBlock c x y z
   \/ (y = h + 1 /\ getBlock decorated x y z ∈ biomeDecorations biome)
   \/ (h + 2 <= y <= h + 3 /\ getBlock decorated x y z = CACTUS /\ biome = DESERT))
  /\ (biome = OCEAN \/ biome = BEACH \/ biome = MOUNTAINS ->
      getBlock decorated x y z = getBlock c x y z).
Proof.
  cbv zeta.
  pose proof (biome_columns_frame c rng x y z) as H. unfold biomeCell, columnBiomeAt in H.
  split.
  - destruct H as [E | [_ (_ & _ & [[Hy Hb] | (Hy & Hb & Hd)])]]; [by left| |].
    + right. left. done.
    + right. right. done.
  - intros Hbiome.
    destruct H as [E | [_ (_ & _ & [[Hy Hb] | (Hy & Hb & Hd)])]]; [done| |].
    + destruct Hbiome as [E | [E | E]]; rewrite E in Hb; cbn in Hb; by apply elem_of_nil in Hb.
    + destruct Hbiome as [E | [E | E]]; rewrite E in Hd; discriminate Hd.
Qed.

End Column.

Lemma hasClearNeighbours_spec c lx y lz :
  hasClearNeighbours c lx y lz = true ->
  forall nx nz,
    (nx = lx - 1 /\ nz = lz) \/ (nx = lx + 1 /\ nz = lz)
    \/ (nx = lx /\ nz = lz - 1) \/ (nx = lx /\ nz = lz + 1) ->
    0 <= nx < CHUNK_SIZE -> 0 <= nz < CHUNK_SIZE ->
    getBlock c nx y nz = AIR.
Proof.
  unfold hasClearNeighbours. cbv zeta. cbn [forallb]. rewrite !andb_true_iff.
  intros (H1 & H2 & H3 & H4 & _) nx nz Hn Hx Hz.
  assert ((nx <? 0) || (CHUNK_SIZE <=? nx) || (nz <? 0) || (CHUNK_SIZE <=? nz) = false) as Hin.
  { apply not_true_iff_false. rewrite !orb_true_iff, !Z.ltb_lt, !Z.leb_le. lia. }
  destruct Hn as [[-> ->] | [[-> ->] | [[-> ->] | [-> ->]]]].
  - rewrite Hin in H1. by apply block_eqb_eq.
  - rewrite Hin in H2. by apply block_eqb_eq.
  - rewrite Hin in H3. by apply block_eqb_eq.
  - rewrite Hin in H4. by apply block_eqb_eq.
Qed.

Lemma cactus_loop c lx y lz height (x' y' z' : Z) :
  height = 2 \/ height = 3 -> Chunk.inBounds lx y lz = true ->
  getBlock
    (Loop.for_break 0 height (fun dy chunk =>
       if 256 <=? y + dy then None
       else Some (setBlock chunk lx (y + dy) lz CACTUS)) c) x' y' z'
  = if (x' =? lx) && (z' =? lz) && (y <=? y') && (y' <? y + height) && (y' <? 256)
    then CACTUS else getBlock c x' y' z'.
Proof.
  intros Hh Hin. apply inBounds_spec in Hin.
  change CHUNK_SIZE with 16 in Hin. change CHUNK_HEIGHT with 256 in Hin.
  unfold Loop.for_break.
  destruct Hh as [-> | ->].
  - change (seqZ 0 (2 - 0)) with [0; 1]. cbn [Loop.for_break_list].
    replace (256 <=? y + 0) with false by (symmetry; apply Z.leb_gt; lia).
    destruct (Z.leb_spec 256 (y + 1)); rewrite !getBlock_setBlock_eqb;
      unfold Chunk.inBounds; change CHUNK_SIZE with 16; change CHUNK_HEIGHT with 256;
      crush.
  - change (seqZ 0 (3 - 0)) with [0; 1; 2]. cbn [Loop.for_break_list].
    replace (256 <=? y + 0) with false by (symmetry; apply Z.leb_gt; lia).
    destruct (Z.leb_spec 256 (y + 1)); [|destruct (Z.leb_spec 256 (y + 2))];
      rewrite !getBlock_setBlock_eqb;
      unfold Chunk.inBounds; change CHUNK_SIZE with 16; change CHUNK_HEIGHT with 256;
      crush.
Qed.

(** X26: the cactus of [decorateDesert].  Called at a cell of the chunk,
    it either leaves the chunk as it is, or plants a cactus: then each
    of the four side neighbours of the cell that lies in the chunk held
    air (a neighbour across the chunk border is not looked at), and the
    column holds a cactus from the cell up, two or three cells high and
    cut at the top of the world, whatever the cells over the first one
    held; every other cell holds what it held. *)
Theorem cactus_planting c lx y lz rng :
  Chunk.inBounds lx y lz = true ->
  let planted := (decorateDesert c lx y lz rng).1 in
  planted = c
  \/ ((forall nx nz,
         (nx = lx - 1 /\ nz = lz) \/ (nx = lx + 1 /\ nz = lz)
         \/ (nx = lx /\ nz = lz - 1) \/ (nx = lx /\ nz = lz + 1) ->
         0 <= nx < CHUNK_SIZE -> 0 <= nz < CHUNK_SIZE ->
         getBlock c nx y nz = AIR)
      /\ exists height, 2 <= height <= 3 /\
           forall x' y' z',
             getBlock planted x' y' z' =
               if (x' =? lx) && (z' =? lz) && (y <=? y') && (y' <? y + height)
                  && (y' <? 256)
               then CACTUS else getBlock c x' y' z').
Proof.
  intros Hin. cbv zeta. unfold decorateDesert.
  destruct (Rng.next rng) as [u r1]. destruct (Rng.ge u 2 100); [by left|].
  destruct (hasClearNeighbours c lx y lz) eqn:Hclear; cbn [negb]; [|by left].
  right. split; [by apply hasClearNeighbours_spec|].
  pose proof (next_range r1) as Hu. destruct (Rng.next r1) as [u2 r2]. cbn [fst snd] in *.
  pose proof (floorMul_range u2 2 Hu ltac:(lia)) as Hh.
  exists (2 + Rng.floorMul u2 2). split; [lia|].
  intros x' y' z'. apply cactus_loop; [lia|done].
Qed.

End BiomeDecorations.

Lemma cactus_planting_witness :
  let c := Chunk.empty 0 0 in
  let planted := (StructureGenerator.decorateDesert c 8 255 8 (Rng.mulberry32 7)).1 in
  planted = c
  \/ ((forall nx nz,
         (nx = 8 - 1 /\ nz = 8) \/ (nx = 8 + 1 /\ nz = 8)
         \/ (nx = 8 /\ nz = 8 - 1) \/ (nx = 8 /\ nz = 8 + 1) ->
         0 <= nx < CHUNK_SIZE -> 0 <= nz < CHUNK_SIZE ->
         getBlock c nx 255 nz = AIR)
      /\ exists height, 2 <= height <= 3 /\
           forall x' y' z',
             getBlock planted x' y' z' =
               if (x' =? 8) && (z' =? 8) && (255 <=? y') && (y' <? 255 + height)
                  && (y' <? 256)
               then CACTUS else getBlock c x' y' z').
Proof. apply (cactus_planting (Chunk.empty 0 0) 8 255 8 (Rng.mulberry32 7)). reflexivity. Defined.

(** With the generator [mulberry32(7)] a cactus is planted; at the top
    layer of the world it is one cell high. *)
Example cactus_cut_at_the_top :
  let planted :=
    (StructureGenerator.decorateDesert (Chunk.empty 0 0) 8 255 8 (Rng.mulberry32 7)).1 in
  getBlock planted 8 255 8 = CACTUS /\ getBlock planted 8 256 8 = AIR.
Proof. split; vm_compute; reflexivity. Qed.


(** ** Mineshafts: corridors *)

Section CorridorShape.
Import MineshaftGenerator.

(** *** Loops that may break *)

Lemma for_break_first {S : Type} lo hi (body : Z -> S -> option S) s :
  lo < hi ->
  Loop.for_break lo hi body s =
    match body lo s with
    | None => s
    | Some s' => Loop.for_break (lo + 1) hi body s'
    end.
Proof.
  intros H. unfold Loop.for_break. rewrite seqZ_cons by lia. cbn [Loop.for_break_list].
  by replace (Z.succ lo) with (lo + 1) by lia;
     replace (Z.pred (hi - lo)) with (hi - (lo + 1)) by lia.
Qed.

(** A loop that breaks on a test of its index reaches an index when the
    test fails up to it. *)
Lemma for_break_reaches {S : Type} (stop : Z -> bool) (f : Z -> S -> S) lo hi i0 s :
  lo <= i0 < hi ->
  (forall i, lo <= i <= i0 -> stop i = false) ->
  Loop.for_break lo hi (fun i s => if stop i then None else Some (f i s)) s
  = Loop.for_break (i0 + 1) hi (fun i s => if stop i then None else Some (f i s))
      (f i0 (Loop.for_range lo i0 f s)).
Proof.
  intros Hi Hgo.
  remember (Z.to_nat (i0 - lo)) as n eqn:Hn.
  revert lo s Hi Hgo Hn. induction n as [|n IH]; intros lo s Hi Hgo Hn.
  - assert (lo = i0) as -> by lia.
    rewrite for_break_first by lia. rewrite Hgo by lia.
    by rewrite for_range_empty by lia.
  - rewrite for_break_first by lia. rewrite Hgo by lia.
    rewrite (IH (lo + 1)); [|lia|intros i Hi'; apply Hgo; lia|lia].
    by rewrite (for_range_first lo i0) by lia.
Qed.

(** *** One step of a corridor *)

(** The test that ends the loop of [carveCorridor], and the rest of its
    body, at the centre [(cx, cz)] with the side direction [(px, pz)]. *)
Definition corridorStops (cx cz px pz : Z) : bool :=
  negb (inBounds (cx - px) (cz - pz)) || negb (inBounds (cx + px) (cz + pz)).

Definition carveSection (chunk : Chunk) (cx sy cz px pz : Z) : Chunk :=
  Loop.for_range (-1) 2 (fun w chunk =>
    let bx := cx + px * w in
    let bz := cz + pz * w in
    Loop.for_range 0 3 (fun dy chunk =>
      carveCell chunk bx (sy + dy) bz) chunk) chunk.

Definition corridorStep (cx sy cz px pz step : Z) (chunk : Chunk) : Chunk :=
  let chunk := carveSection chunk cx sy cz px pz in
  let chunk :=
    if isStoneOrAir chunk cx (sy - 1) cz
    then setBlock chunk cx (sy - 1) cz PLANKS_OAK
    else chunk in
  let chunk :=
    if Z.rem step 4 =? 0 then placeSupport chunk cx sy cz px pz else chunk in
  if (Z.rem step 8 =? 4) && (0 <? step) then placeTorch chunk (cx + px) (sy + 1) (cz + pz)
  else chunk.

Lemma carveCorridor_steps c sx sy sz dx dz len :
  carveCorridor c sx sy sz dx dz len =
  let px := if dz =? 0 then 0 else 1 in
  let pz := if dx =? 0 then 0 else 1 in
  Loop.for_break 0 len (fun step chunk =>
    if corridorStops (sx + dx * step) (sz + dz * step) px pz then None
    else Some (corridorStep (sx + dx * step) sy (sz + dz * step) px pz step chunk)) c.
Proof. reflexivity. Qed.

(** The columns of the cross-section at [(cx, cz)]. *)
Definition onSection (cx cz px pz x z : Z) : bool :=
  (Z.abs (x - cx) <=? px) && (Z.abs (z - cz) <=? pz).

Definition stoneOrAir (b : BlockType) : bool := block_eqb b STONE || block_eqb b AIR.

Lemma getBlock_carveColumn c bx sy bz x y z :
  getBlock (Loop.for_range 0 3 (fun dy chunk => carveCell chunk bx (sy + dy) bz) c) x y z
  = if (bx =? x) && (bz =? z) && (sy <=? y) && (y <? sy + 3) && Chunk.inBounds x y z
       && (1 <=? y) && (y <? 255) && negb (kept (getBlock c x y z))
    then AIR else getBlock c x y z.
Proof.
  rewrite (getBlock_for_range_once _
             (fun old => if (bx =? x) && (bz =? z) && Chunk.inBounds x y z
                            && (1 <=? y) && (y <? 255) && negb (kept old)
                         then AIR else old) 0 3 (y - sy)).
  - destruct (Z.leb_spec 0 (y - sy)), (Z.ltb_spec (y - sy) 3), (Z.leb_spec sy y),
      (Z.ltb_spec y (sy + 3)); cbn [andb]; rewrite ?andb_false_r, ?andb_true_r;
      try done; try lia.
    all: destruct ((bx =? x) && (bz =? z)); cbn [andb]; done.
  - intros dy c' Hdy Hne. rewrite getBlock_carveCell.
    replace (sy + dy =? y) with false by (symmetry; apply Z.eqb_neq; lia).
    by rewrite andb_false_r.
  - intros c' Hdy. rewrite getBlock_carveCell.
    replace (sy + (y - sy)) with y by lia. rewrite Z.eqb_refl, andb_true_r.
    destruct (Z.eqb_spec bx x) as [->|]; [|done].
    destruct (Z.eqb_spec bz z) as [->|]; [|done]. done.
Qed.

Section Step.
Variables (cx sy cz px pz : Z).
Hypothesis Hside : (px = 1 /\ pz = 0) \/ (px = 0 /\ pz = 1).
Hypothesis Hleft : inBounds (cx - px) (cz - pz) = true.
Hypothesis Hright : inBounds (cx + px) (cz + pz) = true.
Hypothesis Hsy : 1 <= sy <= 252.

Lemma section_in_chunk :
  0 <= cx - px /\ cx + px < 16 /\ 0 <= cz - pz /\ cz + pz < 16.
Proof using Hside Hleft Hright.
  unfold inBounds in Hleft, Hright. change CHUNK_SIZE with 16 in *.
  rewrite !andb_true_iff, !Z.leb_le, !Z.ltb_lt in Hleft, Hright. lia.
Qed.

Lemma getBlock_carveSection c x y z :
  getBlock (carveSection c cx sy cz px pz) x y z
  = if onSection cx cz px pz x z && (sy <=? y) && (y <=? sy + 2)
       && negb (kept (getBlock c x y z))
    then AIR else getBlock c x y z.
Proof using Hside Hleft Hright Hsy.
  pose proof section_in_chunk as Hin.
  unfold carveSection, onSection. cbv zeta. unfold Loop.for_range at 1.
  change (seqZ (-1) (2 - -1)) with [-1; 0; 1]. cbn [fold_left].
  rewrite !getBlock_carveColumn.
  unfold Chunk.inBounds. change CHUNK_SIZE with 16. change CHUNK_HEIGHT with 256.
  destruct (kept (getBlock c x y z)) eqn:Hk;
    destruct Hside as [[-> ->] | [-> ->]];
    cases_then ltac:(first
      [ exfalso; lia
      | repeat (rewrite ?Hk; change (kept AIR) with false; cbn [negb andb orb]); done ]).
Qed.

Lemma isStoneOrAir_floor c :
  isStoneOrAir (carveSection c cx sy cz px pz) cx (sy - 1) cz
  = stoneOrAir (getBlock c cx (sy - 1) cz).
Proof using Hside Hleft Hright Hsy.
  pose proof section_in_chunk as Hin.
  unfold isStoneOrAir, stoneOrAir. cbv zeta. rewrite getBlock_carveSection.
  assert (inBounds cx cz = true) as ->.
  { unfold inBounds. change CHUNK_SIZE with 16.
    rewrite !andb_true_iff, !Z.leb_le, !Z.ltb_lt. lia. }
  cbn [negb orb]. settle. done.
Qed.

Lemma getBlock_placeSupport c x y z :
  getBlock (placeSupport c cx sy cz px pz) x y z
  = if onSection cx cz px pz x z && (y =? sy + 2) then PLANKS_OAK
    else if onSection cx cz px pz x z && negb ((x =? cx) && (z =? cz))
            && (sy <=? y) && (y <=? sy + 1)
    then WOOD_OAK
    else getBlock c x y z.
Proof using Hside Hleft Hright Hsy.
  pose proof section_in_chunk as Hin.
  unfold placeSupport, onSection. cbv zeta. rewrite Hleft, Hright.
  unfold Loop.for_range.
  change (seqZ (-1) (2 - -1)) with [-1; 0; 1]. change (seqZ 0 (3 - 0)) with [0; 1; 2].
  cbn [fold_left].
  assert (inBounds (cx + px * -1) (cz + pz * -1) = true) as ->.
  { rewrite <- Hleft. f_equal; lia. }
  assert (inBounds (cx + px * 0) (cz + pz * 0) = true) as ->.
  { unfold inBounds. change CHUNK_SIZE with 16.
    rewrite !andb_true_iff, !Z.leb_le, !Z.ltb_lt. lia. }
  assert (inBounds (cx + px * 1) (cz + pz * 1) = true) as ->.
  { rewrite <- Hright. f_equal; lia. }
  rewrite !getBlock_setBlock_eqb.
  unfold Chunk.inBounds. change CHUNK_SIZE with 16. change CHUNK_HEIGHT with 256.
  destruct Hside as [[-> ->] | [-> ->]]; crush.
Qed.

Lemma getBlock_placeTorch c x y z :
  getBlock (placeTorch c (cx + px) (sy + 1) (cz + pz)) x y z
  = if (x =? cx + px) && (y =? sy + 1) && (z =? cz + pz) then TORCH
    else getBlock c x y z.
Proof using Hside Hleft Hright Hsy.
  pose proof section_in_chunk as Hin.
  unfold placeTorch. rewrite Hright.
  replace (1 <=? sy + 1) with true by (symmetry; apply Z.leb_le; lia).
  replace (sy + 1 <? 255) with true by (symmetry; apply Z.ltb_lt; lia).
  cbn [andb]. rewrite getBlock_setBlock_eqb.
  unfold Chunk.inBounds. change CHUNK_SIZE with 16. change CHUNK_HEIGHT with 256.
  destruct Hside as [[-> ->] | [-> ->]]; crush.
Qed.

(** What one step of a corridor leaves in a cell. *)
Lemma getBlock_corridorStep step c x y z :
  getBlock (corridorStep cx sy cz px pz step c) x y z
  = if negb (onSection cx cz px pz x z) then getBlock c x y z
    else if (Z.rem step 8 =? 4) && (0 <? step)
            && (x =? cx + px) && (y =? sy + 1) && (z =? cz + pz)
    then TORCH
    else if (Z.rem step 4 =? 0) && (y =? sy + 2) then PLANKS_OAK
    else if (Z.rem step 4 =? 0) && negb ((x =? cx) && (z =? cz))
            && (sy <=? y) && (y <=? sy + 1)
    then WOOD_OAK
    else if (x =? cx) && (y =? sy - 1) && (z =? cz) && stoneOrAir (getBlock c x y z)
    then PLANKS_OAK
    else if (sy <=? y) && (y <=? sy + 2) && negb (kept (getBlock c x y z)) then AIR
    else getBlock c x y z.
Proof using Hside Hleft Hright Hsy.
  pose proof section_in_chunk as Hin.
  unfold corridorStep. cbv zeta. rewrite isStoneOrAir_floor.
  set (b8 := (Z.rem step 8 =? 4) && (0 <? step)). set (b4 := Z.rem step 4 =? 0).
  assert (forall c', getBlock (if b8 then placeTorch c' (cx + px) (sy + 1) (cz + pz) else c')
                       x y z
          = if b8 && (x =? cx + px) && (y =? sy + 1) && (z =? cz + pz) then TORCH
            else getBlock c' x y z) as ->.
  { intros c'. destruct b8; [|done]. by rewrite getBlock_placeTorch. }
  assert (forall c', getBlock (if b4 then placeSupport c' cx sy cz px pz else c') x y z
          = if b4 && onSection cx cz px pz x z && (y =? sy + 2) then PLANKS_OAK
            else if b4 && onSection cx cz px pz x z && negb ((x =? cx) && (z =? cz))
                    && (sy <=? y) && (y <=? sy + 1)
            then WOOD_OAK
            else getBlock c' x y z) as ->.
  { intros c'. destruct b4; [|done]. by rewrite getBlock_placeSupport. }
  assert (getBlock (if stoneOrAir (getBlock c cx (sy - 1) cz)
                    then setBlock (carveSection c cx sy cz px pz) cx (sy - 1) cz PLANKS_OAK
                    else carveSection c cx sy cz px pz) x y z
          = if (x =? cx) && (y =? sy - 1) && (z =? cz) && stoneOrAir (getBlock c x y z)
            then PLANKS_OAK
            else getBlock (carveSection c cx sy cz px pz) x y z) as ->.
  { destruct (Z.eqb_spec x cx) as [->|Hx]; cbn [andb].
    2:{ destruct (stoneOrAir _); [|done]. rewrite getBlock_setBlock_eqb.
        replace (cx =? x) with false by (symmetry; apply Z.eqb_neq; lia).
        by rewrite andb_false_r. }
    destruct (Z.eqb_spec y (sy - 1)) as [->|Hy]; cbn [andb].
    2:{ destruct (stoneOrAir _); [|done]. rewrite getBlock_setBlock_eqb.
        replace (sy - 1 =? y) with false by (symmetry; apply Z.eqb_neq; lia).
        by rewrite andb_false_r. }
    destruct (Z.eqb_spec z cz) as [->|Hz]; cbn [andb].
    2:{ destruct (stoneOrAir _); [|done]. rewrite getBlock_setBlock_eqb.
        replace (cz =? z) with false by (symmetry; apply Z.eqb_neq; lia).
        by rewrite andb_false_r. }
    destruct (stoneOrAir _); [|done]. rewrite getBlock_setBlock_eqb, !Z.eqb_refl.
    replace (Chunk.inBounds cx (sy - 1) cz) with true; [done|].
    symmetry. apply inBounds_spec. change CHUNK_SIZE with 16. change CHUNK_HEIGHT with 256.
    lia. }
  rewrite getBlock_carveSection.
  destruct (onSection cx cz px pz x z) eqn:Hon; cbn [negb andb];
    rewrite ?andb_false_r, ?andb_true_r; cbn [andb].
  - destruct b8, b4; cbn [andb]; done.
  - unfold onSection in Hon. apply not_true_iff_false in Hon.
    rewrite andb_true_iff, !Z.leb_le in Hon.
    clearbody b8 b4.
    destruct Hside as [[-> ->] | [-> ->]]; destruct b8, b4; cbn [andb]; crush.
Qed.

End Step.

(** *** A corridor *)

Lemma dir_cases dx dz :
  (dx, dz) ∈ DIRS ->
  (dx = 1 /\ dz = 0) \/ (dx = -1 /\ dz = 0) \/ (dx = 0 /\ dz = 1) \/ (dx = 0 /\ dz = -1).
Proof.
  unfold DIRS. rewrite !elem_of_cons, elem_of_nil.
  intros [[= -> ->] | [[= -> ->] | [[= -> ->] | [[= -> ->] | []]]]]; lia.
Qed.

(** The side direction of a corridor. *)
Definition side (dx dz : Z) : Z * Z :=
  (if dz =? 0 then 0 else 1, if dx =? 0 then 0 else 1).

Lemma side_cases dx dz :
  (dx, dz) ∈ DIRS ->
  ((side dx dz).1 = 1 /\ (side dx dz).2 = 0) \/ ((side dx dz).1 = 0 /\ (side dx dz).2 = 1).
Proof.
  intros H. destruct (dir_cases dx dz H) as [[-> ->] | [[-> ->] | [[-> ->] | [-> ->]]]];
    cbn; auto.
Qed.

Lemma stops_false cx cz px pz :
  corridorStops cx cz px pz = false ->
  inBounds (cx - px) (cz - pz) = true /\ inBounds (cx + px) (cz + pz) = true.
Proof.
  unfold corridorStops. intros H. apply orb_false_iff in H as [H1 H2].
  by apply negb_false_iff in H1, H2.
Qed.

(** The cross-sections of two steps of a corridor share no column. *)
Lemma sections_apart sx sz dx dz s t x z :
  (dx, dz) ∈ DIRS -> s <> t ->
  onSection (sx + dx * s) (sz + dz * s) (side dx dz).1 (side dx dz).2 x z = true ->
  onSection (sx + dx * t) (sz + dz * t) (side dx dz).1 (side dx dz).2 x z = false.
Proof.
  intros H Hne. unfold onSection. intros Hs. apply not_true_iff_false. revert Hs.
  rewrite !andb_true_iff, !Z.leb_le.
  destruct (dir_cases dx dz H) as [[-> ->] | [[-> ->] | [[-> ->] | [-> ->]]]]; cbn; lia.
Qed.

(** A cell on no cross-section of a corridor keeps its block. *)
Lemma carveCorridor_keeps c sx sy sz dx dz len x y z :
  (dx, dz) ∈ DIRS -> 1 <= sy <= 252 ->
  (forall i, 0 <= i < len ->
     onSection (sx + dx * i) (sz + dz * i) (side dx dz).1 (side dx dz).2 x z = false) ->
  getBlock (carveCorridor c sx sy sz dx dz len) x y z = getBlock c x y z.
Proof.
  intros Hdir Hsy Hoff. rewrite carveCorridor_steps. cbv zeta.
  change (if dz =? 0 then 0 else 1) with (side dx dz).1.
  change (if dx =? 0 then 0 else 1) with (side dx dz).2.
  apply (for_break_preserves (fun c' => getBlock c' x y z = getBlock c x y z)); [done|].
  intros i c1 c2 Hi Hc1.
  destruct (corridorStops _ _ _ _) eqn:Hstop; [discriminate|]. intros [= <-].
  apply stops_false in Hstop as [Hl Hr].
  rewrite (getBlock_corridorStep _ _ _ _ _ (side_cases dx dz Hdir) Hl Hr Hsy).
  by rewrite Hoff.
Qed.

(** A cell on the cross-section of a step the corridor reaches holds what
    that step leaves there. *)
Lemma getBlock_carveCorridor c sx sy sz dx dz len step x y z :
  (dx, dz) ∈ DIRS -> 1 <= sy <= 252 -> 0 <= step < len ->
  (forall i, 0 <= i <= step ->
     corridorStops (sx + dx * i) (sz + dz * i) (side dx dz).1 (side dx dz).2 = false) ->
  onSection (sx + dx * step) (sz + dz * step) (side dx dz).1 (side dx dz).2 x z = true ->
  getBlock (carveCorridor c sx sy sz dx dz len) x y z
  = getBlock (corridorStep (sx + dx * step) sy (sz + dz * step)
                (side dx dz).1 (side dx dz).2 step c) x y z.
Proof.
  intros Hdir Hsy Hstep Hgo Hon. rewrite carveCorridor_steps. cbv zeta.
  change (if dz =? 0 then 0 else 1) with (side dx dz).1.
  change (if dx =? 0 then 0 else 1) with (side dx dz).2.
  rewrite (for_break_reaches
             (fun i => corridorStops (sx + dx * i) (sz + dz * i) (side dx dz).1 (side dx dz).2)
             (fun i => corridorStep (sx + dx * i) sy (sz + dz * i)
                         (side dx dz).1 (side dx dz).2 i)
             0 len step) by done.
  pose proof (side_cases dx dz Hdir) as Hside.
  transitivity (getBlock
    (corridorStep (sx + dx * step) sy (sz + dz * step) (side dx dz).1 (side dx dz).2 step
       (Loop.for_range 0 step
          (fun i => corridorStep (sx + dx * i) sy (sz + dz * i)
                      (side dx dz).1 (side dx dz).2 i) c)) x y z).
  - apply (for_break_preserves (fun c' => getBlock c' x y z =
      getBlock
        (corridorStep (sx + dx * step) sy (sz + dz * step) (side dx dz).1 (side dx dz).2 step
           (Loop.for_range 0 step
              (fun i => corridorStep (sx + dx * i) sy (sz + dz * i)
                          (side dx dz).1 (side dx dz).2 i) c)) x y z)); [done|].
    intros i c1 c2 Hi Hc1.
    destruct (corridorStops _ _ _ _) eqn:Hstop; [discriminate|]. intros [= <-].
    apply stops_false in Hstop as [Hl Hr].
    rewrite (getBlock_corridorStep _ _ _ _ _ Hside Hl Hr Hsy).
    rewrite (sections_apart sx sz dx dz step i x z Hdir) by (done || lia). done.
  - destruct (stops_false _ _ _ _ (Hgo step ltac:(lia))) as [Hl Hr].
    rewrite !(getBlock_corridorStep _ _ _ _ _ Hside Hl Hr Hsy).
    assert (getBlock
              (Loop.for_range 0 step
                 (fun i => corridorStep (sx + dx * i) sy (sz + dz * i)
                             (side dx dz).1 (side dx dz).2 i) c) x y z
            = getBlock c x y z) as ->; [|done].
    apply getBlock_for_range_none. intros i c' Hi.
    destruct (stops_false _ _ _ _ (Hgo i ltac:(lia))) as [Hl' Hr'].
    rewrite (getBlock_corridorStep _ _ _ _ _ Hside Hl' Hr' Hsy).
    rewrite (sections_apart sx sz dx dz step i x z Hdir) by (done || lia). done.
Qed.

(** X27: the cross-section of a corridor.  Take a step that
    [carveCorridor] reaches (its cross-section and those of the steps
    before it lie in the chunk) and a cell [(x, y, z)] of one of the three
    columns of that cross-section: the centre column and one column on
    each side.  With [carved] for air, or the old block where that is
    bedrock or water: rows outside [sy - 1 .. sy + 2] keep their block; in
    the row [sy - 1] the centre turns to planks where it held stone or
    air; at a step that is no multiple of four the three rows from [sy]
    are carved; at a multiple of four the row [sy + 2] is a beam of
    planks, the centre is carved below it and the side columns are oak
    logs, where a torch takes the place of the upper log of the right
    column at every step that is 4 modulo 8. *)
Theorem corridor_cross_section c sx sy sz dx dz len step (x y z : Z) :
  (dx, dz) ∈ DIRS -> 1 <= sy <= 252 -> 0 <= step < len ->
  (forall i, 0 <= i <= step ->
     inBounds (sx + dx * i - (side dx dz).1) (sz + dz * i - (side dx dz).2) = true
     /\ inBounds (sx + dx * i + (side dx dz).1) (sz + dz * i + (side dx dz).2) = true) ->
  onSection (sx + dx * step) (sz + dz * step) (side dx dz).1 (side dx dz).2 x z = true ->
  let cx := sx + dx * step in
  let cz := sz + dz * step in
  let old := getBlock c x y z in
  let new := getBlock (carveCorridor c sx sy sz dx dz len) x y z in
  let carved := if kept old then old else AIR in
  let centre := x = cx /\ z = cz in
  let right := x = cx + (side dx dz).1 /\ z = cz + (side dx dz).2 in
  (y < sy - 1 \/ sy + 2 < y -> new = old)
  /\ (y = sy - 1 ->
      (centre -> new = if stoneOrAir old then PLANKS_OAK else old)
      /\ (~ centre -> new = old))
  /\ (Z.rem step 4 <> 0 -> sy <= y <= sy + 2 -> new = carved)
  /\ (Z.rem step 4 = 0 ->
      (y = sy + 2 -> new = PLANKS_OAK)
      /\ (centre -> sy <= y <= sy + 1 -> new = carved)
      /\ (~ centre -> sy <= y <= sy + 1 ->
          new = if (Z.rem step 8 =? 4) && (y =? sy + 1) && bool_decide right
                then TORCH else WOOD_OAK)).
Proof.
  intros Hdir Hsy Hstep Hgo Hon. cbv zeta.
  assert (forall i, 0 <= i <= step ->
     corridorStops (sx + dx * i) (sz + dz * i) (side dx dz).1 (side dx dz).2 = false) as Hgo'.
  { intros i Hi. destruct (Hgo i Hi) as [Hl Hr]. unfold corridorStops. by rewrite Hl, Hr. }
  rewrite (getBlock_carveCorridor c sx sy sz dx dz len step x y z) by done.
  destruct (Hgo step ltac:(lia)) as [Hl Hr].
  pose proof (side_cases dx dz Hdir) as Hside.
  rewrite (getBlock_corridorStep _ _ _ _ _ Hside Hl Hr Hsy). rewrite Hon. cbn [negb].
  assert ((0 <? step) = true \/ (Z.rem step 8 =? 4) = false) as Hpos.
  { destruct (Z.eq_dec step 0) as [->|]; [by right|]. left. apply Z.ltb_lt. lia. }
  assert ((Z.rem step 8 =? 4) = true -> (Z.rem step 4 =? 0) = true) as H84.
  { rewrite !Z.eqb_eq. intros H8.
    pose proof (Z.rem_mod_nonneg step 8 ltac:(lia) ltac:(lia)).
    pose proof (Z.rem_mod_nonneg step 4 ltac:(lia) ltac:(lia)).
    pose proof (Z.mod_divide step 4 ltac:(lia)).
    assert (step mod 4 = 0); [|lia].
    apply Z.mod_divide; [lia|]. exists (2 * (step / 8) + 1).
    pose proof (Z.div_mod step 8 ltac:(lia)). lia. }
  unfold onSection in Hon. apply andb_true_iff in Hon as [Hox Hoz].
  apply Z.leb_le in Hox, Hoz.
  destruct (side dx dz) as [px pz]. cbn [fst snd] in *.
  clear Hgo Hgo' Hl Hr Hdir.
  set (cx := sx + dx * step) in *. set (cz := sz + dz * step) in *. clearbody cx cz.
  destruct (Z.rem step 4 =? 0) eqn:H4; destruct (Z.rem step 8 =? 4) eqn:H8;
    try (specialize (H84 eq_refl); discriminate H84);
    try (destruct Hpos as [-> | Hpos]; [|discriminate Hpos]);
    rewrite ?Z.eqb_eq, ?Z.eqb_neq in H4; clear H84;
    cbn [andb].
  all: destruct (kept (getBlock c x y z)) eqn:Hk; cbn [negb];
    rewrite ?andb_false_r, ?andb_true_r.
  all: repeat split; try (intros; exfalso; lia).
  all: destruct Hside as [[-> ->] | [-> ->]].
  all: intros; repeat case_bool_decide;
    cases_then ltac:(first [done | exfalso; lia | by destruct (stoneOrAir _) ]).
Qed.

(** *** The hub *)

Lemma shuffled_dirs rng :
  length (shuffleDirs rng).1 = 4%nat
  /\ forall i, 0 <= i < 4 -> dirAt (shuffleDirs rng).1 i ∈ DIRS.
Proof.
  unfold shuffleDirs. cbn [fold_left].
  pose proof (next_range rng) as H1. destruct (Rng.next rng) as [u1 r1]. cbn [fst snd] in *.
  pose proof (next_range r1) as H2. destruct (Rng.next r1) as [u2 r2]. cbn [fst snd] in *.
  pose proof (next_range r2) as H3. destruct (Rng.next r2) as [u3 r3]. cbn [fst snd] in *.
  pose proof (floorMul_range u1 4 H1 ltac:(lia)) as J1.
  pose proof (floorMul_range u2 3 H2 ltac:(lia)) as J2.
  pose proof (floorMul_range u3 2 H3 ltac:(lia)) as J3.
  replace (3 + 1) with 4 by reflexivity. replace (2 + 1) with 3 by reflexivity.
  replace (1 + 1) with 2 by reflexivity.
  generalize dependent (Rng.floorMul u1 4). intros j1 J1.
  generalize dependent (Rng.floorMul u2 3). intros j2 J2.
  generalize dependent (Rng.floorMul u3 2). intros j3 J3.
  assert (j1 = 0 \/ j1 = 1 \/ j1 = 2 \/ j1 = 3) as C1 by lia.
  assert (j2 = 0 \/ j2 = 1 \/ j2 = 2) as C2 by lia.
  assert (j3 = 0 \/ j3 = 1) as C3 by lia.
  destruct C1 as [-> | [-> | [-> | ->]]], C2 as [-> | [-> | ->]], C3 as [-> | ->];
    (split; [reflexivity|]); intros i Hi;
    assert (i = 0 \/ i = 1 \/ i = 2 \/ i = 3) as [-> | [-> | [-> | ->]]] by lia;
    by apply (bool_decide_unpack _).
Qed.

(** X28: the torch of the hub does not last.  [buildNetwork] sets a torch
    in the top middle cell of the hub room and then digs three or four
    corridors from the middle of the room; the first step of each puts
    a support there, whose beam takes the cell.  The cell holds oak planks
    at the end. *)
Theorem hub_torch_is_replaced c rng startX baseY startZ :
  1 <= startX <= 14 -> 1 <= startZ <= 14 -> 1 <= baseY <= 252 ->
  getBlock (buildNetwork c rng startX baseY startZ).1 startX (baseY + 2) startZ
  = PLANKS_OAK.
Proof.
  intros Hx Hz Hy. unfold buildNetwork. cbv zeta.
  pose proof (next_range rng) as Hu0. destruct (Rng.next rng) as [u0 rng0].
  cbn [fst] in Hu0. pose proof (floorMul_range u0 3 Hu0 ltac:(lia)) as Hb.
  destruct (shuffled_dirs rng0) as [Hlen Hdirs].
  destruct (shuffleDirs rng0) as [dirs rng1]. cbn [fst] in Hlen, Hdirs. rewrite Hlen.
  change (Z.of_nat 4) with 4.
  generalize (placeTorch (carveRoom c (startX - 1) baseY (startZ - 1) 3 3 3)
                startX (baseY + 2) startZ). intros c0.
  rewrite for_range_last by lia.
  set (b := Z.min (3 + Rng.floorMul u0 3) 4 - 1).
  assert (0 <= b < 4) as Hbr by lia. clearbody b.
  destruct (Loop.for_range 0 b _ (c0, rng1)) as [c1 r1].
  assert (0 <= Z.rem b 4 < 4) as Hrem by (rewrite Z.rem_small by lia; lia).
  pose proof (Hdirs _ Hrem) as Hdir.
  destruct (dirAt dirs (Z.rem b 4)) as [dx dz].
  pose proof (next_range r1) as Hu2. destruct (Rng.next r1) as [u2 r2]. cbn [fst] in Hu2.
  pose proof (floorMul_range u2 16 Hu2 ltac:(lia)) as Hlen'.
  destruct (Rng.next r2) as [u3 r3].
  set (len := 8 + Rng.floorMul u2 16) in *.
  assert (getBlock (carveCorridor c1 startX baseY startZ dx dz len) startX (baseY + 2) startZ
          = PLANKS_OAK) as Hmain.
  { assert (inBounds (startX + dx * 0 - (side dx dz).1) (startZ + dz * 0 - (side dx dz).2)
              = true
            /\ inBounds (startX + dx * 0 + (side dx dz).1) (startZ + dz * 0 + (side dx dz).2)
              = true) as [Hl Hr].
    { unfold inBounds. change CHUNK_SIZE with 16.
      rewrite !andb_true_iff, !Z.leb_le, !Z.ltb_lt.
      destruct (dir_cases dx dz Hdir) as [[-> ->] | [[-> ->] | [[-> ->] | [-> ->]]]];
        cbn; lia. }
    rewrite (getBlock_carveCorridor c1 startX baseY startZ dx dz len 0); [|done|done|lia| |].
    - rewrite (getBlock_corridorStep _ _ _ _ _ (side_cases dx dz Hdir) Hl Hr Hy).
      replace (onSection _ _ _ _ startX startZ) with true.
      2:{ symmetry. unfold onSection. rewrite andb_true_iff, !Z.leb_le.
          destruct (dir_cases dx dz Hdir) as [[-> ->] | [[-> ->] | [[-> ->] | [-> ->]]]];
            cbn; lia. }
      cbn [negb]. change (Z.rem 0 8 =? 4) with false. change (Z.rem 0 4 =? 0) with true.
      cbn [andb]. by rewrite Z.eqb_refl.
    - intros i Hi. assert (i = 0) as -> by lia. unfold corridorStops. by rewrite Hl, Hr.
    - unfold onSection. rewrite andb_true_iff, !Z.leb_le.
      destruct (dir_cases dx dz Hdir) as [[-> ->] | [[-> ->] | [[-> ->] | [-> ->]]]];
        cbn; lia. }
  destruct (Rng.lt u3 4 10); [|exact Hmain].
  destruct (inBounds _ _); [|exact Hmain].
  pose proof (next_range r3) as Hu4. destruct (Rng.next r3) as [u4 r4]. cbn [fst] in Hu4.
  pose proof (floorMul_range u4 2 Hu4 ltac:(lia)) as Ht.
  destruct (Rng.next r4) as [u5 r5]. cbn [fst snd].
  rewrite carveCorridor_keeps; [exact Hmain| |done|].
  - destruct (dir_cases dx dz Hdir) as [[-> ->] | [[-> ->] | [[-> ->] | [-> ->]]]];
      cbn [Z.eqb];
      assert (Rng.floorMul u4 2 = 0 \/ Rng.floorMul u4 2 = 1) as [-> | ->] by lia;
      by apply (bool_decide_unpack _).
  - intros i Hi. unfold onSection, side. apply not_true_iff_false.
    destruct (dir_cases dx dz Hdir) as [[-> ->] | [[-> ->] | [[-> ->] | [-> ->]]]];
      cbn [Z.eqb];
      assert (Rng.floorMul u4 2 = 0 \/ Rng.floorMul u4 2 = 1) as [-> | ->] by lia;
      change (dirAt DIRS (2 + 0)) with (0, 1); change (dirAt DIRS (2 + 1)) with (0, -1);
      change (dirAt DIRS 0) with (1, 0); change (dirAt DIRS 1) with (-1, 0);
      cbn [fst snd Z.eqb]; rewrite andb_true_iff, !Z.leb_le; subst len; lia.
Qed.

End CorridorShape.

Lemma corridor_cross_section_witness :
  let c := Chunk.empty 0 0 in
  let sx := 8 in let sy := 20 in let sz := 8 in
  let dx := 1 in let dz := 0 in let step := 4 in
  let x := 12 in let y := 21 in let z := 9 in
  let cx := sx + dx * step in
  let cz := sz + dz * step in
  let old := getBlock c x y z in
  let new := getBlock (MineshaftGenerator.carveCorridor c sx sy sz dx dz 8) x y z in
  let carved := if kept old then old else AIR in
  let centre := x = cx /\ z = cz in
  let right := x = cx + (side dx dz).1 /\ z = cz + (side dx dz).2 in
  (y < sy - 1 \/ sy + 2 < y -> new = old)
  /\ (y = sy - 1 ->
      (centre -> new = if stoneOrAir old then PLANKS_OAK else old)
      /\ (~ centre -> new = old))
  /\ (Z.rem step 4 <> 0 -> sy <= y <= sy + 2 -> new = carved)
  /\ (Z.rem step 4 = 0 ->
      (y = sy + 2 -> new = PLANKS_OAK)
      /\ (centre -> sy <= y <= sy + 1 -> new = carved)
      /\ (~ centre -> sy <= y <= sy + 1 ->
          new = if (Z.rem step 8 =? 4) && (y =? sy + 1) && bool_decide right
                then TORCH else WOOD_OAK)).
Proof.
  apply (corridor_cross_section (Chunk.empty 0 0) 8 20 8 1 0 8 4 12 21 9).
  - by apply (bool_decide_unpack _).
  - lia.
  - lia.
  - intros i Hi. unfold MineshaftGenerator.inBounds. change CHUNK_SIZE with 16.
    rewrite !andb_true_iff, !Z.leb_le, !Z.ltb_lt. simpl. lia.
  - reflexivity.
Defined.

Lemma hub_torch_is_replaced_witness :
  getBlock (MineshaftGenerator.buildNetwork (Chunk.empty 0 0) (Rng.mulberry32 1) 8 20 8).1
    8 (20 + 2) 8 = PLANKS_OAK.
Proof.
  apply (hub_torch_is_replaced (Chunk.empty 0 0) (Rng.mulberry32 1) 8 20 8); lia.
Defined.
